(** * DenseMatrix.js: a shallow embedding of the dense tensor and its norms

    The development follows the TypeScript sources:
    - [DenseMatrix.ts]      (class [DenseMatrix]: constructor, get, set, map,
                              iteration, rows, columns, mul, dotDiv, resize,
                              toJSON, fromJSON),
    - [norm.ts]             (norm, vectorNorm, matrixNorm),
    - [utils/array.ts]      (arraySize, validate, validateIndex, resize,
                              reshape, squeeze, unsqueeze, flatten,
                              identify, generalize, getArrayDataType),
    - [utils/object.ts]     (clone),
    - [error/*.ts]          (the error classes).

    JavaScript exceptions are values of type [error]; a call that may throw
    returns a [result].  The two methods that assign to the private fields
    of their receiver return its new state: [set] as its result (it assigns
    nothing when it throws), [resize] next to its outcome, so that the state
    left behind by a throwing call can be read off.

    Three traits of JavaScript arrays show in the code and are kept.  An
    array can have empty slots: an index loop reads [undefined] there, while
    [Array.prototype.map] and [forEach] pass them over ([Hole]).  An array
    cannot be given a length above 2^32 - 1: the assignment to [length]
    throws a [RangeError], in [_resize] possibly after outer arrays have
    been resized.  And an array is an object: the nested arrays of
    [MultidimArray] are its value, and the module [Shared] has the arrays in
    a store, for [get] and [set], where it matters which arrays are one and
    the same. *)

From Stdlib Require Import String.
From Stdlib Require Import List ZArith QArith Bool Lia.
From Stdlib Require DecimalString.
Import ListNotations.
Local Open Scope Z_scope.

Set Warnings "-register-all".

Set Implicit Arguments.

(** ** Errors and results *)

(** The error classes of [error/]: [ArithmeticError] (a [TypeError] subclass
    carrying [expectedArithmetic]), [DimensionError(actual, expected,
    relation)], [IndexError(index, max)], [InternalError(message)],
    [NotImplementedError(what)], the built-in [TypeError] and [Error] thrown
    with a message, [NativeTypeError] for a [TypeError] raised by the
    engine itself (reading a property of [undefined], calling something that
    is not a function), and [RangeError] for the one that the engine raises
    when an array is given a length that no array can have; the argument of
    the last two names the offending expression, the engine's own message is
    not modelled.  [Unmodelled] is
    not an error of the program: it marks a run that hands an array to an
    operation of the scalar algebra, which the interfaces say nothing
    about. *)
Inductive error : Type :=
| TypeError (message : string)
| NativeTypeError (expression : string)
| DimensionError (actual : Z) (expected : option Z) (relation : string)
| IndexError (index : Z) (max : Z)
| ArithmeticError (expectedArithmetic : string)
| InternalError (message : string)
| NotImplementedError (what : string)
| PlainError (message : string)
| RangeError (expression : string)
| Unmodelled (what : string).

(** [this.message] as set by the constructors of [ArithmeticError],
    [InternalError] and [NotImplementedError]. *)
Definition error_message (e : error) : string :=
  match e with
  | ArithmeticError expectedArithmetic =>
      String.append "Unsupported type of arithmetic, expected " expectedArithmetic
  | InternalError message =>
      String.append message
        ". This is not a mistake on your part, something went wrong in a 3rd party code."
  | NotImplementedError what =>
      String.append (String.append what " is not implemented yet")
        ". This is not a mistake on your part, something went wrong in a 3rd party code."
  | TypeError message => message
  | PlainError message => message
  | _ => EmptyString
  end.

Inductive result (A : Type) : Type :=
| Ok (a : A)
| Err (e : error).
Arguments Ok {A} a.
Arguments Err {A} e.

Definition bind {A B : Type} (r : result A) (k : A -> result B) : result B :=
  match r with
  | Ok a => k a
  | Err e => Err e
  end.

Notation "x <- r ;; k" := (bind r (fun x => k))
  (at level 61, r at next level, right associativity).
Notation "r ;;; k" := (bind r (fun _ => k))
  (at level 61, right associativity).

Definition is_ok {A : Type} (r : result A) : bool :=
  match r with Ok _ => true | Err _ => false end.

(** A JavaScript [number] used as a norm kind or as an exponent: a finite
    value or one of the two infinities. *)
Inductive jsNumber : Type :=
| Finite (q : Q)
| POSITIVE_INFINITY
| NEGATIVE_INFINITY.

(** The norm kinds that [vectorNorm] and [matrixNorm] take:
    [number | '-inf' | 'inf']. *)
Inductive pKind : Type :=
| p_inf
| p_neg_inf
| p_number (n : jsNumber).

(** [pValue = number | '-inf' | 'inf' | 'fro'], plus the omitted argument. *)
Inductive pValue : Type :=
| p_undefined
| p_fro
| p_kind (p : pKind).

(** ** The scalar algebra capability set

    The interfaces [Ring], [DivisionRing], [NormedDivisionRing] and [Real] of
    the package [@m93a/arithmetic-types] as one record of operations.  An
    operation can be handed anything a slot holds ([S], which includes
    [undefined]) and returns a scalar of the algebra ([V]); the three
    booleans are the tags
    [A[symbols.DivisionRing] === true], [A[symbols.NormedDivisionRing] ===
    true] and [A[symbols.Real] === true] that the code tests before it uses
    an operation of the corresponding interface. *)
Module A.
Record Arithmetics (S V : Type) : Type := {
  symbols_DivisionRing : bool;
  symbols_NormedDivisionRing : bool;
  symbols_Real : bool;
  zero : V;
  add : S -> S -> V;
  sub : S -> S -> V;
  neg : S -> V;
  mul : S -> S -> V;
  div : S -> S -> V;
  norm : S -> V;
  pow : S -> jsNumber -> V;
  gt : S -> S -> bool;
  lt : S -> S -> bool;
  fromNumber : jsNumber -> V
}.
End A.

(** ** Scalars and nested arrays *)

(** [Num] are the primitive numbers, [Obj] the scalar objects of an
    arithmetic type. *)
Class ScalarTypes : Type := {
  Num : Type;
  Obj : Type
}.

Section Values.

Context `{ScalarTypes}.

(** The scalars proper, and what a slot of a nested array can hold besides
    an array: a scalar or [undefined].  Reading an array outside its bounds
    yields [Undefined]. *)
Inductive Value : Type :=
| Number (n : Num)
| Object (o : Obj).

Inductive Scalar : Type :=
| Undefined
| Def (v : Value).

Definition Arithmetics : Type := A.Arithmetics Scalar Value.

(** [MultidimArray<R> = R[] | MultidimArray<R>[]], together with what a
    slot holds where the nesting stops: a scalar (or [undefined]), or
    nothing.  [Hole] is the empty slot of a sparse array (the middle of
    [[1, , 3]]; what [a.length = n] and [a[i] = v] beyond the end leave
    behind).  It occurs as an element of an array only; reading it gives
    [undefined], so the loops that count through the indices treat it as a
    slot that holds [undefined], while [Array.prototype.map] and [forEach]
    pass it over. *)
Inductive MultidimArray : Type :=
| Leaf (s : Scalar)
| Arr (xs : list MultidimArray)
| Hole.

(** Induction over nested arrays, with the hypothesis for every element. *)
Fixpoint MultidimArray_nested_ind (P : MultidimArray -> Prop)
    (HLeaf : forall s, P (Leaf s))
    (HArr : forall xs, Forall P xs -> P (Arr xs))
    (HHole : P Hole)
    (x : MultidimArray) {struct x} : P x :=
  match x with
  | Leaf s => HLeaf s
  | Arr xs =>
      HArr xs
        ((fix all (l : list MultidimArray) : Forall P l :=
            match l with
            | [] => Forall_nil P
            | y :: l' =>
                Forall_cons y (MultidimArray_nested_ind HLeaf HArr HHole y)
                  (all l')
            end) xs)
  | Hole => HHole
  end.

End Values.

Coercion Def : Value >-> Scalar.

(** What the class takes from its surroundings: [NumberArithmetics] of
    [utils/numberArithmetic], the property [el[symbols.Arithmetics]] of a
    scalar object, the method [clone()] of a scalar object, the literal [0],
    [typeOf] of a scalar object, and [format] of [utils/string] on a size
    list (the last three only show in error messages and in the default fill
    value of [resize]). *)
Class Host `{ScalarTypes} : Type := {
  NumberArithmetics : Arithmetics;
  symbols_Arithmetics : Obj -> Arithmetics;
  object_clone : Obj -> Obj;
  number_0 : Num;
  object_typeOf : Obj -> string;
  format : list Z -> string
}.

Section Tensor.

Context `{Host}.

Definition isArray (x : MultidimArray) : bool :=
  match x with Arr _ => true | Leaf _ | Hole => false end.

(** What reading a slot gives: [undefined] for an empty slot.  It is what
    is stored when the value read is assigned to a slot again. *)
Definition read (x : MultidimArray) : MultidimArray :=
  match x with Hole => Leaf Undefined | _ => x end.

(** [xs[i]] for a number [i]: the slot at [i] (which reads as [undefined]
    when it is empty), [undefined] out of range. *)
Definition js_get (xs : list MultidimArray) (i : Z) : MultidimArray :=
  if i <? 0 then Leaf Undefined
  else nth (Z.to_nat i) xs (Leaf Undefined).

(** [xs[i] = v]: replaces the element, or extends the array (the slots in
    between stay empty); a negative [i] names a property that is not an
    element. *)
Definition js_set (xs : list MultidimArray) (i : Z) (v : MultidimArray)
  : list MultidimArray :=
  if i <? 0 then xs
  else
    let n := Z.to_nat i in
    firstn n xs ++ repeat Hole (n - List.length xs)%nat ++ v :: skipn (S n) xs.

Definition js_length (xs : list MultidimArray) : Z := Z.of_nat (length xs).

(** *** utils/array.ts *)

(** [arraySize]: the lengths met along the first entries. *)
Fixpoint arraySize (x : MultidimArray) : list Z :=
  match x with
  | Leaf _ | Hole => []
  | Arr xs =>
      js_length xs ::
      match xs with
      | [] => []
      | x0 :: _ => arraySize x0
      end
  end.

Definition Z_eq_opt (a : Z) (b : option Z) : bool :=
  match b with
  | Some b => a =? b
  | None => false
  end.

(** [_validate(array, size, dim)].  Its parameter has type [any[]] and
    both callers pass an array; the other cases are there for totality and
    are not reached.  The loops count through the indices, so an empty slot
    is a child that is not an array. *)
Fixpoint _validate (array : MultidimArray) (size : list Z) (dim : nat)
    {struct array} : result unit :=
  match array with
  | Leaf _ | Hole => Err (NativeTypeError "array.length")
  | Arr xs =>
      let len := js_length xs in
      if negb (Z_eq_opt len (nth_error size dim))
      then Err (DimensionError len (nth_error size dim) "!=")
      else if Z.of_nat dim <? Z.of_nat (length size) - 1
      then
        (fix children (l : list MultidimArray) : result unit :=
           match l with
           | [] => Ok tt
           | child :: rest =>
               match child with
               | Leaf _ | Hole =>
                   Err (DimensionError (Z.of_nat (length size) - 1)
                          (Some (Z.of_nat (length size))) "<")
               | Arr _ => _validate child size (S dim) ;;; children rest
               end
           end) xs
      else
        (fix children (l : list MultidimArray) : result unit :=
           match l with
           | [] => Ok tt
           | child :: rest =>
               if isArray child
               then Err (DimensionError (Z.of_nat (length size) + 1)
                           (Some (Z.of_nat (length size))) ">")
               else children rest
           end) xs
  end.

(** [validate(array, size)]. *)
Definition validate (array : MultidimArray) (size : list Z) : result unit :=
  match size with
  | [] =>
      match array with
      | Arr xs => Err (DimensionError (js_length xs) (Some 0) "!=")
      | Leaf _ | Hole => Ok tt
      end
  | _ :: _ => _validate array size 0
  end.

(** [validateIndex(index, length)]; indices are integers here, so the
    [TypeError] for a non-integer index has no input. *)
Definition validateIndex (index : Z) (length : Z) : result unit :=
  if (index <? 0) || (index >=? length)
  then Err (IndexError index length)
  else Ok tt.


(** The loop [while (Array.isArray(el)) el = el[0]]. *)
Fixpoint first_entry (el : MultidimArray) : Scalar :=
  match el with
  | Leaf s => s
  | Hole => Undefined
  | Arr [] => Undefined
  | Arr (el0 :: _) => first_entry el0
  end.

(** The largest length an array can have.  [array.length = newLen] throws
    a [RangeError] for any other [newLen].  (The lists that stand for arrays
    here are not bounded in length; a list that is longer stands for no
    array, and assigning it the length it has is taken to change nothing.)
    The bound is the language's; an engine that runs out of memory below it
    is not modelled. *)
Definition max_array_length : Z := 2 ^ 32 - 1.

Definition length_refused (array : list MultidimArray) (newLen : Z) : bool :=
  ((newLen <? 0) || (max_array_length <? newLen)) &&
  negb (newLen =? js_length array).

(** A loop over the slots of [todo] whose body works on one slot and may
    throw: the slots as the loop leaves them, and the error if the body
    threw.  A throw ends the loop; the slots behind it are left as they
    were. *)
Definition loop_slots (body : MultidimArray -> MultidimArray * option error)
  : list MultidimArray -> list MultidimArray * option error :=
  fix go (todo : list MultidimArray) : list MultidimArray * option error :=
    match todo with
    | [] => ([], None)
    | x :: todo' =>
        match body x with
        | (x', Some e) => (x' :: todo', Some e)
        | (x', None) => let '(done, e) := go todo' in (x' :: done, e)
        end
    end.

(** [_resize(array, size, dim, defaultValue)]: the array as the call
    leaves it (it is changed in place), and the error if the call threw.
    The recursion follows [size] from position [dim] on: [sizes] is
    [size.slice(dim)], its head is [size[dim]], and [dim < size.length - 1]
    says that its tail is not empty.  [array.length = newLen] keeps the
    first [minLen] slots and adds empty ones up to [newLen]; the first loop
    of each branch then runs over the slots kept, the second over the slots
    added.  In the last dimension a slot kept is assigned to only if it holds
    an array, so an empty slot stays empty. *)
Fixpoint _resize (array : list MultidimArray) (sizes : list Z)
    (defaultValue : Scalar) {struct sizes}
  : list MultidimArray * option error :=
  match sizes with
  | [] => (array, None)
  | newLen :: rest =>
      let oldLen := js_length array in
      let minLen := Z.min oldLen newLen in
      if length_refused array newLen
      then (array, Some (RangeError "array.length = newLen"))
      else
        let kept := firstn (Z.to_nat minLen) array in
        let added := repeat Hole (Z.to_nat (newLen - minLen)) in
        match rest with
        | _ :: _ =>
            match
              loop_slots
                (fun elem =>
                   let '(c, e) :=
                     match elem with
                     | Arr c => _resize c rest defaultValue
                     | Leaf _ | Hole => _resize [read elem] rest defaultValue
                     end in
                   (Arr c, e))
                kept
            with
            | (kept', Some e) => (kept' ++ added, Some e)
            | (kept', None) =>
                let '(added', e) :=
                  loop_slots
                    (fun _ =>
                       let '(c, e) := _resize [] rest defaultValue in
                       (Arr c, e))
                    added in
                (kept' ++ added', e)
            end
        | [] =>
            (map (fun elem =>
                    match elem with
                    | Arr _ => Leaf (first_entry elem)
                    | Leaf _ | Hole => elem
                    end)
                 kept
             ++ repeat (Leaf defaultValue) (Z.to_nat (newLen - minLen)),
             None)
        end
  end.

(** [resize(array, size, defaultValue)] of [utils/array.ts]: the array as
    the call leaves it, and the array returned (the same one) or the error
    thrown.  [size] is an array of integers here, so of the test
    [!isNumber(value) || !isInteger(value) || value < 0] the last part
    decides. *)
Definition array_resize (array : MultidimArray) (size : list Z)
    (defaultValue : Scalar) : MultidimArray * result MultidimArray :=
  match array with
  | Leaf _ | Hole => (array, Err (TypeError "Array expected"))
  | Arr xs =>
      if (length size =? 0)%nat
      then (array, Err (PlainError "Resizing to scalar is not supported"))
      else if existsb (fun value => value <? 0) size
      then (array,
            Err (TypeError
                   (String.append "Invalid size, must contain positive integers (size: "
                      (String.append (format size) ")"))))
      else
        let _defaultValue :=
          match defaultValue with
          | Undefined => Def (Number number_0)
          | _ => defaultValue
          end in
        match _resize xs size _defaultValue with
        | (xs', None) => (Arr xs', Ok (Arr xs'))
        | (xs', Some e) => (Arr xs', Err e)
        end
  end.

(** *** utils/object.ts: [clone] on nested arrays of scalars; an array is
    cloned with [x.map(value => clone(value))], which leaves an empty slot
    empty. *)
Definition clone_scalar (x : Scalar) : Scalar :=
  match x with
  | Undefined => Undefined
  | Def (Number n) => Number n
  | Def (Object o) => Object (object_clone o)
  end.

Fixpoint clone (x : MultidimArray) : MultidimArray :=
  match x with
  | Leaf s => Leaf (clone_scalar s)
  | Arr xs => Arr (map clone xs)
  | Hole => Hole
  end.

(** ** class DenseMatrix *)

(** The private fields [#data], [#size], [#datatype] and the public
    [scalarArithmetics]. *)
Record DenseMatrix : Type := {
  _data : MultidimArray;
  _size : list Z;
  _datatype : option string;
  scalarArithmetics : Arithmetics
}.

(** [get size()] returns a copy of [#size]. *)
Definition size (m : DenseMatrix) : list Z := _size m.

(** An object with the fields [{ mathjs, data, size, datatype }] of the
    serialized form; its [size] is a list, so of the tests of
    [isSerializedDenseMatrix] those on [mathjs] and [data] remain. *)
Record SerializedDenseMatrix : Type := {
  mathjs : string;
  data : MultidimArray;
  json_size : list Z;
  datatype : option string
}.

Definition isSerializedDenseMatrix (x : SerializedDenseMatrix) : bool :=
  String.eqb (mathjs x) "DenseMatrix" && isArray (data x).

(** [preprocess]: nested arrays are rebuilt entry by entry.  An entry is
    an array, a scalar or an empty slot here, so the branch that replaces an
    embedded [DenseMatrix] by its [valueOf()] has no input (and
    [isDenseMatrix] would not let an instance in, see below). *)
Fixpoint preprocess (x : MultidimArray) : MultidimArray :=
  match x with
  | Leaf s => Leaf s
  | Arr xs =>
      Arr (map (fun elem => if isArray elem then preprocess elem else elem) xs)
  | Hole => Hole
  end.

Definition typeOf (s : Scalar) : string :=
  match s with
  | Undefined => "undefined"
  | Def (Number _) => "number"
  | Def (Object o) => object_typeOf o
  end.

Definition orElse (a b : option string) : option string :=
  match a with Some _ => a | None => b end.

(** "Find scalar arithmetic": [el = this.#data[0]], the loop, and the
    test on [typeof el]. *)
Definition find_scalar_arithmetic (d : MultidimArray)
  : result Arithmetics :=
  let el :=
    match d with
    | Arr xs => first_entry (js_get xs 0)
    | Leaf _ | Hole => Undefined
    end in
  match el with
  | Def (Number _) => Ok NumberArithmetics
  | Def (Object o) => Ok (symbols_Arithmetics o)
  | Undefined => Err (NativeTypeError "el[symbols.Arithmetics]")
  end.

(** *** Element access *)

(** The first loop of [get]: [validateIndex(index[x], this.#size[x])]. *)
Fixpoint check_index (index : list Z) (sz : list Z) : result unit :=
  match index, sz with
  | i :: index', n :: sz' => validateIndex i n ;;; check_index index' sz'
  | _, _ => Ok tt
  end.

(** The second loop of [get] and the test after it.  An empty slot is
    read as [undefined]. *)
Fixpoint walk (d : MultidimArray) (index : list Z) : result Scalar :=
  match index with
  | [] =>
      match d with
      | Arr _ => Err (InternalError "Expected scalar.")
      | Leaf s => Ok s
      | Hole => Ok Undefined
      end
  | indexI :: index' =>
      match d with
      | Leaf _ | Hole => Err (InternalError "Expected array.")
      | Arr xs =>
          validateIndex indexI (js_length xs) ;;;
          walk (js_get xs indexI) index'
      end
  end.

(** [get(index)]. *)
Definition get (m : DenseMatrix) (index : list Z) : result Scalar :=
  if negb (length index =? length (_size m))%nat
  then Err (DimensionError (Z.of_nat (length index))
              (Some (Z.of_nat (length (_size m)))) "!=")
  else check_index index (_size m) ;;; walk (_data m) index.

(** *** The constructor *)

(** The indices [0 <= i < n] of a counting loop. *)
Definition upto (n : Z) : list Z := map Z.of_nat (seq 0 (Z.to_nat n)).

(** Running a loop body that may throw over a list. *)
Fixpoint for_each {X Y : Type} (f : X -> result Y) (l : list X)
  : result (list Y) :=
  match l with
  | [] => Ok []
  | x :: l' => y <- f x ;; ys <- for_each f l' ;; Ok (y :: ys)
  end.

(** Modelled from the spec: [mapToMultidimArray] of [utils/tensor] is not
    part of the sources at hand.  The constructor builds its data "from a
    generic tensor-like source object that exposes its own shape and
    elements (each element deep-copied in)": the nested array of the shape
    that the source reports whose entry at every index is the callback's
    value for the element that the source has there. *)
Fixpoint mapToMultidimArray_at (m : DenseMatrix) (callback : Scalar -> Scalar)
    (sz index : list Z) : result MultidimArray :=
  match sz with
  | [] => s <- get m index ;; Ok (Leaf (callback s))
  | n :: sz' =>
      xs <- for_each
              (fun i => mapToMultidimArray_at m callback sz' (index ++ [i]))
              (upto n) ;;
      Ok (Arr xs)
  end.

Definition mapToMultidimArray (m : DenseMatrix) (callback : Scalar -> Scalar)
  : result MultidimArray :=
  mapToMultidimArray_at m callback (size m) [].

(** What the constructor can be given: a nested array or a scalar value, an
    instance of the class, or an object with the fields of a serialized
    form.

    The test [isDenseMatrix(x)] asks for [x[symbols.Tensor]], and the class
    declares that member [static]: an instance has no such property, the
    test fails on every instance, and the branch behind it (which would copy
    [#data], [size] and [#datatype]) is not taken.  Nor has an instance a
    field [mathjs].  An instance is a tensor, though (the class implements
    [TensorInstance], with [this[symbols.Arithmetics] = DenseMatrix] and the
    static [DenseMatrix.size]); [isTensor] belongs to the package
    [@m93a/arithmetic-types] and is taken to say so.  An instance therefore
    goes through the last branch: its size is read through
    [arithmetics.size(data)], its elements through [mapToMultidimArray], and
    [#datatype] is not assigned. *)
Inductive constructor_data : Type :=
| from_value (x : MultidimArray)
| from_DenseMatrix (m : DenseMatrix)
| from_serialized (json : SerializedDenseMatrix).

(** [new DenseMatrix(data, datatype)]. *)
Definition new_DenseMatrix (d : constructor_data) (dt : option string)
  : result DenseMatrix :=
  fields <-
    match d with
    | from_value (Arr xs) =>
        let d' := preprocess (Arr xs) in
        Ok (d', arraySize d', None)
    | from_serialized json =>
        if isSerializedDenseMatrix json
        then Ok (clone (data json), json_size json, orElse dt (datatype json))
        else Err (TypeError "Unsupported type of data (Object)")
    | from_DenseMatrix m =>
        d' <- mapToMultidimArray m clone_scalar ;;
        Ok (d', size m, None)
    | from_value (Leaf s) =>
        Err (TypeError
               (String.append "Unsupported type of data ("
                  (String.append (typeOf s) ")")))
    | from_value Hole =>
        Err (TypeError "Unsupported type of data (undefined)")
    end ;;
  let '(d', s', dt') := fields in
  arithmetics <- find_scalar_arithmetic d' ;;
  Ok {| _data := d'; _size := s'; _datatype := dt';
        scalarArithmetics := arithmetics |}.

(** [clone()]: [new DenseMatrix(this)]. *)
Definition DenseMatrix_clone (m : DenseMatrix) : result DenseMatrix :=
  new_DenseMatrix (from_DenseMatrix m) None.

(** *** Writing an element *)

(** Modelled from the spec: [retrieveTopArrayByIndex] of [utils/tensor] is
    not part of the sources at hand.  [set] "writes [value] at the computed
    terminal slot": the helper follows all components of [index] but the
    last through the nested arrays and returns the array it reaches, whose
    slot [lastI] the assignment [arr[lastI] = value] of [set] then fills.
    Every step needs an array and an index inside it.  Since the array
    returned is shared with [#data], the assignment shows in [#data];
    [store] returns [#data] after it.

    The nested array is a value here: every occurrence of an array is an
    array of its own.  [Shared.set] below has the arrays as objects; where
    the data is regular and no array occurs twice in it, the two agree
    (lemma [store_as_value]). *)
Fixpoint store (d : MultidimArray) (index : list Z) (value : Scalar)
  : result MultidimArray :=
  match index with
  | [] => Ok d
  | [lastI] =>
      match d with
      | Leaf _ | Hole => Err (InternalError "Expected array.")
      | Arr xs => Ok (Arr (js_set xs lastI (Leaf value)))
      end
  | i :: index' =>
      match d with
      | Leaf _ | Hole => Err (InternalError "Expected array.")
      | Arr xs =>
          validateIndex i (js_length xs) ;;;
          child <- store (js_get xs i) index' value ;;
          Ok (Arr (js_set xs i child))
      end
  end.

Definition with_data (m : DenseMatrix) (d : MultidimArray) : DenseMatrix :=
  {| _data := d; _size := _size m; _datatype := _datatype m;
     scalarArithmetics := scalarArithmetics m |}.

(** [set(index, value)]: the receiver after the call (which is also what
    the call returns), or the error thrown, in which case nothing was
    assigned. *)
Definition set (m : DenseMatrix) (index : list Z) (value : Scalar)
  : result DenseMatrix :=
  if (length index <? length (_size m))%nat
  then Err (DimensionError (Z.of_nat (length index))
              (Some (Z.of_nat (length (_size m)))) "<")
  else
    d <- store (_data m) index value ;;
    Ok (with_data m d).

(** *** map, iteration *)

(** [Array.prototype.map] with a callback that takes the element and its
    position; [js_map_from f l i] maps the elements of [l], the first of
    which has position [i]. *)
Definition js_map_from {X Y : Type} (f : X -> Z -> Y) : list X -> Z -> list Y :=
  fix go (l : list X) (i : Z) : list Y :=
    match l with
    | [] => []
    | x :: l' => f x i :: go l' (i + 1)
    end.

Definition js_map {X Y : Type} (f : X -> Z -> Y) (l : list X) : list Y :=
  js_map_from f l 0.

(** [recurse] of [map]: the callback receives the value and its index.
    [value.map(...)] does not call its function for an empty slot and leaves
    the slot empty in the array it returns. *)
Fixpoint map_recurse (callback : Scalar -> list Z -> Scalar)
    (value : MultidimArray) (index : list Z) : MultidimArray :=
  match value with
  | Leaf s => Leaf (callback s index)
  | Arr xs =>
      Arr (js_map (fun child i => map_recurse callback child (index ++ [i])) xs)
  | Hole => Hole
  end.

(** [map(callback)]. *)
Definition DenseMatrix_map (m : DenseMatrix)
    (callback : Scalar -> list Z -> Scalar) : result DenseMatrix :=
  new_DenseMatrix (from_value (map_recurse callback (_data m) [])) None.

(** [[Symbol.iterator]]: the pairs [{ value, index }] in the order they
    are yielded.  The generator counts through the indices of an array, so
    an empty slot is yielded as [undefined]. *)
Fixpoint iterate (value : MultidimArray) (index : list Z)
  : list (Scalar * list Z) :=
  match value with
  | Leaf s => [(s, index)]
  | Arr xs =>
      concat (js_map (fun child i => iterate child (index ++ [i])) xs)
  | Hole => [(Undefined, index)]
  end.

Definition iterator (m : DenseMatrix) : list (Scalar * list Z) :=
  iterate (_data m) [].

(** [forEach(callback)].  The callback returns nothing and is called for
    what it does: it is a function that takes the state it works on, the
    value and the index, and returns the state it leaves.  [forEach_recurse]
    is [recurse]; the inner loop is [value.forEach((child, i) => ...)],
    which does not call its function for an empty slot. *)
Fixpoint forEach_recurse {St : Type} (callback : St -> Scalar -> list Z -> St)
    (value : MultidimArray) (index : list Z) (st : St) : St :=
  match value with
  | Leaf s => callback st s index
  | Arr xs =>
      (fix loop (l : list MultidimArray) (i : Z) (st : St) : St :=
         match l with
         | [] => st
         | child :: l' =>
             loop l' (i + 1) (forEach_recurse callback child (index ++ [i]) st)
         end) xs 0 st
  | Hole => st
  end.

Definition DenseMatrix_forEach {St : Type} (m : DenseMatrix)
    (callback : St -> Scalar -> list Z -> St) (st : St) : St :=
  forEach_recurse callback (_data m) [] st.

(** [rows()].  [for (const row of data)] reads an empty slot as
    [undefined]. *)
Definition rows (m : DenseMatrix) : result (list DenseMatrix) :=
  if negb (length (size m) =? 2)%nat
  then Err (TypeError "Rows can only be returned for a 2D matrix.")
  else
    match _data m with
    | Leaf _ | Hole => Err (NativeTypeError "data is not iterable")
    | Arr xs =>
        for_each
          (fun row => new_DenseMatrix (from_value (Arr [read row])) None) xs
    end.

(** [row[i]] where [row] is what reading an entry of [#data] gives. *)
Definition entry_get (row : MultidimArray) (i : Z) : result MultidimArray :=
  match row with
  | Arr r => Ok (js_get r i)
  | Leaf Undefined | Hole => Err (NativeTypeError "row[i]")
  | Leaf _ => Ok (Leaf Undefined)
  end.

(** [columns()].  [data.map(row => [row[i]])] passes over an empty slot of
    [data] and leaves it empty in the column. *)
Definition columns (m : DenseMatrix) : result (list DenseMatrix) :=
  let s := size m in
  if negb (length s =? 2)%nat
  then Err (TypeError "Rows can only be returned for a 2D matrix.")
  else
    match _data m with
    | Leaf _ | Hole => Err (NativeTypeError "data.map")
    | Arr xs =>
        for_each
          (fun i =>
             col <- for_each
                      (fun row =>
                         match row with
                         | Hole => Ok Hole
                         | _ => x <- entry_get row i ;; Ok (Arr [read x])
                         end)
                      xs ;;
             new_DenseMatrix (from_value (Arr col)) None)
          (upto (nth 1 s 0))
    end.

(** *** Matrix product *)

(** [x.length] for an entry [x] of a nested array: [undefined] (here
    [None]) on a scalar that is not [undefined]. *)
Definition entry_length (x : MultidimArray) : result (option Z) :=
  match x with
  | Arr r => Ok (Some (js_length r))
  | Leaf Undefined | Hole => Err (NativeTypeError "x.length")
  | Leaf _ => Ok None
  end.

Definition as_scalar (x : MultidimArray) : result Scalar :=
  match x with
  | Leaf s => Ok s
  | Hole => Ok Undefined
  | Arr _ => Err (Unmodelled "array passed to the scalar arithmetics")
  end.

(** [a[i][k]] as an argument of the scalar arithmetics. *)
Definition entry2 (a : list MultidimArray) (i k : Z) : result Scalar :=
  x <- entry_get (js_get a i) k ;; as_scalar x.

Definition upto_opt (n : option Z) : list Z :=
  match n with Some n => upto n | None => [] end.

(** The loop over [k] of [mul], from the value [r] on. *)
Fixpoint mul_inner (S : Arithmetics) (a b : list MultidimArray)
    (i j : Z) (ks : list Z) (r : Value) : result Value :=
  match ks with
  | [] => Ok r
  | k :: ks' =>
      x <- entry2 a i k ;;
      y <- entry2 b k j ;;
      mul_inner S a b i j ks' (A.add S r (A.mul S x y))
  end.

(** [mul(m)]. *)
Definition mul (this m : DenseMatrix) : result DenseMatrix :=
  if negb (length (_size this) =? 2)%nat
  then Err (DimensionError (Z.of_nat (length (_size this))) (Some 2) "!=")
  else if negb (length (_size m) =? 2)%nat
  then Err (DimensionError (Z.of_nat (length (_size m))) (Some 2) "!=")
  else
    let S := scalarArithmetics this in
    match _data this, _data m with
    | Arr a, Arr b =>
        let A := js_length a in
        B <- entry_length (js_get a 0) ;;
        C <- entry_length (js_get b 0) ;;
        if negb (Z_eq_opt (js_length b) B)
        then Err (DimensionError (js_length b) B "!=")
        else
          c <- for_each
                 (fun i =>
                    ci <- for_each
                            (fun j =>
                               r <- mul_inner S a b i j (upto_opt B) (A.zero S) ;;
                               Ok (Leaf (Def r)))
                            (upto_opt C) ;;
                    Ok (Arr ci))
                 (upto A) ;;
          new_DenseMatrix (from_value (Arr c)) None
    | _, _ => Err (NativeTypeError "a[0].length")
    end.

(** *** Pointwise operations *)

(** [static dotDiv(a, b)]. *)
Definition dotDiv (a : DenseMatrix) (b : Scalar) : result DenseMatrix :=
  let A := scalarArithmetics a in
  if negb (A.symbols_DivisionRing A)
  then Err (ArithmeticError "DivisionRing")
  else DenseMatrix_map a (fun el _ => Def (A.div A el b)).

(** *** resize *)

Definition with_size (m : DenseMatrix) (s : list Z) : DenseMatrix :=
  {| _data := _data m; _size := s; _datatype := _datatype m;
     scalarArithmetics := scalarArithmetics m |}.

(** The two assignments of [resize] on [matrix]: its state after them and
    the outcome.  When the array-level [resize] throws, [#data] is not
    assigned, but it is the array that the interrupted call worked on. *)
Definition resize_assign (matrix : DenseMatrix) (sz : list Z)
    (defaultValue : Scalar) : DenseMatrix * result DenseMatrix :=
  let matrix1 := with_size matrix sz in
  match array_resize (_data matrix1) (_size matrix1) defaultValue with
  | (d, Err e) => (with_data matrix1 d, Err e)
  | (_, Ok d) => (with_data matrix1 d, Ok (with_data matrix1 d))
  end.

(** [resize(size, defaultValue, copy)]: the receiver after the call, and
    the matrix returned or the error thrown. *)
Definition resize (this : DenseMatrix) (sz : list Z) (defaultValue : Scalar)
    (copy : bool) : DenseMatrix * result DenseMatrix :=
  if copy
  then
    match DenseMatrix_clone this with
    | Err e => (this, Err e)
    | Ok matrix => (this, snd (resize_assign matrix sz defaultValue))
    end
  else resize_assign this sz defaultValue.

(** *** Serialization *)

Definition toJSON (m : DenseMatrix) : SerializedDenseMatrix :=
  {| mathjs := "DenseMatrix"; data := _data m; json_size := _size m;
     datatype := _datatype m |}.

Definition fromJSON (json : SerializedDenseMatrix) : result DenseMatrix :=
  if negb (isSerializedDenseMatrix json)
  then Err (TypeError "The object is not a serialized DenseMatrix.")
  else new_DenseMatrix (from_serialized json) None.

(** ** norm.ts *)

Definition values (m : DenseMatrix) : list Scalar := map fst (iterator m).

(** The scans of [vectorNorm] over the values yielded, from [r] on. *)
Definition max_scan (A : Arithmetics) (vs : list Scalar) (r : Value)
  : Value :=
  fold_left (fun (r : Value) value => let x := A.norm A value in
                                      if A.gt A x r then x else r) vs r.

Definition min_scan (A : Arithmetics) (vs : list Scalar) (r : Value)
  : Value :=
  fold_left (fun (r : Value) value => let x := A.norm A value in
                                      if A.lt A x r then x else r) vs r.

Definition pow_sum (A : Arithmetics) (p : jsNumber)
    (vs : list Scalar) (r : Value) : Value :=
  fold_left (fun (r : Value) value => A.add A r (A.pow A (A.norm A value) p))
    vs r.

(** [vectorNorm(v, p)]. *)
Definition vectorNorm (v : DenseMatrix) (p : pKind) : result Value :=
  let A := scalarArithmetics v in
  match p with
  | p_number POSITIVE_INFINITY
  | p_inf =>
      if negb (A.symbols_Real A) then Err (ArithmeticError "Real")
      else Ok (max_scan A (values v) (A.zero A))
  | p_number NEGATIVE_INFINITY
  | p_neg_inf =>
      if negb (A.symbols_Real A) then Err (ArithmeticError "Real")
      else Ok (min_scan A (values v) (A.zero A))
  | p_number (Finite p) =>
      if negb (A.symbols_NormedDivisionRing A)
      then Err (ArithmeticError "NormedDivisionRing")
      else if Qeq_bool p 0
      then Ok (A.fromNumber A POSITIVE_INFINITY)
      else
        let r := pow_sum A (Finite p) (values v) (A.zero A) in
        Ok (A.pow A r (Finite (/ p)))
  end.

(** [x.reduce(f)] where [x] is a [DenseMatrix].  The class declares the
    members [size], [datatype], [clone], [get], [set], [map], [forEach],
    the iterator, [rows], [columns], [toArray], [valueOf], [scale], [neg],
    [add], [sub], [norm], [normSq], [mul], [resize], [format], [toString]
    and [toJSON], and extends no class: [x.reduce] is [undefined], and
    calling it throws. *)
Definition DenseMatrix_reduce (x : DenseMatrix)
    (f : Scalar -> Scalar -> Value) : result Value :=
  Err (NativeTypeError "col.map(...).reduce is not a function").

(** The body of the loops of [matrixNorm] over the columns (or rows),
    which are [DenseMatrix] objects, from the value [r] on. *)
Fixpoint sum_scan (A : Arithmetics) (cols : list DenseMatrix)
    (r : Value) : result Value :=
  match cols with
  | [] => Ok r
  | col :: cols' =>
      mapped <- DenseMatrix_map col (fun value _ => Def (A.norm A value)) ;;
      colSum <- DenseMatrix_reduce mapped (A.add A) ;;
      sum_scan A cols' (if A.gt A colSum r then colSum else r)
  end.

(** [matrixNorm(M, p)]. *)
Definition matrixNorm (M : DenseMatrix) (p : pKind) : result Value :=
  let A := scalarArithmetics M in
  let not_implemented := Err (NotImplementedError "L^p norm for square matrices") in
  match p with
  | p_number (Finite q) =>
      if Qeq_bool q 1
      then
        if negb (A.symbols_Real A) then Err (ArithmeticError "Real")
        else cols <- columns M ;; sum_scan A cols (A.zero A)
      else not_implemented
  | p_number POSITIVE_INFINITY
  | p_inf =>
      if negb (A.symbols_Real A) then Err (ArithmeticError "Real")
      else rs <- rows M ;; sum_scan A rs (A.zero A)
  | p_neg_inf =>
      Err (TypeError "L^-inf norm is not defined for square matrices")
  | p_number NEGATIVE_INFINITY => not_implemented
  end.

(** [norm(M, p)]. *)
Definition norm (M : DenseMatrix) (p : pValue) : result Value :=
  match p with
  | p_fro
  | p_undefined =>
      let A := scalarArithmetics M in
      if negb (A.symbols_NormedDivisionRing A)
      then Err (ArithmeticError "NormedDivisionRing")
      else
        let r := pow_sum A (Finite 2) (values M) (A.zero A) in
        Ok (A.pow A r (Finite (1 # 2)))
  | p_kind p =>
      match length (size M) with
      | 1%nat => vectorNorm M p
      | 2%nat => matrixNorm M p
      | n => Err (DimensionError (Z.of_nat n) (Some 2) ">")
      end
  end.

(** ** Vocabulary of the statements *)

(** [has_shape size x]: every array at depth [i] of [x] has length
    [size[i]], and the slots that hold no array (a scalar, [undefined] or
    nothing) sit exactly at depth [length size]. *)
Fixpoint has_shape (sz : list Z) (x : MultidimArray) : bool :=
  match sz, x with
  | [], (Leaf _ | Hole) => true
  | n :: sz', Arr xs => (js_length xs =? n) && forallb (has_shape sz') xs
  | _, _ => false
  end.

(** The lengths of the arrays found at nesting depth [depth] of [x]. *)
Fixpoint lengths_at (depth : nat) (x : MultidimArray) : list Z :=
  match depth, x with
  | _, (Leaf _ | Hole) => []
  | O, Arr xs => [js_length xs]
  | S depth', Arr xs => flat_map (lengths_at depth') xs
  end.

(** Two arrays at the same nesting depth have different lengths. *)
Definition inhomogeneous (x : MultidimArray) : Prop :=
  exists depth n m,
    In n (lengths_at depth x) /\ In m (lengths_at depth x) /\ n <> m.

(** An index for a tensor of size [sz]: as many components as [sz] has
    entries, each one non-negative and below the entry. *)
Definition valid_index (sz index : list Z) : Prop :=
  Forall2 (fun i n => 0 <= i < n) index sz.

(** All the leaves are primitive numbers. *)
Fixpoint plain_numbers (x : MultidimArray) : bool :=
  match x with
  | Leaf (Def (Number _)) => true
  | Leaf _ | Hole => false
  | Arr xs => forallb plain_numbers xs
  end.

(** No slot is empty. *)
Fixpoint dense (x : MultidimArray) : bool :=
  match x with
  | Leaf _ => true
  | Hole => false
  | Arr xs => forallb dense xs
  end.

(** The first-entry chain ends in an empty slot. *)
Fixpoint first_is_hole (x : MultidimArray) : bool :=
  match x with
  | Leaf _ => false
  | Hole => true
  | Arr [] => false
  | Arr (x0 :: _) => first_is_hole x0
  end.

(** What reading the slots gives, in the order of the indices: the values
    that the iteration yields. *)
Fixpoint leaves (x : MultidimArray) : list Scalar :=
  match x with
  | Leaf s => [s]
  | Hole => [Undefined]
  | Arr xs => flat_map leaves xs
  end.

(** The array with [undefined] stored in every slot that was empty. *)
Fixpoint filled (x : MultidimArray) : MultidimArray :=
  match x with
  | Leaf s => Leaf s
  | Hole => Leaf Undefined
  | Arr xs => Arr (map filled xs)
  end.

(** What [_resize] makes of an array when no length is refused (lemma
    [_resize_resized]), written without the bookkeeping of the interrupted
    run. *)
Fixpoint resized (array : list MultidimArray) (sizes : list Z)
    (defaultValue : Scalar) {struct sizes} : list MultidimArray :=
  match sizes with
  | [] => array
  | newLen :: rest =>
      let minLen := Z.min (js_length array) newLen in
      match rest with
      | _ :: _ =>
          map (fun elem =>
                 match elem with
                 | Arr c => Arr (resized c rest defaultValue)
                 | Leaf _ | Hole => Arr (resized [read elem] rest defaultValue)
                 end)
              (firstn (Z.to_nat minLen) array)
          ++ repeat (Arr (resized [] rest defaultValue))
               (Z.to_nat (newLen - minLen))
      | [] =>
          map (fun elem =>
                 match elem with
                 | Arr _ => Leaf (first_entry elem)
                 | Leaf _ | Hole => elem
                 end)
              (firstn (Z.to_nat minLen) array)
          ++ repeat (Leaf defaultValue) (Z.to_nat (newLen - minLen))
      end
  end.

(** A tensor whose data is valid for its size in the sense of [validate],
    of rank at least one and with no dimension of length zero: what the
    constructor yields on a nested array without irregularities (lemma
    [new_DenseMatrix_well_formed]), and what [set] at a valid index keeps. *)
Definition well_formed (m : DenseMatrix) : Prop :=
  validate (_data m) (_size m) = Ok tt /\
  _size m <> [] /\
  Forall (fun n => 0 < n) (_size m).

(** The element of [m] at [index], [undefined] where [get] throws. *)
Definition element (m : DenseMatrix) (index : list Z) : Scalar :=
  match get m index with
  | Ok s => s
  | Err _ => Undefined
  end.

(** [zero + a[i][0] * b[0][j] + ... + a[i][B-1] * b[B-1][j]] in the algebra
    [S], summed from the left. *)
Definition dot (S : Arithmetics) (a b : DenseMatrix) (i j B : Z) : Value :=
  fold_left
    (fun (r : Value) k =>
       A.add S r (A.mul S (element a [i; k]) (element b [k; j])))
    (upto B) (A.zero S).

(** ** More of the class: the operations built on [map] *)

(** [Array.prototype.map] with a callback that may throw: the elements are
    mapped in order, and the first throw ends the call. *)
Definition js_map_from_throwing {X Y : Type} (f : X -> Z -> result Y)
  : list X -> Z -> result (list Y) :=
  fix go (l : list X) (i : Z) : result (list Y) :=
    match l with
    | [] => Ok []
    | x :: l' => y <- f x i ;; ys <- go l' (i + 1) ;; Ok (y :: ys)
    end.

(** [recurse] of [map] for a callback that may throw. *)
Fixpoint map_recurse_throwing (callback : Scalar -> list Z -> result Scalar)
    (value : MultidimArray) (index : list Z) : result MultidimArray :=
  match value with
  | Leaf s => r <- callback s index ;; Ok (Leaf r)
  | Arr xs =>
      ys <- js_map_from_throwing
              (fun child i => map_recurse_throwing callback child (index ++ [i]))
              xs 0 ;;
      Ok (Arr ys)
  | Hole => Ok Hole
  end.

(** [map(callback)] for a callback that may throw. *)
Definition DenseMatrix_map_throwing (m : DenseMatrix)
    (callback : Scalar -> list Z -> result Scalar) : result DenseMatrix :=
  d <- map_recurse_throwing callback (_data m) [] ;;
  new_DenseMatrix (from_value d) None.

(** [scale(s)], [neg()], [add(m)], [sub(m)]. *)
Definition scale (this : DenseMatrix) (s : Scalar) : result DenseMatrix :=
  DenseMatrix_map this (fun x _ => Def (A.mul (scalarArithmetics this) s x)).

Definition neg (this : DenseMatrix) : result DenseMatrix :=
  DenseMatrix_map this (fun x _ => Def (A.neg (scalarArithmetics this) x)).

Definition add (this m : DenseMatrix) : result DenseMatrix :=
  DenseMatrix_map_throwing this
    (fun x index =>
       y <- get m index ;; Ok (Def (A.add (scalarArithmetics this) x y))).

Definition sub (this m : DenseMatrix) : result DenseMatrix :=
  DenseMatrix_map_throwing this
    (fun x index =>
       y <- get m index ;; Ok (Def (A.sub (scalarArithmetics this) x y))).

(** [static dotAdd(a, b)], [dotSub], [dotMul]. *)
Definition dotAdd (a : DenseMatrix) (b : Scalar) : result DenseMatrix :=
  DenseMatrix_map a (fun el _ => Def (A.add (scalarArithmetics a) el b)).

Definition dotSub (a : DenseMatrix) (b : Scalar) : result DenseMatrix :=
  DenseMatrix_map a (fun el _ => Def (A.sub (scalarArithmetics a) el b)).

Definition dotMul (a : DenseMatrix) (b : Scalar) : result DenseMatrix :=
  DenseMatrix_map a (fun el _ => Def (A.mul (scalarArithmetics a) el b)).

(** ** More of utils/array.ts *)

(** [flatten(array)]: [callback] is the function passed to [forEach],
    which does not call it for an empty slot: what [callback] pushes to
    [flat] for one element of an array. *)
Fixpoint flatten_callback (value : MultidimArray) : list Scalar :=
  match value with
  | Arr xs => flat_map flatten_callback xs
  | Leaf s => [s]
  | Hole => []
  end.

Definition flatten (array : MultidimArray) : MultidimArray :=
  match array with
  | Leaf _ | Hole => array
  | Arr xs => Arr (map Leaf (flat_map flatten_callback xs))
  end.

(** [product(array)]. *)
Definition product (array : list Z) : Z :=
  fold_left (fun prev curr => prev * curr) array 1.

(** The string that [+] makes of an integer. *)
Definition number_to_string (z : Z) : string :=
  DecimalString.NilZero.string_of_int (Z.to_int z).

(** [sizes.indexOf(item, fromIndex)] for [fromIndex >= 0]; [None] is [-1]. *)
Fixpoint indexOf_from (sizes : list Z) (item : Z) (fromIndex : nat)
  : option nat :=
  match sizes, fromIndex with
  | [], _ => None
  | x :: rest, O =>
      if x =? item then Some O
      else option_map S (indexOf_from rest item O)
  | _ :: rest, S k => option_map S (indexOf_from rest item k)
  end.

(** [processedSizes[index] = value] for an index inside the array. *)
Fixpoint replace_at {X : Type} (l : list X) (index : nat) (value : X) : list X :=
  match l, index with
  | [], _ => []
  | _ :: rest, O => value :: rest
  | x :: rest, S k => x :: replace_at rest k value
  end.

(** [processSizesWildcard(sizes, currentLength)].  [currentLength %
    newLength === 0] is false when [newLength] is [0] (the remainder is
    [NaN]); the quotient is only taken when the remainder is [0]. *)
Definition processSizesWildcard (sizes : list Z) (currentLength : Z)
  : result (list Z) :=
  let newLength := product sizes in
  let WILDCARD := -1 in
  let wildCardIndex := indexOf_from sizes WILDCARD 0 in
  let isMoreThanOneWildcard :=
    match wildCardIndex with
    | Some w =>
        match indexOf_from sizes WILDCARD (w + 1) with
        | Some _ => true
        | None => false
        end
    | None => false
    end in
  if isMoreThanOneWildcard
  then Err (PlainError "More than one wildcard in sizes")
  else
    let canReplaceWildcard :=
      negb (newLength =? 0) && (Z.rem currentLength newLength =? 0) in
    match wildCardIndex with
    | Some w =>
        if canReplaceWildcard
        then Ok (replace_at sizes w (Z.quot (- currentLength) newLength))
        else Err (PlainError
                    (String.append "Could not replace wildcard, since "
                       (String.append (number_to_string currentLength)
                          (String.append " is no multiple of "
                             (number_to_string (- newLength))))))
    | None => Ok sizes
    end.

(** [tmpArray.slice(start, end)] for [0 <= start <= end]. *)
Definition js_slice (l : list MultidimArray) (first last : Z)
  : list MultidimArray :=
  firstn (Z.to_nat (last - first)) (skipn (Z.to_nat first) l).

(** How often the inner loop of [_reshape] runs: the number of [i >= 0]
    with [i < length / size].  For [size = 0] and a non-empty array the
    bound is [Infinity] and the loop does not end ([None]). *)
Definition chunk_count (length size : Z) : option Z :=
  if 0 <? size then Some ((length + size - 1) / size)
  else if size <? 0 then Some 0
  else if length =? 0 then Some 0
  else None.

(** One turn of the outer loop of [_reshape]. *)
Definition chunk (tmpArray : list MultidimArray) (size : Z)
  : result (list MultidimArray) :=
  match chunk_count (js_length tmpArray) size with
  | Some count =>
      Ok (map (fun i => Arr (js_slice tmpArray (i * size) ((i + 1) * size)))
            (upto count))
  | None => Err (Unmodelled "the loop of _reshape does not end")
  end.

(** [_reshape(array, sizes)]: the sizes are taken from the last one down to
    the second. *)
Definition _reshape (array : list MultidimArray) (sizes : list Z)
  : result (list MultidimArray) :=
  fold_left (fun tmpArray size => t <- tmpArray ;; chunk t size)
    (rev (tl sizes)) (Ok array).

(** [reshape(array, sizes)].  ([_reshape] throws no [DimensionError], so the
    handler around its call has nothing to catch.) *)
Definition reshape (array : MultidimArray) (sizes : list Z)
  : result MultidimArray :=
  match array with
  | Leaf Undefined | Hole => Err (NativeTypeError "flatArray.length")
  | Leaf _ => Err (TypeError "Array expected")
  | Arr xs =>
      let flatArray := map Leaf (flat_map flatten_callback xs) in
      let currentLength := js_length flatArray in
      if (length sizes =? 0)%nat
      then Err (DimensionError 0 (Some currentLength) "!=")
      else
        sizes' <- processSizesWildcard sizes currentLength ;;
        let newLength := product sizes' in
        if negb (currentLength =? newLength)
        then Err (DimensionError newLength (Some currentLength) "!=")
        else r <- _reshape flatArray sizes' ;; Ok (Arr r)
  end.

(** The first loop of [squeeze]: [while (Array.isArray(array) &&
    array.length === 1) { array = array[0]; s.shift() }]. *)
Fixpoint squeeze_outer (array : MultidimArray) (s : list Z)
  : MultidimArray * list Z :=
  match array with
  | Arr [Hole] => (Leaf Undefined, tl s)
  | Arr [x] => squeeze_outer x (tl s)
  | _ => (array, s)
  end.

(** The second loop: [while (s[dims - 1] === 1) dims--]. *)
Fixpoint squeeze_dims (s : list Z) (dims : nat) : nat :=
  match dims with
  | O => O
  | S d => if nth d s 0 =? 1 then squeeze_dims s d else dims
  end.

(** [_squeeze(array, dims, dim)]; the recursion is on [dims - dim], here
    [todo].  The loop assigns to every index, so what it returns for an
    empty slot is stored there. *)
Fixpoint _squeeze (array : MultidimArray) (todo : nat) : result MultidimArray :=
  match todo with
  | O => Ok (Leaf (first_entry array))
  | S todo' =>
      match array with
      | Arr xs => ys <- for_each (fun x => _squeeze x todo') xs ;; Ok (Arr ys)
      | Leaf Undefined | Hole => Err (NativeTypeError "array.length")
      | Leaf _ => Ok array
      end
  end.

(** [squeeze(array, size)]: the array returned and the size list as the
    call leaves it. *)
Definition squeeze (array : MultidimArray) (size : option (list Z))
  : result (MultidimArray * list Z) :=
  let s := match size with Some s => s | None => arraySize array end in
  let '(array1, s1) := squeeze_outer array s in
  let dims := squeeze_dims s1 (length s1) in
  if (dims <? length s1)%nat
  then array2 <- _squeeze array1 dims ;; Ok (array2, firstn dims s1)
  else Ok (array1, s1).

(** [array = [array]], [n] times. *)
Fixpoint wrap (n : nat) (array : MultidimArray) : MultidimArray :=
  match n with
  | O => array
  | S n' => wrap n' (Arr [array])
  end.

(** [_unsqueeze(array, dims, dim)].  The loop assigns to every index, so
    an empty slot is filled with what is made of the [undefined] read
    there. *)
Fixpoint _unsqueeze (array : MultidimArray) (dims dim : Z) : MultidimArray :=
  match array with
  | Arr xs => Arr (map (fun x => _unsqueeze x dims (dim + 1)) xs)
  | Leaf _ | Hole => wrap (Z.to_nat (dims - dim)) (read array)
  end.

(** [unsqueeze(array, dims, outer, size)]: the array returned and the size
    list as the call leaves it. *)
Definition unsqueeze (array : MultidimArray) (dims outer : Z)
    (size : option (list Z)) : MultidimArray * list Z :=
  let s := match size with Some s => s | None => arraySize array end in
  let array1 := wrap (Z.to_nat outer) (read array) in
  let s1 := repeat 1 (Z.to_nat outer) ++ s in
  (_unsqueeze array1 dims 0,
   s1 ++ repeat 1 (Z.to_nat dims - length s1)).

(** [getArrayDataType(array, typeOf)] with the [typeOf] of [utils/is];
    [None] is [undefined].  The loop carries [i === 0], [length] and [type].
    (The function is called on arrays; on a scalar its loop has nothing to
    run over.) *)
Fixpoint getArrayDataType (array : MultidimArray) : option string :=
  match array with
  | Leaf _ | Hole => None
  | Arr xs =>
      (fix loop (l : list MultidimArray) (first : bool) (length : Z)
           (type : option string) : option string :=
         match l with
         | [] => type
         | item :: rest =>
             let item_length :=
               match item with Arr ys => js_length ys | Leaf _ | Hole => 0 end in
             let length' :=
               if first && isArray item then item_length else length in
             if isArray item && negb (item_length =? length')
             then None
             else
               let itemType :=
                 match item with
                 | Arr _ => getArrayDataType item
                 | Leaf s => Some (typeOf s)
                 | Hole => Some (typeOf Undefined)
                 end in
               match type with
               | None => loop rest false length' itemType
               | Some t =>
                   match itemType with
                   | Some it =>
                       if String.eqb t it then loop rest false length' type
                       else Some "mixed"%string
                   | None => Some "mixed"%string
                   end
               end
         end) xs true 0 None
  end.

(** [get datatype()]: the tensor with [#datatype] as the getter leaves it,
    and the value returned. *)
Definition get_datatype (m : DenseMatrix) : DenseMatrix * option string :=
  let dt :=
    match _datatype m with
    | Some t => Some t
    | None => getArrayDataType (_data m)
    end in
  ({| _data := _data m; _size := _size m; _datatype := dt;
      scalarArithmetics := scalarArithmetics m |}, dt).

(** All the leaves are scalars: no slot holds [undefined] or is empty. *)
Fixpoint defined_leaves (x : MultidimArray) : bool :=
  match x with
  | Leaf (Def _) => true
  | Leaf Undefined | Hole => false
  | Arr xs => forallb defined_leaves xs
  end.

(** The tensor that the constructor makes of an array with a first scalar
    (lemma [new_DenseMatrix_constructed]). *)
Definition constructed (xs : list MultidimArray) : DenseMatrix :=
  {| _data := Arr xs; _size := arraySize (Arr xs); _datatype := None;
     scalarArithmetics :=
       match find_scalar_arithmetic (Arr xs) with
       | Ok arithmetics => arithmetics
       | Err _ => NumberArithmetics
       end |}.

End Tensor.

(** ** Arrays as objects

    A JavaScript array is an object.  The constructor keeps the arrays that
    it is given ([preprocess] returns its argument) and [set] assigns into
    one of them, so when an array occurs twice in the data of a tensor, as
    in [new DenseMatrix([r, r])], a write through one occurrence shows at
    the other.  The nested arrays of [MultidimArray] are values: they tell
    what every slot holds, but not which arrays are one and the same
    object.  The definitions of this module keep that apart: the arrays
    live in a store, a slot of an array holds a scalar, the address of an
    array, or nothing, and [get] and [set] work on the store. *)
Module Shared.

Section Store.

Context `{ScalarTypes}.

Definition address : Type := nat.

Inductive slot : Type :=
| Scalar_slot (s : Scalar)
| Array_slot (a : address)
| Empty_slot.

(** The array objects, by address. *)
Definition arrays : Type := list (list slot).

Definition lookup (h : arrays) (a : address) : option (list slot) :=
  nth_error h a.

(** [xs[i]] and [xs[i] = v] on the slots of an array, as [js_get] and
    [js_set] on values. *)
Definition slot_get (xs : list slot) (i : Z) : slot :=
  if i <? 0 then Empty_slot else nth (Z.to_nat i) xs Empty_slot.

Definition slot_set (xs : list slot) (i : Z) (v : slot) : list slot :=
  if i <? 0 then xs
  else
    let n := Z.to_nat i in
    firstn n xs ++ repeat Empty_slot (n - length xs)%nat ++ v :: skipn (S n) xs.

(** The store after the array at [a] has become [xs]. *)
Fixpoint assign (h : arrays) (a : address) (xs : list slot) : arrays :=
  match h, a with
  | [], _ => []
  | _ :: h', O => xs :: h'
  | ys :: h', S a' => ys :: assign h' a' xs
  end.

(** The fields of a tensor that [get] and [set] use: [#data], which is
    the address of an array, and [#size]. *)
Record DenseMatrix : Type := {
  _data : address;
  _size : list Z
}.

(** The second loop of [get] and the test after it. *)
Fixpoint walk (h : arrays) (d : slot) (index : list Z) : result Scalar :=
  match index with
  | [] =>
      match d with
      | Array_slot _ => Err (InternalError "Expected scalar.")
      | Scalar_slot s => Ok s
      | Empty_slot => Ok Undefined
      end
  | indexI :: index' =>
      match d with
      | Scalar_slot _ | Empty_slot => Err (InternalError "Expected array.")
      | Array_slot a =>
          match lookup h a with
          | Some xs =>
              validateIndex indexI (Z.of_nat (length xs)) ;;;
              walk h (slot_get xs indexI) index'
          | None => Err (Unmodelled "no array at this address")
          end
      end
  end.

(** [get(index)]. *)
Definition get (h : arrays) (m : DenseMatrix) (index : list Z)
  : result Scalar :=
  if negb (length index =? length (_size m))%nat
  then Err (DimensionError (Z.of_nat (length index))
              (Some (Z.of_nat (length (_size m)))) "!=")
  else check_index index (_size m) ;;; walk h (Array_slot (_data m)) index.

(** Modelled from the spec: [retrieveTopArrayByIndex] of [utils/tensor] is
    not part of the sources at hand.  [set] "writes [value] at the computed
    terminal slot": the helper follows all components of [index] but the
    last through the nested arrays and returns the array that it reaches
    (here: its address).  Every step needs an array and an index inside
    it. *)
Fixpoint retrieveTopArrayByIndex (h : arrays) (a : address) (index : list Z)
  : result address :=
  match index with
  | [] | [_] => Ok a
  | i :: index' =>
      match lookup h a with
      | Some xs =>
          validateIndex i (Z.of_nat (length xs)) ;;;
          match slot_get xs i with
          | Array_slot a' => retrieveTopArrayByIndex h a' index'
          | Scalar_slot _ | Empty_slot => Err (InternalError "Expected array.")
          end
      | None => Err (Unmodelled "no array at this address")
      end
  end.

(** [set(index, value)]: the store after [arr[lastI] = value], or the error
    thrown, in which case nothing was assigned.  (With no index component
    at all, [lastI] is [undefined] and the assignment makes a property that
    is not an element.) *)
Definition set (h : arrays) (m : DenseMatrix) (index : list Z)
    (value : Scalar) : result arrays :=
  if (length index <? length (_size m))%nat
  then Err (DimensionError (Z.of_nat (length index))
              (Some (Z.of_nat (length (_size m)))) "<")
  else
    arr <- retrieveTopArrayByIndex h (_data m) index ;;
    match index with
    | [] => Ok h
    | _ :: _ =>
        let lastI := last index 0 in
        match lookup h arr with
        | Some xs => Ok (assign h arr (slot_set xs lastI (Scalar_slot value)))
        | None => Err (Unmodelled "no array at this address")
        end
    end.

(** *** Vocabulary *)

(** The nested array, as a value, that is read from a slot through
    [depth] levels of arrays. *)
Fixpoint value_of (h : arrays) (depth : nat) (s : slot) : MultidimArray :=
  match s with
  | Scalar_slot v => Leaf v
  | Empty_slot => Hole
  | Array_slot a =>
      match depth with
      | O => Arr []
      | S depth' =>
          match lookup h a with
          | Some xs => Arr (map (value_of h depth') xs)
          | None => Arr []
          end
      end
  end.

Fixpoint collect {X : Type} (l : list (option X)) : option (list X) :=
  match l with
  | [] => Some []
  | o :: l' =>
      match o, collect l' with
      | Some x, Some xs => Some (x :: xs)
      | _, _ => None
      end
  end.

(** The addresses of the arrays that are met when data of shape [sz] is
    read from the slot [s], each as often as it is met; [None] when what is
    there is not data of shape [sz].  The data is regular when there is
    such a list, and no array is shared when the list has no address
    twice. *)
Fixpoint footprint (h : arrays) (sz : list Z) (s : slot)
  : option (list address) :=
  match sz with
  | [] =>
      match s with
      | Array_slot _ => None
      | Scalar_slot _ | Empty_slot => Some []
      end
  | n :: sz' =>
      match s with
      | Array_slot a =>
          match lookup h a with
          | Some xs =>
              if Z.of_nat (length xs) =? n
              then
                match collect (map (footprint h sz') xs) with
                | Some below => Some (a :: concat below)
                | None => None
                end
              else None
          | None => None
          end
      | Scalar_slot _ | Empty_slot => None
      end
  end.

End Store.

End Shared.

(** [identify(a)] and [generalize(a)] on an array of values compared by
    [===] ([strict_eq]); an object [{ value, identifier }] is a pair. *)
Definition identify {X : Type} (strict_eq : X -> X -> bool) (a : list X)
  : list (X * Z) :=
  match a with
  | [] => []
  | a0 :: rest =>
      (a0, 0) ::
      (fix loop (l : list X) (previous : X) (count : Z) : list (X * Z) :=
         match l with
         | [] => []
         | ai :: l' =>
             let count' := if strict_eq ai previous then count + 1 else 0 in
             (ai, count') :: loop l' ai count'
         end) rest a0 0
  end.

Definition generalize {X : Type} (a : list (X * Z)) : list X :=
  map (fun ai => fst ai) a.

(** ** Plain numbers *)

(** The numbers followed here are the integers and [NaN]; no other value of
    a double shows up when integers are added, multiplied, negated,
    compared, or have their magnitude taken (sizes staying below 2^53). *)
Inductive num : Type :=
| Int (z : Z)
| NaN.

(** Tensors of plain numbers: the scalars are numbers, there are no scalar
    objects. *)
Definition number_types : ScalarTypes := {| Num := num; Obj := Empty_set |}.

Section PlainNumbers.

#[local] Existing Instance number_types.

(** [ToNumber] on what a slot can hold: [undefined] becomes [NaN]. *)
Definition to_num (s : Scalar) : num :=
  match s with
  | Def (Number n) => n
  | _ => NaN
  end.

Definition num_op2 (f : Z -> Z -> Z) (a b : Scalar) : Value :=
  match to_num a, to_num b with
  | Int x, Int y => Number (Int (f x y))
  | _, _ => Number NaN
  end.

Definition num_op1 (f : Z -> Z) (a : Scalar) : Value :=
  match to_num a with
  | Int x => Number (Int (f x))
  | NaN => Number NaN
  end.

Definition num_cmp (f : Z -> Z -> bool) (a b : Scalar) : bool :=
  match to_num a, to_num b with
  | Int x, Int y => f x y
  | _, _ => false
  end.

(** Division, powers and the lifting of a literal produce numbers that are
    not integers; they are left open. *)
Variable number_div : Scalar -> Scalar -> Value.
Variable number_pow : Scalar -> jsNumber -> Value.
Variable number_fromNumber : jsNumber -> Value.
Variable number_format : list Z -> string.

(** Modelled from the spec: [NumberArithmetics] of [utils/numberArithmetic]
    is not part of the sources at hand.  It is "the default numeric algebra
    (implementing all four capabilities)": the arithmetic of numbers, the
    magnitude [norm] as the absolute value, and [gt], [lt] as [>], [<]
    (which are false when an operand is [NaN]). *)
Definition Number_Arithmetics : Arithmetics := {|
  A.symbols_DivisionRing := true;
  A.symbols_NormedDivisionRing := true;
  A.symbols_Real := true;
  A.zero := Number (Int 0);
  A.add := num_op2 Z.add;
  A.sub := num_op2 Z.sub;
  A.neg := num_op1 Z.opp;
  A.mul := num_op2 Z.mul;
  A.div := number_div;
  A.norm := num_op1 Z.abs;
  A.pow := number_pow;
  A.gt := num_cmp Z.gtb;
  A.lt := num_cmp Z.ltb;
  A.fromNumber := number_fromNumber
|}.

Definition number_host : Host := {|
  NumberArithmetics := Number_Arithmetics;
  symbols_Arithmetics := fun o : Empty_set => match o with end;
  object_clone := fun o : Empty_set => o;
  number_0 := Int 0;
  object_typeOf := fun _ : Empty_set => "Object"%string;
  format := number_format
|}.

(** The nested array literal of integers, one and two levels deep. *)
Definition vec (l : list Z) : MultidimArray :=
  Arr (map (fun z => Leaf (Def (Number (Int z)))) l).

Definition mat (l : list (list Z)) : MultidimArray := Arr (map vec l).

End PlainNumbers.

(** The host used to run the model on examples: the operations left open
    above return [NaN], and [format] returns the empty string. *)
Definition example_host : @Host number_types :=
  number_host
    (fun _ _ => @Number number_types NaN)
    (fun _ _ => @Number number_types NaN)
    (fun _ => @Number number_types NaN)
    (fun _ => EmptyString).

(** The arithmetic of [example_host] with its capability tags removed but
    for [Ring]: an algebra that implements [Ring] only. *)
Definition ring_only : @Arithmetics number_types :=
  let N := @NumberArithmetics number_types example_host in
  {| A.symbols_DivisionRing := false;
     A.symbols_NormedDivisionRing := false;
     A.symbols_Real := false;
     A.zero := A.zero N; A.add := A.add N; A.sub := A.sub N;
     A.neg := A.neg N; A.mul := A.mul N; A.div := A.div N;
     A.norm := A.norm N; A.pow := A.pow N; A.gt := A.gt N; A.lt := A.lt N;
     A.fromNumber := A.fromNumber N |}.

(** The tensors of the examples: [[1, -2], [-3, 4]], the identity of size
    two, [[1, 0, 5]], and the vector [3, -4]; [over S d sz] is the tensor
    with data [d], size [sz] and scalar arithmetic [S]. *)
Definition over (S : @Arithmetics number_types) (d : @MultidimArray number_types)
    (sz : list Z) : @DenseMatrix number_types :=
  {| _data := d; _size := sz; _datatype := None; scalarArithmetics := S |}.

Definition example_matrix : @DenseMatrix number_types :=
  over (@NumberArithmetics number_types example_host)
    (mat [[1; -2]; [-3; 4]]) [2; 2].

Definition example_identity : @DenseMatrix number_types :=
  over (@NumberArithmetics number_types example_host)
    (mat [[1; 0]; [0; 1]]) [2; 2].

Definition example_row : @DenseMatrix number_types :=
  over (@NumberArithmetics number_types example_host)
    (mat [[1; 0; 5]]) [1; 3].

Definition example_vector : @DenseMatrix number_types :=
  over (@NumberArithmetics number_types example_host) (vec [3; -4]) [2].

Definition example_ring_matrix : @DenseMatrix number_types :=
  over ring_only (mat [[1; -2]; [-3; 4]]) [2; 2].

(** Stores of array objects; the array at address 0 is the data of a
    tensor.  [separate_rows] is what [[[1, -2], [-3, 4]]] leaves,
    [shared_rows] what [r = [1, 2]; [r, r]] leaves (both slots of the outer
    array hold the one array [r]), and [irregular_rows] what [[[1, 2], []]]
    leaves.  [stored a sz] is the tensor with data at [a] and size [sz]. *)
Definition number_slot (z : Z) : @Shared.slot number_types :=
  Shared.Scalar_slot (Def (@Number number_types (Int z))).

Definition separate_rows : @Shared.arrays number_types :=
  [ [Shared.Array_slot 1%nat; Shared.Array_slot 2%nat];
    [number_slot 1; number_slot (-2)];
    [number_slot (-3); number_slot 4] ].

Definition shared_rows : @Shared.arrays number_types :=
  [ [Shared.Array_slot 1%nat; Shared.Array_slot 1%nat];
    [number_slot 1; number_slot 2] ].

Definition irregular_rows : @Shared.arrays number_types :=
  [ [Shared.Array_slot 1%nat; Shared.Array_slot 2%nat];
    [number_slot 1; number_slot 2];
    [] ].

Definition stored (a : Shared.address) (sz : list Z) : Shared.DenseMatrix :=
  {| Shared._data := a; Shared._size := sz |}.

(** * Properties *)

Unset Implicit Arguments.

Section TensorFacts.

Context `{Host}.

(** ** Results *)

Lemma bind_Ok {X Y : Type} (r : result X) (k : X -> result Y) (y : Y) :
  bind r k = Ok y -> exists x, r = Ok x /\ k x = Ok y.
Proof.
  destruct r as [x | e]; simpl; intros E; [eauto | discriminate].
Qed.

Lemma for_each_map {X Y : Type} (f : X -> result Y) (g : X -> Y) (l : list X) :
  (forall x, In x l -> f x = Ok (g x)) -> for_each f l = Ok (map g l).
Proof.
  induction l as [| x l IH]; intros Hf; simpl; [reflexivity |].
  rewrite (Hf x (or_introl eq_refl)); simpl.
  rewrite IH by (intros y Hy; apply Hf; right; exact Hy).
  reflexivity.
Qed.

(** ** Nested arrays *)

Lemma preprocess_id (x : MultidimArray) : preprocess x = x.
Proof.
  induction x as [s | xs IH |] using MultidimArray_nested_ind; simpl.
  - reflexivity.
  - f_equal. induction IH as [| y ys Hy _ IHys]; simpl; [reflexivity |].
    rewrite IHys. destruct (isArray y); [rewrite Hy |]; reflexivity.
  - reflexivity.
Qed.

Lemma first_entry_js_get (xs : list MultidimArray) :
  first_entry (js_get xs 0) = first_entry (Arr xs).
Proof.
  destruct xs as [| x xs]; reflexivity.
Qed.

Lemma arraySize_positive (x : MultidimArray) (v : Value) :
  first_entry x = Def v -> Forall (fun n => 0 < n) (arraySize x).
Proof.
  induction x as [s | xs IH |] using MultidimArray_nested_ind; simpl; intros E.
  - constructor.
  - destruct xs as [| x0 xs]; [discriminate |].
    constructor.
    + unfold js_length; simpl; lia.
    + inversion IH; subst; auto.
  - constructor.
Qed.

Lemma find_scalar_arithmetic_Ok (d : MultidimArray) (S : Arithmetics) :
  find_scalar_arithmetic d = Ok S -> exists v, first_entry d = Def v.
Proof.
  unfold find_scalar_arithmetic. destruct d as [s | xs |].
  - discriminate.
  - rewrite first_entry_js_get.
    destruct (first_entry (Arr xs)) as [| v]; [discriminate | eauto].
  - discriminate.
Qed.

Lemma find_scalar_arithmetic_Def (xs : list MultidimArray) (v : Value) :
  first_entry (Arr xs) = Def v ->
  exists S, find_scalar_arithmetic (Arr xs) = Ok S.
Proof.
  unfold find_scalar_arithmetic. rewrite first_entry_js_get. intros ->.
  destruct v; eauto.
Qed.

Lemma first_entry_clone (x : MultidimArray) :
  first_entry (clone x) = clone_scalar (first_entry x).
Proof.
  induction x as [s | xs IH |] using MultidimArray_nested_ind; simpl.
  - reflexivity.
  - destruct xs as [| x0 xs]; simpl; [reflexivity |].
    inversion IH; subst; auto.
  - reflexivity.
Qed.

(** What the constructor stores, by kind of argument. *)
Lemma new_DenseMatrix_Ok (d : constructor_data) (dt : option string)
    (m : DenseMatrix) :
  new_DenseMatrix d dt = Ok m ->
  (exists v, first_entry (_data m) = Def v) /\
  match d with
  | from_value x => isArray x = true /\ _data m = x /\ _size m = arraySize x
  | from_DenseMatrix m0 =>
      mapToMultidimArray m0 clone_scalar = Ok (_data m) /\ _size m = _size m0
  | from_serialized json =>
      _data m = clone (data json) /\ _size m = json_size json
  end.
Proof.
  unfold new_DenseMatrix. intros E.
  apply bind_Ok in E as [[[d' s'] dt'] [E1 E2]].
  apply bind_Ok in E2 as [S [E2 E3]].
  injection E3 as <-. simpl.
  split; [eapply find_scalar_arithmetic_Ok; eassumption |].
  destruct d as [[s | xs |] | m0 | json].
  - discriminate.
  - rewrite preprocess_id in E1. injection E1 as <- <- _. auto.
  - discriminate.
  - apply bind_Ok in E1 as [d0 [E0 E1]]. injection E1 as <- <- _. auto.
  - destruct (isSerializedDenseMatrix json); [| discriminate].
    injection E1 as <- <- _. auto.
Qed.

Lemma new_DenseMatrix_from_array (xs : list MultidimArray) (v : Value)
    (dt : option string) :
  first_entry (Arr xs) = Def v ->
  exists S,
    new_DenseMatrix (from_value (Arr xs)) dt =
    Ok {| _data := Arr xs; _size := arraySize (Arr xs); _datatype := None;
          scalarArithmetics := S |}.
Proof.
  intros E. unfold new_DenseMatrix.
  rewrite preprocess_id. cbn [bind].
  destruct (find_scalar_arithmetic_Def xs v E) as [S ->].
  exists S. reflexivity.
Qed.

(** ** [validate] and shapes *)

Lemma skipn_nth_error (sz : list Z) (dim : nat) :
  (dim < length sz)%nat ->
  exists n, nth_error sz dim = Some n /\ skipn dim sz = n :: skipn (S dim) sz.
Proof.
  revert dim. induction sz as [| n sz IH]; intros dim Hlt; simpl in Hlt.
  - lia.
  - destruct dim as [| dim].
    + exists n. split; reflexivity.
    + destruct (IH dim) as [k [E1 E2]]; [lia |].
      exists k. split; [exact E1 | exact E2].
Qed.

Lemma has_shape_Leaf_cons (sz : list Z) (s : Scalar) :
  sz <> [] -> has_shape sz (Leaf s) = false.
Proof.
  destruct sz; [congruence | reflexivity].
Qed.

Lemma has_shape_Hole_cons (sz : list Z) :
  sz <> [] -> has_shape sz Hole = false.
Proof.
  destruct sz; [congruence | reflexivity].
Qed.

Lemma _validate_has_shape (x : MultidimArray) (sz : list Z) (dim : nat) :
  (dim < length sz)%nat ->
  _validate x sz dim = Ok tt <-> has_shape (skipn dim sz) x = true.
Proof.
  revert dim.
  induction x as [s | xs IH |] using MultidimArray_nested_ind; intros dim Hlt;
    [destruct (skipn_nth_error sz dim Hlt) as [n [_ ->]]; simpl;
     split; discriminate
    |
    | destruct (skipn_nth_error sz dim Hlt) as [n [_ ->]]; simpl;
      split; discriminate].
  - destruct (skipn_nth_error sz dim Hlt) as [n [En ->]].
    cbn [_validate has_shape]. rewrite En. cbn [Z_eq_opt].
    destruct (js_length xs =? n); cbn [negb andb]; [| split; discriminate].
    destruct (Z.of_nat dim <? Z.of_nat (length sz) - 1) eqn:Hlast.
    + apply Z.ltb_lt in Hlast.
      assert (Hlt' : (S dim < length sz)%nat) by lia.
      clear En. induction IH as [| y ys Hy _ IHys]; [simpl; tauto |].
      cbn [forallb]. destruct y as [s | zs |].
      * rewrite has_shape_Leaf_cons.
        -- split; discriminate.
        -- destruct (skipn_nth_error sz (S dim) Hlt') as [k [_ ->]]. discriminate.
      * specialize (Hy (S dim) Hlt').
        destruct (_validate (Arr zs) sz (S dim)) as [[] | e] eqn:Ev.
        -- cbn [bind]. destruct Hy as [Hy _]. rewrite (Hy eq_refl).
           cbn [andb]. exact IHys.
        -- cbn [bind]. split; [discriminate |].
           intros E. apply andb_true_iff in E as [E _].
           apply Hy in E. discriminate.
      * rewrite has_shape_Hole_cons.
        -- split; discriminate.
        -- destruct (skipn_nth_error sz (S dim) Hlt') as [k [_ ->]]. discriminate.
    + apply Z.ltb_ge in Hlast.
      assert (Hnil : skipn (S dim) sz = []) by (apply skipn_all2; lia).
      rewrite Hnil. clear IH En.
      induction xs as [| y ys IHys]; [simpl; tauto |].
      cbn [forallb]. destruct y as [s | zs |]; cbn [isArray has_shape andb].
      * exact IHys.
      * split; discriminate.
      * exact IHys.
Qed.

Lemma validate_has_shape (x : MultidimArray) (sz : list Z) :
  validate x sz = Ok tt <-> has_shape sz x = true.
Proof.
  destruct sz as [| n sz].
  - destruct x; simpl; split; congruence.
  - unfold validate. apply (_validate_has_shape x (n :: sz) 0%nat). simpl; lia.
Qed.

(** [_validate] on an array only ever throws a [DimensionError]. *)
Lemma _validate_error (x : MultidimArray) (sz : list Z) (dim : nat) (e : error) :
  isArray x = true ->
  _validate x sz dim = Err e ->
  exists actual expected relation, e = DimensionError actual expected relation.
Proof.
  revert dim.
  induction x as [s | xs IH |] using MultidimArray_nested_ind; intros dim Harr;
    [discriminate | | discriminate].
  - clear Harr. cbn [_validate].
    destruct (negb (Z_eq_opt (js_length xs) (nth_error sz dim)));
      [intros E; injection E as <-; eauto |].
    destruct (Z.of_nat dim <? Z.of_nat (length sz) - 1).
    + induction IH as [| y ys Hy _ IHys]; [discriminate |].
      destruct y as [s | zs |];
        [intros E; injection E as <-; eauto |
        | intros E; injection E as <-; eauto].
      destruct (_validate (Arr zs) sz (S dim)) as [[] | e'] eqn:Ev; cbn [bind].
      * exact IHys.
      * intros E; injection E as <-. eapply Hy; [reflexivity | exact Ev].
    + clear IH. induction xs as [| y ys IHys]; [discriminate |].
      destruct (isArray y); [intros E; injection E as <-; eauto | exact IHys].
Qed.

(** In an array of shape [sz], all arrays at depth [depth] have length
    [sz[depth]]. *)
Lemma has_shape_lengths (sz : list Z) (x : MultidimArray) (depth : nat) (n : Z) :
  has_shape sz x = true -> In n (lengths_at depth x) ->
  nth_error sz depth = Some n.
Proof.
  revert sz depth.
  induction x as [s | xs IH |] using MultidimArray_nested_ind;
    intros sz depth Hs Hin;
    [destruct depth; contradiction | | destruct depth; contradiction].
  - destruct sz as [| k sz]; [discriminate |].
    cbn [has_shape] in Hs. apply andb_true_iff in Hs as [Hk Hall].
    apply Z.eqb_eq in Hk.
    destruct depth as [| depth]; cbn [lengths_at] in Hin.
    + destruct Hin as [<- | []]. simpl. congruence.
    + apply in_flat_map in Hin as [y [Hy Hn]].
      rewrite Forall_forall in IH. rewrite forallb_forall in Hall.
      simpl. eapply IH; eauto.
Qed.

Lemma inhomogeneous_not_valid (x : MultidimArray) (sz : list Z) :
  inhomogeneous x -> has_shape sz x = false.
Proof.
  intros [depth [n [m [Hn [Hm Hneq]]]]].
  destruct (has_shape sz x) eqn:Hs; [| reflexivity].
  pose proof (has_shape_lengths sz x depth n Hs Hn) as E1.
  pose proof (has_shape_lengths sz x depth m Hs Hm) as E2.
  congruence.
Qed.

(** ** Construction *)

(** C10.  The constructor throws when the first-entry chain of its data ends
    in no scalar (the probe for the scalar arithmetic then reads a property
    of [undefined]); hence a tensor that was constructed, from whatever kind
    of argument, has a scalar at the end of its first-entry chain, and none
    of the arrays along that chain (the leading fibers, whose lengths
    [arraySize] reports) is empty. *)
Theorem constructor_needs_first_leaf (d : constructor_data) (dt : option string) :
  (forall xs, d = from_value (Arr xs) -> first_entry (Arr xs) = Undefined ->
     new_DenseMatrix d dt = Err (NativeTypeError "el[symbols.Arithmetics]")) /\
  (forall m, new_DenseMatrix d dt = Ok m ->
     (exists v, first_entry (_data m) = Def v) /\
     Forall (fun n => 0 < n) (arraySize (_data m))).
Proof.
  split.
  - intros xs -> E. unfold new_DenseMatrix.
    rewrite preprocess_id. cbn [bind].
    unfold find_scalar_arithmetic. rewrite first_entry_js_get, E. reflexivity.
  - intros m E. apply new_DenseMatrix_Ok in E as [[v Hv] _].
    split; [eauto | eapply arraySize_positive; eassumption].
Qed.

(** C2, as the code has it.  The constructor does not compare the lengths of
    sibling arrays: on every nested array whose first-entry chain ends in a
    scalar it succeeds, keeps the data as given and reports the lengths met
    along the first entries as the size.  An irregular array is rejected
    only by a separate call of [validate] with that size, which throws a
    [DimensionError]. *)
Theorem constructor_does_not_validate (xs : list MultidimArray)
    (dt : option string) (v : Value) :
  first_entry (Arr xs) = Def v ->
  (exists m, new_DenseMatrix (from_value (Arr xs)) dt = Ok m /\
             _data m = Arr xs /\ size m = arraySize (Arr xs)) /\
  (inhomogeneous (Arr xs) ->
   exists actual expected relation,
     validate (Arr xs) (arraySize (Arr xs)) =
     Err (DimensionError actual expected relation)).
Proof.
  intros E. split.
  - destruct (new_DenseMatrix_from_array xs v dt E) as [S ES].
    eexists. split; [exact ES |]. split; reflexivity.
  - intros Hinh.
    destruct (validate (Arr xs) (arraySize (Arr xs))) as [[] | e] eqn:Ev.
    + apply validate_has_shape in Ev.
      rewrite (inhomogeneous_not_valid _ _ Hinh) in Ev. discriminate.
    + cbn [arraySize validate] in Ev.
      destruct (_validate_error (Arr xs) _ _ e eq_refl Ev) as [a [ex [r ->]]].
      eauto.
Qed.

(** A nested array that is valid for its own [arraySize] and has a first
    scalar is constructed into a well-formed tensor. *)
Lemma new_DenseMatrix_well_formed (x : MultidimArray) (dt : option string)
    (m : DenseMatrix) :
  new_DenseMatrix (from_value x) dt = Ok m ->
  validate x (arraySize x) = Ok tt ->
  well_formed m.
Proof.
  intros E Hv. apply new_DenseMatrix_Ok in E as [[v Hfirst] [Harr [Hd Hs]]].
  unfold well_formed. rewrite Hd, Hs.
  split; [exact Hv |]. split.
  - destruct x; [discriminate | simpl; discriminate | discriminate].
  - rewrite Hd in Hfirst. eapply arraySize_positive; eassumption.
Qed.

(** ** Reading and writing slots *)

Lemma validateIndex_Ok (i n : Z) : 0 <= i < n -> validateIndex i n = Ok tt.
Proof.
  intros Hi. unfold validateIndex.
  destruct (i <? 0) eqn:E1; [apply Z.ltb_lt in E1; lia |].
  destruct (i >=? n) eqn:E2; [| reflexivity].
  rewrite Z.geb_le in E2. lia.
Qed.

Lemma js_set_in_range (xs : list MultidimArray) (i : Z) (v : MultidimArray) :
  0 <= i < js_length xs ->
  js_set xs i v = firstn (Z.to_nat i) xs ++ v :: skipn (S (Z.to_nat i)) xs.
Proof.
  unfold js_set, js_length. intros Hi.
  destruct (i <? 0) eqn:E; [apply Z.ltb_lt in E; lia |].
  cbv zeta.
  replace (Z.to_nat i - length xs)%nat with 0%nat by lia.
  reflexivity.
Qed.

Lemma nth_update_same {X : Type} (xs : list X) (n : nat) (v d : X) :
  (n < length xs)%nat ->
  nth n (firstn n xs ++ v :: skipn (S n) xs) d = v.
Proof.
  revert n. induction xs as [| x xs IH]; intros n Hn; simpl in Hn; [lia |].
  destruct n as [| n]; [reflexivity |].
  simpl. apply IH. lia.
Qed.

Lemma nth_update_other {X : Type} (xs : list X) (n k : nat) (v d : X) :
  (n < length xs)%nat -> k <> n ->
  nth k (firstn n xs ++ v :: skipn (S n) xs) d = nth k xs d.
Proof.
  revert n k. induction xs as [| x xs IH]; intros n k Hn Hk; simpl in Hn; [lia |].
  destruct n as [| n]; destruct k as [| k]; simpl; try reflexivity; try lia.
  apply IH; lia.
Qed.

Lemma length_update {X : Type} (xs : list X) (n : nat) (v : X) :
  (n < length xs)%nat ->
  length (firstn n xs ++ v :: skipn (S n) xs) = length xs.
Proof.
  revert n. induction xs as [| x xs IH]; intros n Hn; simpl in Hn; [lia |].
  destruct n as [| n]; [reflexivity |].
  simpl. f_equal. apply IH. lia.
Qed.

Lemma forallb_update (P : MultidimArray -> bool) (xs : list MultidimArray)
    (n : nat) (v : MultidimArray) :
  forallb P xs = true -> P v = true -> (n < length xs)%nat ->
  forallb P (firstn n xs ++ v :: skipn (S n) xs) = true.
Proof.
  intros Hxs Hv. revert n.
  induction xs as [| x xs IH]; intros n Hn; simpl in Hn; [lia |].
  cbn [forallb] in Hxs. apply andb_true_iff in Hxs as [Hx Hxs].
  destruct n as [| n]; simpl.
  - rewrite Hv, Hxs. reflexivity.
  - rewrite Hx. apply IH; [exact Hxs | lia].
Qed.

Lemma js_get_js_set_same (xs : list MultidimArray) (i : Z) (v : MultidimArray) :
  0 <= i < js_length xs -> js_get (js_set xs i v) i = v.
Proof.
  intros Hi. rewrite js_set_in_range by exact Hi.
  unfold js_get, js_length in *.
  destruct (i <? 0) eqn:E; [apply Z.ltb_lt in E; lia |].
  apply nth_update_same. lia.
Qed.

Lemma js_get_js_set_other (xs : list MultidimArray) (i j : Z) (v : MultidimArray) :
  0 <= i < js_length xs -> 0 <= j -> j <> i ->
  js_get (js_set xs i v) j = js_get xs j.
Proof.
  intros Hi Hj Hne. rewrite js_set_in_range by exact Hi.
  unfold js_get, js_length in *.
  destruct (j <? 0) eqn:E; [reflexivity |].
  apply nth_update_other; lia.
Qed.

Lemma js_length_js_set (xs : list MultidimArray) (i : Z) (v : MultidimArray) :
  0 <= i < js_length xs -> js_length (js_set xs i v) = js_length xs.
Proof.
  intros Hi. rewrite js_set_in_range by exact Hi.
  unfold js_length in *. f_equal. apply length_update. lia.
Qed.

Lemma has_shape_js_get (sz : list Z) (xs : list MultidimArray) (i : Z) :
  forallb (has_shape sz) xs = true -> 0 <= i < js_length xs ->
  has_shape sz (js_get xs i) = true.
Proof.
  intros Hall Hi. rewrite forallb_forall in Hall. apply Hall.
  unfold js_get, js_length in *.
  destruct (i <? 0) eqn:E; [apply Z.ltb_lt in E; lia |].
  apply nth_In. lia.
Qed.

Lemma valid_index_length (sz index : list Z) :
  valid_index sz index -> length index = length sz.
Proof.
  intros Hv. induction Hv; simpl; congruence.
Qed.

Lemma check_index_valid (sz index : list Z) :
  valid_index sz index -> check_index index sz = Ok tt.
Proof.
  intros Hv. induction Hv as [| i n index sz Hi _ IH]; simpl; [reflexivity |].
  rewrite validateIndex_Ok by exact Hi. exact IH.
Qed.

(** On data of shape [sz], a valid index leads [walk] to a slot. *)
Lemma walk_valid (sz : list Z) :
  forall (d : MultidimArray) (index : list Z),
    has_shape sz d = true -> valid_index sz index ->
    exists s, walk d index = Ok s.
Proof.
  induction sz as [| n sz IH]; intros d index Hs Hv; inversion Hv; subst.
  - destruct d; [simpl; eauto | discriminate | simpl; eauto].
  - destruct d as [s | xs |]; [discriminate | | discriminate].
    cbn [has_shape] in Hs. apply andb_true_iff in Hs as [Hn Hall].
    apply Z.eqb_eq in Hn. subst n.
    cbn [walk]. rewrite validateIndex_Ok by assumption. cbn [bind].
    apply IH; [apply has_shape_js_get |]; assumption.
Qed.

Lemma store_cons (xs : list MultidimArray) (i i' : Z) (index : list Z)
    (v : Scalar) :
  store (Arr xs) (i :: i' :: index) v =
  (validateIndex i (js_length xs) ;;;
   child <- store (js_get xs i) (i' :: index) v ;;
   Ok (Arr (js_set xs i child))).
Proof. reflexivity. Qed.

Lemma walk_cons (xs : list MultidimArray) (i : Z) (index : list Z) :
  walk (Arr xs) (i :: index) =
  (validateIndex i (js_length xs) ;;; walk (js_get xs i) index).
Proof. reflexivity. Qed.

(** The write of [set] at a valid index of data of shape [sz]: it succeeds,
    keeps the shape, is read back by [walk], and is not seen at any other
    valid index. *)
Lemma store_walk (sz : list Z) :
  sz <> [] ->
  forall (d : MultidimArray) (index : list Z) (v : Scalar),
    has_shape sz d = true -> valid_index sz index ->
    exists d',
      store d index v = Ok d' /\
      has_shape sz d' = true /\
      walk d' index = Ok v /\
      forall j, valid_index sz j -> j <> index -> walk d' j = walk d j.
Proof.
  induction sz as [| n sz IH]; intros Hne d index v Hs Hv; [congruence |].
  inversion Hv as [| i n' index' sz' Hi Hv' E1 E2]; subst.
  destruct d as [s | xs |]; [discriminate | | discriminate].
  cbn [has_shape] in Hs. apply andb_true_iff in Hs as [Hn Hall].
  apply Z.eqb_eq in Hn. subst n.
  destruct sz as [| m sz].
  - (* the last dimension *)
    inversion Hv'; subst. cbn [store].
    exists (Arr (js_set xs i (Leaf v))). split; [reflexivity |].
    split; [| split].
    + cbn [has_shape]. rewrite js_length_js_set, Z.eqb_refl by exact Hi.
      rewrite js_set_in_range by exact Hi.
      apply forallb_update; [exact Hall | reflexivity | unfold js_length in Hi; lia].
    + cbn [walk]. rewrite js_length_js_set by exact Hi.
      rewrite validateIndex_Ok by exact Hi. cbn [bind].
      rewrite js_get_js_set_same by exact Hi. reflexivity.
    + intros j Hj Hne'. inversion Hj as [| j0 n' j' sz' Hj0 Hj' E1 E2]; subst.
      inversion Hj'; subst.
      assert (j0 <> i) by congruence.
      cbn [walk]. rewrite js_length_js_set by exact Hi.
      rewrite js_get_js_set_other by lia. reflexivity.
  - (* an outer dimension *)
    assert (Hchild : has_shape (m :: sz) (js_get xs i) = true)
      by (apply has_shape_js_get; assumption).
    destruct (IH ltac:(discriminate) (js_get xs i) index' v Hchild Hv')
      as [child [Est [Hsh [Hw Hother]]]].
    exists (Arr (js_set xs i child)). split; [| split; [| split]].
    + inversion Hv' as [| i' m' index'' sz'' Hi' Hv'' E1 E2]; subst.
      rewrite store_cons, validateIndex_Ok by exact Hi. cbn [bind].
      rewrite Est. reflexivity.
    + cbn [has_shape]. rewrite js_length_js_set, Z.eqb_refl by exact Hi.
      rewrite js_set_in_range by exact Hi.
      apply forallb_update; [exact Hall | exact Hsh | unfold js_length in Hi; lia].
    + rewrite walk_cons, js_length_js_set by exact Hi.
      rewrite validateIndex_Ok by exact Hi. cbn [bind].
      rewrite js_get_js_set_same by exact Hi. exact Hw.
    + intros j Hj Hne'. inversion Hj as [| j0 n' j' sz' Hj0 Hj' E1 E2]; subst.
      rewrite !walk_cons, js_length_js_set by exact Hi.
      rewrite validateIndex_Ok by exact Hj0. cbn [bind].
      destruct (Z.eq_dec j0 i) as [-> | Hji].
      * rewrite js_get_js_set_same by exact Hi.
        apply Hother; [exact Hj' | congruence].
      * rewrite js_get_js_set_other by lia. reflexivity.
Qed.

Lemma get_with_data (m : DenseMatrix) (d : MultidimArray) (index : list Z) :
  valid_index (_size m) index ->
  get (with_data m d) index = walk d index.
Proof.
  intros Hv. unfold get. cbn [with_data _size _data].
  rewrite (valid_index_length _ _ Hv), Nat.eqb_refl. cbn [negb].
  rewrite check_index_valid by exact Hv. reflexivity.
Qed.

Lemma validateIndex_inv (i n : Z) : validateIndex i n = Ok tt -> 0 <= i < n.
Proof.
  unfold validateIndex.
  destruct (i <? 0) eqn:E1; [discriminate |].
  destruct (i >=? n) eqn:E2; [discriminate |].
  intros _. apply Z.ltb_ge in E1.
  destruct (Z_lt_le_dec i n) as [Hlt | Hge]; [lia |].
  apply Z.geb_le in Hge. congruence.
Qed.

Lemma check_index_inv (index sz : list Z) :
  length index = length sz -> check_index index sz = Ok tt ->
  valid_index sz index.
Proof.
  revert sz. induction index as [| i index IH]; intros [| n sz] Hlen Hc;
    try discriminate; [constructor |].
  simpl in Hc.
  destruct (validateIndex i n) as [[] | e] eqn:Ei; [| discriminate].
  constructor; [apply validateIndex_inv; exact Ei |].
  apply IH; [simpl in Hlen; congruence | exact Hc].
Qed.

Lemma valid_index_cons (n : Z) (sz : list Z) (i : Z) (index : list Z) :
  valid_index (n :: sz) (i :: index) <-> 0 <= i < n /\ valid_index sz index.
Proof.
  unfold valid_index. split.
  - intros Hv. inversion Hv; subst. auto.
  - intros [Hi Hv]. constructor; assumption.
Qed.

Lemma get_valid (m : DenseMatrix) (index : list Z) :
  valid_index (_size m) index -> get m index = walk (_data m) index.
Proof.
  intros Hv. unfold get.
  rewrite (valid_index_length _ _ Hv), Nat.eqb_refl. cbn [negb].
  rewrite check_index_valid by exact Hv. reflexivity.
Qed.

(** On the value of the data, where every occurrence of an array is an
    array of its own: on a well-formed tensor, [set] at a valid index
    succeeds; [get] at that index then returns the value written, and [get]
    at every other valid index returns what it returned before. *)
Lemma set_then_get_value (t : DenseMatrix) (idx : list Z) (v : Scalar) :
  well_formed t ->
  valid_index (size t) idx ->
  exists t',
    set t idx v = Ok t' /\
    get t' idx = Ok v /\
    forall j, valid_index (size t) j -> j <> idx -> get t' j = get t j.
Proof.
  intros [Hval [Hne _]] Hv. unfold size in *.
  apply validate_has_shape in Hval.
  destruct (store_walk (_size t) Hne (_data t) idx v Hval Hv)
    as [d' [Est [_ [Hw Hother]]]].
  exists (with_data t d'). split; [| split].
  - unfold set. rewrite (valid_index_length _ _ Hv), Nat.ltb_irrefl.
    rewrite Est. reflexivity.
  - rewrite get_with_data by exact Hv. exact Hw.
  - intros j Hj Hne'. rewrite get_with_data, get_valid by exact Hj.
    apply Hother; assumption.
Qed.

(** ** Serialization *)

Lemma js_get_In (xs : list MultidimArray) (i : Z) :
  0 <= i < js_length xs -> In (js_get xs i) xs.
Proof.
  unfold js_get, js_length. intros Hi.
  destruct (i <? 0) eqn:E; [apply Z.ltb_lt in E; lia |].
  apply nth_In. lia.
Qed.

Lemma clone_plain_numbers (x : MultidimArray) :
  plain_numbers x = true -> clone x = x.
Proof.
  induction x as [s | xs IH |] using MultidimArray_nested_ind;
    cbn [plain_numbers clone].
  - destruct s as [| [n | o]]; [discriminate | reflexivity | discriminate].
  - intros Hall. f_equal.
    induction IH as [| y ys Hy _ IHys]; [reflexivity |].
    cbn [forallb] in Hall. apply andb_true_iff in Hall as [H1 H2].
    cbn [map]. rewrite (Hy H1), (IHys H2). reflexivity.
  - reflexivity.
Qed.

(** Plain numbers have a first scalar unless an array along the first
    entries is empty. *)
Lemma first_entry_plain_numbers (x : MultidimArray) :
  plain_numbers x = true ->
  Forall (fun n => 0 < n) (arraySize x) ->
  exists n, first_entry x = Def (Number n).
Proof.
  induction x as [s | xs IH |] using MultidimArray_nested_ind;
    intros Hpl Hpos; [| | discriminate].
  - destruct s as [| [n | o]]; [discriminate | simpl; eauto | discriminate].
  - cbn [arraySize] in Hpos. inversion Hpos as [| ? ? Hk0 Hpos']; subst.
    destruct xs as [| x0 xs]; [unfold js_length in Hk0; simpl in Hk0; lia |].
    cbn [forallb] in Hpl. apply andb_true_iff in Hpl as [Hp0 _].
    inversion IH as [| ? ? IH0 _]; subst.
    cbn [first_entry]. apply IH0; assumption.
Qed.

Lemma walk_plain_numbers (index : list Z) :
  forall (d : MultidimArray) (s : Scalar),
    plain_numbers d = true -> walk d index = Ok s ->
    exists n, s = Def (Number n).
Proof.
  induction index as [| i index IH]; intros d s Hpl Hw.
  - destruct d as [[| [n | o]] | xs |]; try discriminate.
    injection Hw as <-. eauto.
  - destruct d as [s0 | xs |]; [discriminate | | discriminate].
    rewrite walk_cons in Hw.
    destruct (validateIndex i (js_length xs)) as [[] | e] eqn:Ei; [| discriminate].
    cbn [bind] in Hw. apply validateIndex_inv in Ei.
    cbn [plain_numbers] in Hpl. rewrite forallb_forall in Hpl.
    eapply IH; [apply Hpl, js_get_In, Ei | exact Hw].
Qed.

Lemma well_formed_data (t : DenseMatrix) :
  well_formed t -> exists xs, _data t = Arr xs.
Proof.
  intros [Hval [Hne _]]. apply validate_has_shape in Hval.
  destruct (_size t) as [| n sz]; [congruence |].
  destruct (_data t) as [s | xs |]; [discriminate | eauto | discriminate].
Qed.

(** C6.  For a tensor of plain numbers in which no array along the first
    entries is empty (the lengths that [arraySize] reports are positive),
    whatever its rank, [fromJSON(t.toJSON())] succeeds and yields a tensor
    with the size and, slot for slot, the data of [t]: [get] returns on it
    what it returns on [t], at every index. *)
Theorem fromJSON_toJSON (t : DenseMatrix) :
  isArray (_data t) = true ->
  plain_numbers (_data t) = true ->
  Forall (fun n => 0 < n) (arraySize (_data t)) ->
  exists t',
    fromJSON (toJSON t) = Ok t' /\
    size t' = size t /\
    _data t' = _data t /\
    forall idx, get t' idx = get t idx.
Proof.
  intros Harr Hpl Hpos. unfold size.
  destruct (_data t) as [s | xs |] eqn:Hd; [discriminate | | discriminate].
  rewrite <- Hd in Hpl, Hpos.
  destruct (first_entry_plain_numbers _ Hpl Hpos) as [n0 Hfirst].
  exists {| _data := _data t; _size := _size t;
            _datatype := orElse None (_datatype t);
            scalarArithmetics := NumberArithmetics |}.
  split; [| split; [reflexivity | split; [exact Hd | reflexivity]]].
  unfold fromJSON, isSerializedDenseMatrix, toJSON. cbn [mathjs data].
  rewrite Hd. cbn [String.eqb Ascii.eqb Bool.eqb isArray andb negb].
  unfold new_DenseMatrix, isSerializedDenseMatrix.
  cbn [mathjs data json_size datatype].
  cbn [String.eqb Ascii.eqb Bool.eqb isArray andb bind].
  rewrite <- Hd, clone_plain_numbers by exact Hpl.
  unfold find_scalar_arithmetic. rewrite Hd, first_entry_js_get, <- Hd, Hfirst.
  reflexivity.
Qed.

(** ** map *)

Lemma js_map_from_length {X Y : Type} (f : X -> Z -> Y) (l : list X) (k : Z) :
  length (js_map_from f l k) = length l.
Proof.
  revert k. induction l as [| x l IH]; intros k; simpl; [reflexivity |].
  f_equal. apply IH.
Qed.

Lemma nth_js_map_from {X Y : Type} (f : X -> Z -> Y) (l : list X) (k : Z)
    (n : nat) (dx : X) (dy : Y) :
  (n < length l)%nat ->
  nth n (js_map_from f l k) dy = f (nth n l dx) (k + Z.of_nat n).
Proof.
  revert k n. induction l as [| x l IH]; intros k n Hn; simpl in Hn; [lia |].
  destruct n as [| n].
  - simpl. f_equal. lia.
  - cbn [js_map_from nth]. rewrite IH by lia. f_equal. lia.
Qed.

Lemma js_get_js_map (f : MultidimArray -> Z -> MultidimArray)
    (l : list MultidimArray) (i : Z) :
  0 <= i < js_length l ->
  js_get (js_map f l) i = f (js_get l i) i.
Proof.
  unfold js_get, js_map, js_length. intros Hi.
  destruct (i <? 0) eqn:E; [apply Z.ltb_lt in E; lia |].
  rewrite nth_js_map_from with (dx := Leaf Undefined) by lia.
  f_equal. lia.
Qed.

Lemma js_length_js_map (f : MultidimArray -> Z -> MultidimArray)
    (l : list MultidimArray) :
  js_length (js_map f l) = js_length l.
Proof.
  unfold js_length, js_map. rewrite js_map_from_length. reflexivity.
Qed.

Lemma forallb_js_map_from (P : MultidimArray -> bool)
    (f : MultidimArray -> Z -> MultidimArray) (l : list MultidimArray) (k : Z) :
  Forall (fun x => forall i, P (f x i) = P x) l ->
  forallb P (js_map_from f l k) = forallb P l.
Proof.
  intros Hall. revert k.
  induction Hall as [| x l Hx _ IH]; intros k; simpl; [reflexivity |].
  rewrite Hx, IH. reflexivity.
Qed.

Lemma has_shape_map_recurse (cb : Scalar -> list Z -> Scalar)
    (x : MultidimArray) :
  forall (sz index : list Z),
    has_shape sz (map_recurse cb x index) = has_shape sz x.
Proof.
  induction x as [s | xs IH |] using MultidimArray_nested_ind; intros sz index.
  - destruct sz; reflexivity.
  - destruct sz as [| n sz]; [reflexivity |].
    cbn [map_recurse has_shape]. rewrite js_length_js_map. f_equal.
    unfold js_map. apply forallb_js_map_from.
    eapply Forall_impl; [| exact IH]. intros y Hy i. apply Hy.
  - reflexivity.
Qed.

Lemma arraySize_has_shape (sz : list Z) :
  forall x, has_shape sz x = true -> Forall (fun n => 0 < n) sz ->
            arraySize x = sz.
Proof.
  induction sz as [| n sz IH]; intros x Hs Hpos.
  - destruct x; [reflexivity | discriminate | reflexivity].
  - destruct x as [s | xs |]; [discriminate | | discriminate].
    cbn [has_shape] in Hs. apply andb_true_iff in Hs as [Hn Hall].
    apply Z.eqb_eq in Hn. inversion Hpos as [| ? ? Hn0 Hpos']; subst.
    destruct xs as [| x0 xs]; [unfold js_length in Hn0; simpl in Hn0; lia |].
    cbn [forallb] in Hall. apply andb_true_iff in Hall as [Hx0 _].
    cbn [arraySize]. f_equal. apply IH; assumption.
Qed.

(** ** Empty slots *)

Lemma dense_first_is_hole (x : MultidimArray) :
  dense x = true -> first_is_hole x = false.
Proof.
  induction x as [s | xs IH |] using MultidimArray_nested_ind;
    [reflexivity | | discriminate].
  intros Hd. destruct xs as [| x0 xs]; [reflexivity |].
  cbn [dense forallb] in Hd. apply andb_true_iff in Hd as [Hd0 _].
  inversion IH as [| ? ? IH0 _]; subst. cbn [first_is_hole]. auto.
Qed.

Lemma dense_js_get (xs : list MultidimArray) (i : Z) :
  forallb dense xs = true -> 0 <= i < js_length xs ->
  dense (js_get xs i) = true.
Proof.
  intros Hall Hi. rewrite forallb_forall in Hall. apply Hall.
  unfold js_get, js_length in *.
  destruct (i <? 0) eqn:E; [apply Z.ltb_lt in E; lia |].
  apply nth_In. lia.
Qed.

Lemma filled_dense (x : MultidimArray) : dense x = true -> filled x = x.
Proof.
  induction x as [s | xs IH |] using MultidimArray_nested_ind;
    [reflexivity | | discriminate].
  cbn [dense filled]. intros Hall. f_equal.
  induction IH as [| y ys Hy _ IHys]; [reflexivity |].
  cbn [forallb] in Hall. apply andb_true_iff in Hall as [H1 H2].
  cbn [map]. rewrite (Hy H1), (IHys H2). reflexivity.
Qed.

Lemma defined_leaves_dense (x : MultidimArray) :
  defined_leaves x = true -> dense x = true.
Proof.
  induction x as [s | xs IH |] using MultidimArray_nested_ind;
    [reflexivity | | discriminate].
  cbn [defined_leaves dense]. intros Hall.
  induction IH as [| y ys Hy _ IHys]; [reflexivity |].
  cbn [forallb] in Hall |- *. apply andb_true_iff in Hall as [H1 H2].
  rewrite (Hy H1), (IHys H2). reflexivity.
Qed.

Lemma plain_numbers_dense (x : MultidimArray) :
  plain_numbers x = true -> dense x = true.
Proof.
  induction x as [s | xs IH |] using MultidimArray_nested_ind;
    [reflexivity | | discriminate].
  cbn [plain_numbers dense]. intros Hall.
  induction IH as [| y ys Hy _ IHys]; [reflexivity |].
  cbn [forallb] in Hall |- *. apply andb_true_iff in Hall as [H1 H2].
  rewrite (Hy H1), (IHys H2). reflexivity.
Qed.

Lemma flatten_callback_dense (x : MultidimArray) :
  dense x = true -> flatten_callback x = leaves x.
Proof.
  induction x as [s | xs IH |] using MultidimArray_nested_ind;
    [reflexivity | | discriminate].
  cbn [dense flatten_callback leaves]. intros Hall.
  induction IH as [| y ys Hy _ IHys]; [reflexivity |].
  cbn [forallb] in Hall. apply andb_true_iff in Hall as [H1 H2].
  cbn [flat_map]. rewrite (Hy H1), (IHys H2). reflexivity.
Qed.

(** Below a chain of non-empty first entries that does not end in an empty
    slot, a callback that returns scalars leaves a scalar at the end of the
    chain. *)
Lemma first_entry_map_recurse (g : Scalar -> list Z -> Value) (sz : list Z) :
  forall x index,
    has_shape sz x = true -> Forall (fun n => 0 < n) sz ->
    first_is_hole x = false ->
    exists v, first_entry (map_recurse (fun s i => Def (g s i)) x index) = Def v.
Proof.
  induction sz as [| n sz IH]; intros x index Hs Hpos Hf.
  - destruct x; [simpl; eauto | discriminate | discriminate].
  - destruct x as [s | xs |]; [discriminate | | discriminate].
    cbn [has_shape] in Hs. apply andb_true_iff in Hs as [Hn Hall].
    apply Z.eqb_eq in Hn. inversion Hpos as [| ? ? Hn0 Hpos']; subst.
    destruct xs as [| x0 xs]; [unfold js_length in Hn0; simpl in Hn0; lia |].
    cbn [forallb] in Hall. apply andb_true_iff in Hall as [Hx0 _].
    cbn [map_recurse js_map js_map_from first_entry].
    apply IH; assumption.
Qed.

Lemma walk_map_recurse (cb : Scalar -> list Z -> Scalar) (index : list Z) :
  forall (d : MultidimArray) (prefix : list Z) (s : Scalar),
    dense d = true ->
    walk d index = Ok s ->
    walk (map_recurse cb d prefix) index = Ok (cb s (prefix ++ index)).
Proof.
  induction index as [| i index IH]; intros d prefix s Hd Hw.
  - destruct d as [s0 | xs |]; [| discriminate | discriminate].
    injection Hw as <-. simpl. rewrite app_nil_r. reflexivity.
  - destruct d as [s0 | xs |]; [discriminate | | discriminate].
    rewrite walk_cons in Hw.
    destruct (validateIndex i (js_length xs)) as [[] | e] eqn:Ei; [| discriminate].
    cbn [bind] in Hw. cbn [map_recurse].
    rewrite walk_cons, js_length_js_map, Ei. cbn [bind].
    rewrite js_get_js_map by (apply validateIndex_inv; exact Ei).
    assert (Hdi : dense (js_get xs i) = true)
      by (apply dense_js_get; [exact Hd | apply validateIndex_inv; exact Ei]).
    rewrite (IH _ (prefix ++ [i]) s Hdi Hw), <- app_assoc. reflexivity.
Qed.

(** [map] on a well-formed tensor without empty slots, with a callback
    that returns scalars. *)
Lemma DenseMatrix_map_well_formed (a : DenseMatrix)
    (g : Scalar -> list Z -> Value) :
  well_formed a ->
  dense (_data a) = true ->
  exists c,
    DenseMatrix_map a (fun s i => Def (g s i)) = Ok c /\
    size c = size a /\
    forall idx, valid_index (size a) idx ->
      exists s, get a idx = Ok s /\ get c idx = Ok (Def (g s idx)).
Proof.
  intros Hwf Hdense. destruct (well_formed_data a Hwf) as [xs Hd].
  destruct Hwf as [Hval [Hne Hpos]]. apply validate_has_shape in Hval.
  set (cb := fun s i => Def (g s i)).
  destruct (first_entry_map_recurse g _ (_data a) [] Hval Hpos
              (dense_first_is_hole _ Hdense)) as [v Hv].
  fold cb in Hv.
  assert (Harr : exists ys, map_recurse cb (_data a) [] = Arr ys)
    by (rewrite Hd; simpl; eauto).
  destruct Harr as [ys Hys].
  unfold DenseMatrix_map. rewrite Hys in *.
  destruct (new_DenseMatrix_from_array ys v None Hv) as [S ES].
  rewrite ES. eexists. split; [reflexivity |].
  assert (Hsize : arraySize (Arr ys) = _size a).
  { apply arraySize_has_shape; [| exact Hpos].
    rewrite <- Hys, has_shape_map_recurse. exact Hval. }
  unfold size. cbn [_size]. split; [exact Hsize |].
  intros idx Hidx.
  destruct (walk_valid _ _ _ Hval Hidx) as [s Hw].
  exists s. split; [rewrite get_valid by exact Hidx; exact Hw |].
  unfold get. cbn [_size _data]. rewrite Hsize.
  rewrite (valid_index_length _ _ Hidx), Nat.eqb_refl. cbn [negb].
  rewrite check_index_valid by exact Hidx. cbn [bind].
  rewrite <- Hys. apply (walk_map_recurse cb idx (_data a) [] s Hdense Hw).
Qed.

Lemma arraySize_map_recurse (cb : Scalar -> list Z -> Scalar)
    (x : MultidimArray) :
  forall index, arraySize (map_recurse cb x index) = arraySize x.
Proof.
  induction x as [s | xs IH |] using MultidimArray_nested_ind; intros index;
    [reflexivity | | reflexivity].
  cbn [map_recurse arraySize]. rewrite js_length_js_map. f_equal.
  destruct xs as [| x0 xs]; [reflexivity |].
  inversion IH as [| ? ? IH0 _]; subst.
  cbn [js_map js_map_from]. apply IH0.
Qed.

(** Where no slot is empty and no array along the first entries is empty, a
    callback that returns scalars leaves a scalar at the end of the first
    entries. *)
Lemma first_entry_map_dense (g : Scalar -> list Z -> Value)
    (x : MultidimArray) :
  forall index,
    dense x = true ->
    Forall (fun n => 0 < n) (arraySize x) ->
    exists v, first_entry (map_recurse (fun s i => Def (g s i)) x index) = Def v.
Proof.
  induction x as [s | xs IH |] using MultidimArray_nested_ind;
    intros index Hd Hpos; [simpl; eauto | | discriminate].
  cbn [arraySize] in Hpos. inversion Hpos as [| ? ? Hk0 Hpos']; subst.
  destruct xs as [| x0 xs]; [unfold js_length in Hk0; simpl in Hk0; lia |].
  cbn [dense forallb] in Hd. apply andb_true_iff in Hd as [Hd0 _].
  inversion IH as [| ? ? IH0 _]; subst.
  cbn [map_recurse js_map js_map_from first_entry]. apply IH0; assumption.
Qed.

(** [map] with a callback that returns scalars, on a tensor without empty
    slots in which no array along the first entries is empty. *)
Lemma DenseMatrix_map_dense (a : DenseMatrix)
    (g : Scalar -> list Z -> Value) :
  isArray (_data a) = true ->
  dense (_data a) = true ->
  Forall (fun n => 0 < n) (arraySize (_data a)) ->
  exists c,
    DenseMatrix_map a (fun s i => Def (g s i)) = Ok c /\
    _data c = map_recurse (fun s i => Def (g s i)) (_data a) [] /\
    _size c = arraySize (_data a).
Proof.
  intros Harr Hd Hpos.
  set (cb := fun s i => Def (g s i)).
  destruct (first_entry_map_dense g (_data a) [] Hd Hpos) as [v Hv].
  fold cb in Hv.
  pose proof (arraySize_map_recurse cb (_data a) []) as Hsize.
  unfold DenseMatrix_map.
  destruct (map_recurse cb (_data a) []) as [s | ys |] eqn:Hys;
    [destruct (_data a); discriminate | | destruct (_data a); discriminate].
  destruct (new_DenseMatrix_from_array ys v None Hv) as [S ES].
  rewrite ES. eexists. split; [reflexivity |]. cbn [_data _size].
  split; [reflexivity | exact Hsize].
Qed.

(** C7.  [dotDiv] on a tensor whose scalar arithmetic lacks the
    [DivisionRing] tag throws the [ArithmeticError] that names
    [DivisionRing], whatever the tensor holds (no element is looked at, and
    nothing in [dotDiv] assigns to the tensor).  With the tag, on a tensor
    without empty slots in which no array along the first entries is empty
    (the lengths that [arraySize] reports are positive), it returns a
    tensor with the size of the data, in which every slot holds what the
    slot of the receiver holds divided by the operand; when the receiver
    reports the size of its data, that is what [get] returns wherever [get]
    returns on the receiver. *)
Theorem dotDiv_capability (a : DenseMatrix) (b : Scalar) :
  (A.symbols_DivisionRing (scalarArithmetics a) = false ->
     dotDiv a b = Err (ArithmeticError "DivisionRing") /\
     error_message (ArithmeticError "DivisionRing") =
       "Unsupported type of arithmetic, expected DivisionRing"%string) /\
  (A.symbols_DivisionRing (scalarArithmetics a) = true ->
   isArray (_data a) = true ->
   dense (_data a) = true ->
   Forall (fun n => 0 < n) (arraySize (_data a)) ->
     exists c,
       dotDiv a b = Ok c /\
       size c = arraySize (_data a) /\
       (forall idx s,
          walk (_data a) idx = Ok s ->
          walk (_data c) idx = Ok (Def (A.div (scalarArithmetics a) s b))) /\
       (size a = arraySize (_data a) ->
        forall idx s,
          get a idx = Ok s ->
          get c idx = Ok (Def (A.div (scalarArithmetics a) s b)))).
Proof.
  split.
  - intros Hflag. unfold dotDiv. rewrite Hflag. split; reflexivity.
  - intros Hflag Harr Hdense Hpos. unfold dotDiv. rewrite Hflag. cbn [negb].
    destruct (DenseMatrix_map_dense a
                (fun el _ => A.div (scalarArithmetics a) el b)
                Harr Hdense Hpos) as [c [Ec [Hdata Hsize]]].
    exists c. split; [exact Ec |]. split; [exact Hsize |].
    assert (Hwalk : forall idx s,
              walk (_data a) idx = Ok s ->
              walk (_data c) idx =
              Ok (Def (A.div (scalarArithmetics a) s b))).
    { intros idx s Hw. rewrite Hdata.
      apply (walk_map_recurse
               (fun el _ => Def (A.div (scalarArithmetics a) el b))
               idx (_data a) [] s Hdense Hw). }
    split; [exact Hwalk |].
    intros Hsz idx s Hg. unfold size in Hsz. unfold get in *.
    rewrite Hsize, <- Hsz.
    destruct (negb (length idx =? length (_size a))%nat); [discriminate |].
    destruct (check_index idx (_size a)) as [[] | e]; [| discriminate].
    cbn [bind] in *. apply Hwalk. exact Hg.
Qed.

(** ** Matrix product *)

Lemma upto_In (n k : Z) : In k (upto n) <-> 0 <= k < n.
Proof.
  unfold upto. rewrite in_map_iff. split.
  - intros [m [<- Hm]]. apply in_seq in Hm. lia.
  - intros Hk. exists (Z.to_nat k). split; [lia |]. apply in_seq. lia.
Qed.

Lemma upto_length (n : Z) : 0 <= n -> Z.of_nat (length (upto n)) = n.
Proof.
  intros Hn. unfold upto. rewrite length_map, length_seq. lia.
Qed.

Lemma upto_head (n : Z) : 0 < n -> exists tl, upto n = 0 :: tl.
Proof.
  intros Hn. unfold upto.
  destruct (Z.to_nat n) as [| k] eqn:E; [lia |].
  simpl. eauto.
Qed.

Lemma js_get_map_upto (F : Z -> MultidimArray) (n i : Z) :
  0 <= i < n -> js_get (map F (upto n)) i = F i.
Proof.
  intros Hi. unfold js_get, upto.
  destruct (i <? 0) eqn:E; [apply Z.ltb_lt in E; lia |].
  rewrite map_map.
  rewrite nth_indep with (d' := F (Z.of_nat 0))
    by (rewrite length_map, length_seq; lia).
  rewrite map_nth with (f := fun k => F (Z.of_nat k)).
  rewrite seq_nth by lia. f_equal. lia.
Qed.

Lemma js_length_map_upto (F : Z -> MultidimArray) (n : Z) :
  0 <= n -> js_length (map F (upto n)) = n.
Proof.
  intros Hn. unfold js_length. rewrite length_map. apply upto_length, Hn.
Qed.

(** The rows of data of shape [A x B]. *)
Lemma has_shape_row (A B : Z) (a : list MultidimArray) (i : Z) :
  has_shape [A; B] (Arr a) = true -> 0 <= i < A ->
  exists r, js_get a i = Arr r /\ js_length r = B /\
            forallb (has_shape []) r = true.
Proof.
  intros Hs Hi. cbn [has_shape] in Hs.
  apply andb_true_iff in Hs as [HA Hall]. apply Z.eqb_eq in HA. subst A.
  pose proof (has_shape_js_get [B] a i Hall Hi) as Hrow.
  destruct (js_get a i) as [s | r |]; [discriminate | | discriminate].
  cbn [has_shape] in Hrow. apply andb_true_iff in Hrow as [HB Hr].
  apply Z.eqb_eq in HB. eauto.
Qed.

Lemma has_shape_entry (A B : Z) (a : list MultidimArray) (i k : Z) :
  has_shape [A; B] (Arr a) = true -> 0 <= i < A -> 0 <= k < B ->
  exists s, entry2 a i k = Ok s /\ walk (Arr a) [i; k] = Ok s.
Proof.
  intros Hs Hi Hk.
  destruct (has_shape_row A B a i Hs Hi) as [r [Er [Hlen Hr]]].
  assert (HA : js_length a = A).
  { cbn [has_shape] in Hs. apply andb_true_iff in Hs as [HA _].
    apply Z.eqb_eq in HA. exact HA. }
  subst B.
  pose proof (has_shape_js_get [] r k Hr Hk) as Hleaf.
  exists (match js_get r k with Leaf s => s | _ => Undefined end). split.
  - unfold entry2. rewrite Er. cbn [entry_get bind].
    destruct (js_get r k); [reflexivity | discriminate | reflexivity].
  - rewrite walk_cons, HA, validateIndex_Ok by exact Hi. cbn [bind].
    rewrite Er, walk_cons, validateIndex_Ok by exact Hk. cbn [bind].
    destruct (js_get r k); [reflexivity | discriminate | reflexivity].
Qed.

Lemma element_entry (m : DenseMatrix) (A B : Z) (a : list MultidimArray)
    (i k : Z) :
  _size m = [A; B] -> _data m = Arr a ->
  has_shape [A; B] (Arr a) = true -> 0 <= i < A -> 0 <= k < B ->
  entry2 a i k = Ok (element m [i; k]).
Proof.
  intros Hsz Hd Hs Hi Hk.
  destruct (has_shape_entry A B a i k Hs Hi Hk) as [s [E1 E2]].
  unfold element. rewrite get_valid, Hd, E2; [exact E1 |].
  rewrite Hsz. repeat constructor; lia.
Qed.

(** The loop over [k] computes the sum from the left. *)
Lemma mul_inner_fold (S : Arithmetics) (ma mb : DenseMatrix)
    (A B C : Z) (a b : list MultidimArray) (i j : Z) :
  _size ma = [A; B] -> _data ma = Arr a -> has_shape [A; B] (Arr a) = true ->
  _size mb = [B; C] -> _data mb = Arr b -> has_shape [B; C] (Arr b) = true ->
  0 <= i < A -> 0 <= j < C ->
  forall (ks : list Z) (r : Value),
    (forall k, In k ks -> 0 <= k < B) ->
    mul_inner S a b i j ks r =
    Ok (fold_left
          (fun (r : Value) k =>
             A.add S r (A.mul S (element ma [i; k]) (element mb [k; j])))
          ks r).
Proof.
  intros Hsa Hda Hha Hsb Hdb Hhb Hi Hj.
  induction ks as [| k ks IH]; intros r Hks; [reflexivity |].
  cbn [mul_inner fold_left].
  assert (Hk : 0 <= k < B) by (apply Hks; left; reflexivity).
  rewrite (element_entry ma A B a i k Hsa Hda Hha Hi Hk). cbn [bind].
  rewrite (element_entry mb B C b k j Hsb Hdb Hhb Hk Hj). cbn [bind].
  apply IH. intros k' Hk'. apply Hks. right. exact Hk'.
Qed.

Lemma well_formed_rank2 (m : DenseMatrix) :
  well_formed m -> length (_size m) = 2%nat ->
  exists A B a,
    _size m = [A; B] /\ _data m = Arr a /\
    has_shape [A; B] (Arr a) = true /\ 0 < A /\ 0 < B /\
    js_length a = A /\ entry_length (js_get a 0) = Ok (Some B).
Proof.
  intros Hwf Hlen. destruct (well_formed_data m Hwf) as [a Hd].
  destruct Hwf as [Hval [_ Hpos]]. apply validate_has_shape in Hval.
  destruct (_size m) as [| A [| B [| ? ?]]]; try discriminate.
  inversion Hpos as [| ? ? HA Hpos']; subst.
  inversion Hpos' as [| ? ? HB _]; subst.
  rewrite Hd in Hval.
  exists A, B, a. repeat split; try assumption; try lia.
  - cbn [has_shape] in Hval. apply andb_true_iff in Hval as [E _].
    apply Z.eqb_eq in E. exact E.
  - destruct (has_shape_row A B a 0 Hval ltac:(lia)) as [r [Er [Hr _]]].
    rewrite Er. simpl. rewrite Hr. reflexivity.
Qed.

(** The nested array that the loops of [mul] build. *)
Lemma mul_loops (ma mb : DenseMatrix) (A B C : Z) (a b : list MultidimArray) :
  _size ma = [A; B] -> _data ma = Arr a -> has_shape [A; B] (Arr a) = true ->
  _size mb = [B; C] -> _data mb = Arr b -> has_shape [B; C] (Arr b) = true ->
  let S := scalarArithmetics ma in
  for_each
    (fun i =>
       ci <- for_each
               (fun j =>
                  r <- mul_inner S a b i j (upto_opt (Some B)) (A.zero S) ;;
                  Ok (Leaf (Def r)))
               (upto_opt (Some C)) ;;
       Ok (Arr ci))
    (upto A) =
  Ok (map (fun i => Arr (map (fun j => Leaf (Def (dot S ma mb i j B))) (upto C)))
        (upto A)).
Proof.
  intros Hsa Hda Hha Hsb Hdb Hhb S.
  apply for_each_map. intros i Hi. apply upto_In in Hi.
  cbn [upto_opt].
  rewrite for_each_map
    with (g := fun j => Leaf (Def (dot S ma mb i j B))); [reflexivity |].
  intros j Hj. apply upto_In in Hj.
  rewrite (mul_inner_fold S ma mb A B C a b i j
             Hsa Hda Hha Hsb Hdb Hhb Hi Hj (upto B) (A.zero S))
    by (intros k Hk; apply upto_In; exact Hk).
  reflexivity.
Qed.

(** C4.  For well-formed tensors [a] and [b]: when one of them is not of
    rank two, or the number of rows of [b] differs from the number of columns
    of [a], [a.mul(b)] throws a [DimensionError]; otherwise it returns a
    tensor of size (rows of [a]) x (columns of [b]) whose entry at [[i, j]]
    is the sum over [k] of [a[i][k] * b[k][j]], built from [zero] with [add]
    and [mul] of the scalar arithmetic of [a]. *)
Theorem mul_product (a b : DenseMatrix) :
  well_formed a -> well_formed b ->
  (length (size a) <> 2%nat \/ length (size b) <> 2%nat \/
   nth 0 (size b) 0 <> nth 1 (size a) 0 ->
     exists actual expected relation,
       mul a b = Err (DimensionError actual expected relation)) /\
  (length (size a) = 2%nat -> length (size b) = 2%nat ->
   nth 0 (size b) 0 = nth 1 (size a) 0 ->
     exists c,
       mul a b = Ok c /\
       size c = [nth 0 (size a) 0; nth 1 (size b) 0] /\
       forall i j, 0 <= i < nth 0 (size a) 0 -> 0 <= j < nth 1 (size b) 0 ->
         get c [i; j] =
         Ok (Def (dot (scalarArithmetics a) a b i j (nth 1 (size a) 0)))).
Proof.
  intros Hwfa Hwfb. unfold size. split.
  - intros Hbad. unfold mul.
    destruct (length (_size a) =? 2)%nat eqn:Ea; cbn [negb]; [| eauto].
    destruct (length (_size b) =? 2)%nat eqn:Eb; cbn [negb]; [| eauto].
    apply Nat.eqb_eq in Ea, Eb.
    destruct (well_formed_rank2 a Hwfa Ea)
      as (A & B & xa & Hsa & Hda & Hha & HA & HB & Hla & Hea).
    destruct (well_formed_rank2 b Hwfb Eb)
      as (B' & C & xb & Hsb & Hdb & Hhb & HB' & HC & Hlb & Heb).
    rewrite Hda, Hdb, Hea. cbn [bind]. rewrite Heb. cbn [bind].
    rewrite Hlb. cbn [Z_eq_opt].
    destruct (B' =? B) eqn:E; cbn [negb]; [| eauto].
    apply Z.eqb_eq in E. rewrite Hsa, Hsb in Hbad. simpl in Hbad.
    destruct Hbad as [Hbad | [Hbad | Hbad]]; congruence.
  - intros Ea Eb Hinner.
    destruct (well_formed_rank2 a Hwfa Ea)
      as (A & B & xa & Hsa & Hda & Hha & HA & HB & Hla & Hea).
    destruct (well_formed_rank2 b Hwfb Eb)
      as (B' & C & xb & Hsb & Hdb & Hhb & HB' & HC & Hlb & Heb).
    rewrite Hsa, Hsb in Hinner |- *. simpl in Hinner. subst B'.
    cbn [nth].
    unfold mul. rewrite Hsa, Hsb. cbn [length Nat.eqb negb].
    rewrite Hda, Hdb, Hea. cbn [bind]. rewrite Heb. cbn [bind].
    rewrite Hlb, Hla. cbn [Z_eq_opt]. rewrite Z.eqb_refl. cbn [negb].
    rewrite (mul_loops a b A B C xa xb Hsa Hda Hha Hsb Hdb Hhb). cbn [bind].
    set (S := scalarArithmetics a).
    set (F := fun i => Arr (map (fun j => Leaf (Def (dot S a b i j B))) (upto C))).
    destruct (upto_head A HA) as [tlA EA].
    destruct (upto_head C HC) as [tlC EC].
    assert (Hfirst : first_entry (Arr (map F (upto A))) = Def (dot S a b 0 0 B)).
    { rewrite EA. cbn [map first_entry]. unfold F. rewrite EC. reflexivity. }
    destruct (new_DenseMatrix_from_array (map F (upto A)) _ None Hfirst)
      as [S' ES].
    rewrite ES. eexists. split; [reflexivity |].
    assert (Hsize : arraySize (Arr (map F (upto A))) = [A; C]).
    { cbn [arraySize]. rewrite js_length_map_upto by lia.
      rewrite EA. cbn [map]. unfold F at 1. cbn [arraySize].
      rewrite js_length_map_upto by lia. rewrite EC. reflexivity. }
    cbn [_size]. split; [exact Hsize |].
    intros i j Hi Hj. unfold get. cbn [_size _data]. rewrite Hsize.
    cbn [length Nat.eqb negb check_index].
    rewrite !validateIndex_Ok by assumption. cbn [bind].
    rewrite walk_cons, js_length_map_upto by lia.
    rewrite validateIndex_Ok by assumption. cbn [bind].
    rewrite js_get_map_upto by assumption. unfold F.
    rewrite walk_cons, js_length_map_upto by lia.
    rewrite validateIndex_Ok by assumption. cbn [bind].
    rewrite js_get_map_upto by assumption. reflexivity.
Qed.

(** ** resize *)

(** A failing in-place [resize] has assigned the requested size and has not
    touched the data; a failing copying [resize] leaves the receiver as it
    was. *)
Lemma loop_slots_error
    (body : MultidimArray -> MultidimArray * option error)
    (P : error -> Prop) (todo : list MultidimArray) :
  (forall x x' e, In x todo -> body x = (x', Some e) -> P e) ->
  forall done e, loop_slots body todo = (done, Some e) -> P e.
Proof.
  induction todo as [| x todo IH]; intros Hbody done e E; [discriminate |].
  cbn [loop_slots] in E.
  destruct (body x) as [x' [e' |]] eqn:Ex.
  - injection E as _ <-. eapply Hbody; [left; reflexivity | exact Ex].
  - destruct (loop_slots body todo) as [done' e'] eqn:El.
    injection E as _ ->.
    eapply IH; [| reflexivity].
    intros y y' e0 Hy. apply Hbody. right. exact Hy.
Qed.

(** The only error of [_resize] is the [RangeError] of a refused length. *)
Lemma _resize_error (sizes : list Z) (defaultValue : Scalar) :
  forall (array array' : list MultidimArray) (e : error),
    _resize array sizes defaultValue = (array', Some e) ->
    exists expression, e = RangeError expression.
Proof.
  induction sizes as [| newLen rest IH]; intros array array' e E;
    [discriminate |].
  cbn [_resize] in E.
  destruct (length_refused array newLen); [injection E as _ <-; eauto |].
  destruct rest as [| n rest']; [discriminate |].
  set (rest := n :: rest') in *.
  match type of E with
  | context [loop_slots ?body1 (firstn ?k array)] =>
      destruct (loop_slots body1 (firstn k array)) as [kept' [e1 |]] eqn:E1
  end.
  - injection E as _ <-.
    eapply (loop_slots_error _ (fun e => exists r, e = RangeError r));
      [| exact E1].
    intros x x' e0 _ Ex.
    destruct x as [s | c |];
      match type of Ex with
      | context [_resize ?a rest defaultValue] =>
          destruct (_resize a rest defaultValue) as [c' [e' |]] eqn:Ec
      end; try discriminate; injection Ex as _ <-; eapply IH; exact Ec.
  - match type of E with
    | context [loop_slots ?body2 ?added] =>
        destruct (loop_slots body2 added) as [added' [e2 |]] eqn:E2
    end; [| discriminate].
    injection E as _ <-.
    eapply (loop_slots_error _ (fun e => exists r, e = RangeError r));
      [| exact E2].
    intros x x' e0 _ Ex.
    destruct (_resize [] rest defaultValue) as [c' [e' |]] eqn:Ec;
      [| discriminate].
    injection Ex as _ <-. eapply IH; exact Ec.
Qed.

(** When [resize] throws, the size of the receiver is the rejected one
    already (unless a copy was asked for); its data is untouched unless the
    error is the [RangeError] of a length refused on the way. *)
Lemma resize_failure_state (this : DenseMatrix) (sz : list Z)
    (defaultValue : Scalar) (copy : bool) (e : error) :
  snd (resize this sz defaultValue copy) = Err e ->
  _size (fst (resize this sz defaultValue copy)) =
    (if copy then _size this else sz) /\
  ((forall expression, e <> RangeError expression) ->
   _data (fst (resize this sz defaultValue copy)) = _data this).
Proof.
  unfold resize, resize_assign. destruct copy.
  - destruct (DenseMatrix_clone this); intros _; split; reflexivity.
  - cbn [with_size _data _size]. unfold array_resize.
    destruct (_data this) as [s | xs |];
      [intros _; split; reflexivity | | intros _; split; reflexivity].
    destruct (length sz =? 0)%nat; [intros _; split; reflexivity |].
    destruct (existsb (fun value => value <? 0) sz);
      [intros _; split; reflexivity |].
    match goal with
    | |- context [_resize xs sz ?dv] =>
        destruct (_resize xs sz dv) as [xs' [e' |]] eqn:Er
    end; [| discriminate].
    cbn [snd fst with_data _size _data]. intros E. injection E as <-.
    split; [reflexivity |]. intros Hno.
    destruct (_resize_error _ _ _ _ _ Er) as [r ->].
    exfalso. exact (Hno r eq_refl).
Qed.

(** ** Norms *)

Lemma max_scan_cons (A : Arithmetics) (x : Scalar) (vs : list Scalar) (r : Value) :
  max_scan A (x :: vs) r =
  max_scan A vs (if A.gt A (A.norm A x) r then A.norm A x else r).
Proof. reflexivity. Qed.

Lemma max_scan_start (A : Arithmetics) (vs : list Scalar) :
  forall r : Value,
    (forall x, In x vs -> A.gt A (A.norm A x) r = false) ->
    max_scan A vs r = r.
Proof.
  induction vs as [| x vs IH]; intros r Hall; [reflexivity |].
  rewrite max_scan_cons, (Hall x (or_introl eq_refl)).
  apply IH. intros y Hy. apply Hall. right. exact Hy.
Qed.

Lemma max_scan_element (A : Arithmetics) (vs : list Scalar) :
  forall r : Value,
    max_scan A vs r = r \/
    exists x, In x vs /\ max_scan A vs r = A.norm A x.
Proof.
  induction vs as [| x vs IH]; intros r; [left; reflexivity |].
  rewrite max_scan_cons.
  destruct (IH (if A.gt A (A.norm A x) r then A.norm A x else r))
    as [E | [y [Hy E]]].
  - rewrite E. destruct (A.gt A (A.norm A x) r).
    + right. exists x. split; [left |]; reflexivity.
    + left. reflexivity.
  - right. exists y. split; [right; exact Hy | exact E].
Qed.

(** When [gt] is a strict order, the scan ends above its start and above
    the magnitude of every value. *)
Lemma max_scan_upper (A : Arithmetics) :
  (forall x : Scalar, A.gt A x x = false) ->
  (forall x y z : Scalar,
      A.gt A x y = true -> A.gt A y z = true -> A.gt A x z = true) ->
  forall (vs : list Scalar) (r : Value),
    (max_scan A vs r = r \/ A.gt A (max_scan A vs r) r = true) /\
    forall x, In x vs -> A.gt A (A.norm A x) (max_scan A vs r) = false.
Proof.
  intros Hirr Htrans.
  induction vs as [| x vs IH]; intros r.
  - split; [left; reflexivity | intros x []].
  - rewrite max_scan_cons.
    destruct (A.gt A (A.norm A x) r) eqn:Hx.
    + destruct (IH (A.norm A x)) as [Hm Hvs]. split.
      * right. destruct Hm as [-> | Hm]; [exact Hx |].
        eapply Htrans; eassumption.
      * intros y [<- | Hy]; [| apply Hvs; exact Hy].
        destruct Hm as [-> | Hm]; [apply Hirr |].
        destruct (A.gt A (A.norm A x) (max_scan A vs (A.norm A x))) eqn:E;
          [| reflexivity].
        rewrite <- (Hirr (A.norm A x)). symmetry.
        eapply Htrans; eassumption.
    + destruct (IH r) as [Hm Hvs]. split; [exact Hm |].
      intros y [<- | Hy]; [| apply Hvs; exact Hy].
      destruct Hm as [-> | Hm]; [exact Hx |].
      destruct (A.gt A (A.norm A x) (max_scan A vs r)) eqn:E; [| reflexivity].
      rewrite <- Hx. symmetry. eapply Htrans; eassumption.
Qed.

(** C8.  On a tensor of rank one, [norm('inf')] and [norm(Infinity)] throw
    the [ArithmeticError] naming [Real] when the scalar arithmetic lacks the
    [Real] tag; with the tag they return the outcome of the scan that
    starts from [zero] and takes over the magnitude of a value only when
    [gt] says it is greater than the running value.  That outcome is [zero]
    or the magnitude of some value; it is [zero] when no magnitude is
    greater than [zero] (so for the empty and for the all-zero vector); and
    when [gt] is a strict order, no value has a magnitude greater than it:
    it is the maximum magnitude. *)
Theorem vectorNorm_inf_max (v : DenseMatrix) (p : pKind) :
  length (size v) = 1%nat ->
  p = p_inf \/ p = p_number POSITIVE_INFINITY ->
  let A := scalarArithmetics v in
  (A.symbols_Real A = false ->
     norm v (p_kind p) = Err (ArithmeticError "Real")) /\
  (A.symbols_Real A = true ->
     exists r : Value,
       norm v (p_kind p) = Ok r /\
       r = max_scan A (values v) (A.zero A) /\
       (r = A.zero A \/ exists x, In x (values v) /\ r = A.norm A x) /\
       ((forall x, In x (values v) ->
           A.gt A (A.norm A x) (A.zero A) = false) -> r = A.zero A) /\
       ((forall x : Scalar, A.gt A x x = false) ->
        (forall x y z : Scalar,
            A.gt A x y = true -> A.gt A y z = true -> A.gt A x z = true) ->
        (r = A.zero A \/ A.gt A r (A.zero A) = true) /\
        forall x, In x (values v) -> A.gt A (A.norm A x) r = false)).
Proof.
  intros Hrank Hp A.
  assert (E : norm v (p_kind p) =
              if negb (A.symbols_Real A) then Err (ArithmeticError "Real")
              else Ok (max_scan A (values v) (A.zero A))).
  { unfold norm. rewrite Hrank. destruct Hp as [-> | ->]; reflexivity. }
  rewrite E. split; intros Hreal; rewrite Hreal; cbn [negb]; [reflexivity |].
  eexists. split; [reflexivity |]. split; [reflexivity |].
  split; [apply max_scan_element |].
  split; [apply max_scan_start |].
  intros Hirr Htrans. apply max_scan_upper; assumption.
Qed.

Lemma for_each_length {X Y : Type} (f : X -> result Y) (l : list X) :
  forall ys, for_each f l = Ok ys -> length ys = length l.
Proof.
  induction l as [| x l IH]; intros ys E; simpl in E.
  - injection E as <-. reflexivity.
  - apply bind_Ok in E as [y [_ E]]. apply bind_Ok in E as [ys' [E1 E2]].
    injection E2 as <-. simpl. f_equal. apply IH. exact E1.
Qed.

(** The scan of [matrixNorm] throws as soon as there is a column (or row):
    either [map] throws, or the call of [reduce] on its result does. *)
Lemma sum_scan_throws (A : Arithmetics) (cols : list DenseMatrix) (r : Value) :
  cols <> [] -> exists e, sum_scan A cols r = Err e.
Proof.
  destruct cols as [| col cols]; [congruence |]. intros _.
  cbn [sum_scan].
  destruct (DenseMatrix_map col (fun value _ => Def (A.norm A value)));
    cbn [bind DenseMatrix_reduce]; eauto.
Qed.

(** On a well-formed matrix, [norm(1)] and [norm('inf')] return no value. *)
Lemma matrixNorm_throws (M : DenseMatrix) :
  well_formed M -> length (size M) = 2%nat ->
  (exists e, norm M (p_kind (p_number (Finite 1))) = Err e) /\
  (exists e, norm M (p_kind p_inf) = Err e).
Proof.
  intros Hwf Hrank. unfold size in Hrank.
  destruct (well_formed_rank2 M Hwf Hrank)
    as (A & B & a & Hs & Hd & Hh & HA & HB & Hla & _).
  unfold norm, size. rewrite Hrank. unfold matrixNorm. cbn [Qeq_bool].
  replace (Qeq_bool 1 1) with true by reflexivity.
  destruct (A.symbols_Real (scalarArithmetics M)); cbn [negb]; [| eauto].
  split.
  - unfold columns, size. rewrite Hrank, Hd, Hs. cbn [Nat.eqb negb nth].
    destruct (for_each _ (upto B)) as [cols | e] eqn:E; cbn [bind]; [| eauto].
    apply sum_scan_throws. apply for_each_length in E.
    destruct (upto_head B HB) as [tl Etl]. rewrite Etl in E.
    destruct cols; [discriminate | congruence].
  - unfold rows, size. rewrite Hrank, Hd. cbn [Nat.eqb negb].
    destruct (for_each _ a) as [rs | e] eqn:E; cbn [bind]; [| eauto].
    apply sum_scan_throws. apply for_each_length in E.
    destruct a as [| a0 a]; [unfold js_length in Hla; simpl in Hla; lia |].
    destruct rs; [discriminate | congruence].
Qed.

End TensorFacts.

(** ** Tensors of plain numbers *)

Section NumberFacts.

#[local] Existing Instance number_types.

Variable number_div : Scalar -> Scalar -> Value.
Variable number_pow : Scalar -> jsNumber -> Value.
Variable number_fromNumber : jsNumber -> Value.
Variable number_format : list Z -> string.

#[local] Hint Extern 0 (@Host number_types) =>
  exact (number_host number_div number_pow number_fromNumber number_format)
  : typeclass_instances.

Local Abbreviation NA :=
  (Number_Arithmetics number_div number_pow number_fromNumber).

(** On numbers, [gt] is a strict order. *)
Lemma number_gt_irreflexive (x : Scalar) : A.gt NA x x = false.
Proof.
  cbn [A.gt Number_Arithmetics]. unfold num_cmp.
  destruct (to_num x) as [z |]; [| reflexivity].
  rewrite Z.gtb_ltb. apply Z.ltb_irrefl.
Qed.

Lemma number_gt_transitive (x y z : Scalar) :
  A.gt NA x y = true -> A.gt NA y z = true -> A.gt NA x z = true.
Proof.
  cbn [A.gt Number_Arithmetics]. unfold num_cmp.
  destruct (to_num x) as [a |], (to_num y) as [b |], (to_num z) as [c |];
    try discriminate.
  rewrite !Z.gtb_ltb, !Z.ltb_lt. lia.
Qed.

Lemma magnitude_not_below_zero (x : Scalar) :
  A.lt NA (A.norm NA x) (A.zero NA) = false.
Proof.
  cbn [A.lt A.norm A.zero Number_Arithmetics]. unfold num_op1.
  destruct (to_num x) as [z |]; cbn; [| reflexivity].
  apply Z.ltb_ge, Z.abs_nonneg.
Qed.

Lemma min_scan_zero (vs : list Scalar) :
  min_scan NA vs (A.zero NA) = A.zero NA.
Proof.
  induction vs as [| x vs IH]; [reflexivity |].
  unfold min_scan in *. cbn [fold_left].
  rewrite magnitude_not_below_zero. exact IH.
Qed.

(** C9.  On a tensor of rank one over the arithmetic of plain numbers,
    [norm('-inf')] returns [0] whatever the elements are; so it is not the
    magnitude of any element that is not zero, and never the least
    magnitude of a vector without zeros. *)
Theorem vectorNorm_neg_inf_is_zero (v : DenseMatrix) :
  scalarArithmetics v = NA ->
  length (size v) = 1%nat ->
  norm v (p_kind p_neg_inf) = Ok (Number (Int 0)) /\
  forall z, z <> 0 -> In (Def (Number (Int z))) (values v) ->
    norm v (p_kind p_neg_inf) <> Ok (A.norm NA (Def (Number (Int z)))).
Proof.
  intros HA Hrank.
  assert (E : norm v (p_kind p_neg_inf) = Ok (Number (Int 0))).
  { unfold norm. rewrite Hrank. unfold vectorNorm. rewrite HA.
    cbn [A.symbols_Real Number_Arithmetics negb].
    rewrite min_scan_zero. reflexivity. }
  split; [exact E |].
  intros z Hz _. rewrite E. cbn. intros Heq. injection Heq as Habs. lia.
Qed.

(** C1, at the matrix [[[1, -2], [-3, 4]]].  It is constructed with size
    [[2, 2]], and both [norm(1)] and [norm('inf')] throw on it: the
    columns and rows are [DenseMatrix] objects, [map] on one of them
    returns a [DenseMatrix], and that has no [reduce]. *)
Theorem matrixNorm_at_example :
  exists M,
    new_DenseMatrix (from_value (mat [[1; -2]; [-3; 4]])) None = Ok M /\
    size M = [2; 2] /\
    norm M (p_kind (p_number (Finite 1))) =
      Err (NativeTypeError "col.map(...).reduce is not a function") /\
    norm M (p_kind p_inf) =
      Err (NativeTypeError "col.map(...).reduce is not a function").
Proof.
  eexists. split; [reflexivity |]. repeat split.
Qed.

(** C3, at a vector of three numbers.  The in-place [resize] to the size
    [[-1]] throws the [TypeError] for an invalid size; after it the data of
    the receiver is what it was, and its size is [[-1]], not [[3]]. *)
Theorem resize_failure_at_example :
  exists t,
    new_DenseMatrix (from_value (vec [1; 2; 3])) None = Ok t /\
    size t = [3] /\
    (exists message,
        snd (resize t [-1] Undefined false) = Err (TypeError message)) /\
    _data (fst (resize t [-1] Undefined false)) = _data t /\
    size (fst (resize t [-1] Undefined false)) = [-1].
Proof.
  eexists. split; [reflexivity |].
  split; [reflexivity |]. split; [eexists; reflexivity |].
  split; reflexivity.
Qed.

End NumberFacts.

(** * Arrays as objects: reading and writing through the store *)

Section SharedFacts.

Context `{ScalarTypes}.

Lemma lookup_assign_same (h : Shared.arrays) (a : Shared.address)
    (xs ys : list Shared.slot) :
  Shared.lookup h a = Some ys ->
  Shared.lookup (Shared.assign h a xs) a = Some xs.
Proof.
  unfold Shared.lookup. revert a.
  induction h as [| y h IH]; intros [| a] E; simpl in *;
    try discriminate; auto.
Qed.

Lemma lookup_assign_other (h : Shared.arrays) (a b : Shared.address)
    (xs : list Shared.slot) :
  a <> b -> Shared.lookup (Shared.assign h a xs) b = Shared.lookup h b.
Proof.
  unfold Shared.lookup. revert a b.
  induction h as [| y h IH]; intros [| a] [| b] Hab; simpl;
    try reflexivity; try congruence.
  apply IH. congruence.
Qed.

Lemma slot_set_in_range (xs : list Shared.slot) (i : Z) (v : Shared.slot) :
  0 <= i < Z.of_nat (length xs) ->
  Shared.slot_set xs i v =
  firstn (Z.to_nat i) xs ++ v :: skipn (S (Z.to_nat i)) xs.
Proof.
  unfold Shared.slot_set. intros Hi.
  destruct (i <? 0) eqn:E; [apply Z.ltb_lt in E; lia |].
  cbv zeta.
  replace (Z.to_nat i - length xs)%nat with 0%nat by lia.
  reflexivity.
Qed.

Lemma slot_set_length (xs : list Shared.slot) (i : Z) (v : Shared.slot) :
  0 <= i < Z.of_nat (length xs) ->
  length (Shared.slot_set xs i v) = length xs.
Proof.
  intros Hi. rewrite slot_set_in_range by exact Hi.
  apply length_update. lia.
Qed.

Lemma slot_get_set_same (xs : list Shared.slot) (i : Z) (v : Shared.slot) :
  0 <= i < Z.of_nat (length xs) ->
  Shared.slot_get (Shared.slot_set xs i v) i = v.
Proof.
  intros Hi. rewrite slot_set_in_range by exact Hi. unfold Shared.slot_get.
  destruct (i <? 0) eqn:E; [apply Z.ltb_lt in E; lia |].
  apply nth_update_same. lia.
Qed.

Lemma slot_get_set_other (xs : list Shared.slot) (i j : Z) (v : Shared.slot) :
  0 <= i < Z.of_nat (length xs) -> j <> i ->
  Shared.slot_get (Shared.slot_set xs i v) j = Shared.slot_get xs j.
Proof.
  intros Hi Hj. rewrite slot_set_in_range by exact Hi. unfold Shared.slot_get.
  destruct (j <? 0) eqn:E; [reflexivity |]. apply Z.ltb_ge in E.
  apply nth_update_other; lia.
Qed.

Lemma slot_get_nth_error (xs : list Shared.slot) (i : Z) :
  0 <= i < Z.of_nat (length xs) ->
  nth_error xs (Z.to_nat i) = Some (Shared.slot_get xs i).
Proof.
  intros Hi. unfold Shared.slot_get.
  destruct (i <? 0) eqn:E; [apply Z.ltb_lt in E; lia |].
  apply nth_error_nth'. lia.
Qed.

Lemma slot_get_cases (xs : list Shared.slot) (i : Z) :
  Shared.slot_get xs i = Shared.Empty_slot \/ In (Shared.slot_get xs i) xs.
Proof.
  unfold Shared.slot_get. destruct (i <? 0); [left; reflexivity |].
  destruct (Nat.lt_ge_cases (Z.to_nat i) (length xs)) as [Hlt | Hge].
  - right. apply nth_In. exact Hlt.
  - left. apply nth_overflow. exact Hge.
Qed.

Lemma collect_Forall2 {X Y : Type} (f : X -> option Y) (xs : list X) :
  forall ys, Shared.collect (map f xs) = Some ys <->
             Forall2 (fun x y => f x = Some y) xs ys.
Proof.
  induction xs as [| x xs IH]; intros ys; cbn [map Shared.collect].
  - split.
    + intros E. injection E as <-. constructor.
    + intros E. inversion E. reflexivity.
  - split.
    + destruct (f x) as [y |] eqn:Ex; [| discriminate].
      destruct (Shared.collect (map f xs)) as [ys' |] eqn:Ec; [| discriminate].
      intros E. injection E as <-. constructor; [exact Ex |].
      apply IH. reflexivity.
    + intros E. inversion E as [| ? y ? ys' Ex Er]; subst.
      rewrite Ex. apply IH in Er. rewrite Er. reflexivity.
Qed.

(** What [footprint] says of an array. *)
Lemma footprint_cons (h : Shared.arrays) (n : Z) (sz : list Z)
    (s : Shared.slot) (F : list Shared.address) :
  Shared.footprint h (n :: sz) s = Some F <->
  exists a xs below,
    s = Shared.Array_slot a /\
    Shared.lookup h a = Some xs /\
    Z.of_nat (length xs) = n /\
    Forall2 (fun x Fx => Shared.footprint h sz x = Some Fx) xs below /\
    F = a :: concat below.
Proof.
  cbn [Shared.footprint]. split.
  - destruct s as [v | a |]; [discriminate | | discriminate].
    destruct (Shared.lookup h a) as [xs |] eqn:El; [| discriminate].
    destruct (Z.of_nat (length xs) =? n) eqn:En; [| discriminate].
    destruct (Shared.collect (map (Shared.footprint h sz) xs))
      as [below |] eqn:Ec; [| discriminate].
    intros E. injection E as <-. apply Z.eqb_eq in En.
    apply collect_Forall2 in Ec. exists a, xs, below. auto.
  - intros (a & xs & below & -> & El & En & Hall & ->).
    rewrite El. apply Z.eqb_eq in En. rewrite En.
    apply collect_Forall2 in Hall. rewrite Hall. reflexivity.
Qed.

Lemma Forall2_at {X Y : Type} (R : X -> Y -> Prop) (xs : list X) (ys : list Y) :
  Forall2 R xs ys ->
  forall k x, nth_error xs k = Some x ->
              exists y, nth_error ys k = Some y /\ R x y.
Proof.
  induction 1 as [| x0 y0 xs ys H0 _ IH]; intros k x E.
  - destruct k; discriminate.
  - destruct k as [| k]; simpl in E.
    + injection E as <-. exists y0. auto.
    + apply IH. exact E.
Qed.

Lemma Forall2_by_index {X Y : Type} (R : X -> Y -> Prop) (xs : list X) :
  forall ys,
    length xs = length ys ->
    (forall k x y, nth_error xs k = Some x -> nth_error ys k = Some y -> R x y) ->
    Forall2 R xs ys.
Proof.
  induction xs as [| x xs IH]; intros [| y ys] Hlen Hall;
    try discriminate; constructor.
  - apply (Hall 0%nat); reflexivity.
  - apply IH; [simpl in Hlen; congruence |].
    intros k x' y' Ex Ey. apply (Hall (S k)); assumption.
Qed.

Lemma concat_at {X : Type} (below : list (list X)) :
  forall k Fk x, nth_error below k = Some Fk -> In x Fk -> In x (concat below).
Proof.
  induction below as [| F0 below IH]; intros k Fk x E Hx.
  - destruct k; discriminate.
  - cbn [concat]. apply in_or_app. destruct k as [| k]; simpl in E.
    + injection E as <-. left. exact Hx.
    + right. eapply IH; eassumption.
Qed.

Lemma NoDup_concat_at {X : Type} (below : list (list X)) :
  NoDup (concat below) ->
  forall k Fk, nth_error below k = Some Fk -> NoDup Fk.
Proof.
  induction below as [| F0 below IH]; intros Hnd k Fk E.
  - destruct k; discriminate.
  - cbn [concat] in Hnd. destruct k as [| k]; simpl in E.
    + injection E as <-. eapply NoDup_app_remove_r. exact Hnd.
    + eapply IH; [eapply NoDup_app_remove_l; exact Hnd | exact E].
Qed.

Lemma NoDup_app_disjoint {X : Type} (l1 l2 : list X) (x : X) :
  NoDup (l1 ++ l2) -> In x l1 -> In x l2 -> False.
Proof.
  induction l1 as [| y l1 IH]; intros Hnd H1 H2; [contradiction |].
  cbn [app] in Hnd. inversion Hnd as [| ? ? Hy Hnd']; subst.
  destruct H1 as [-> | H1].
  - apply Hy. apply in_or_app. right. exact H2.
  - exact (IH Hnd' H1 H2).
Qed.

Lemma NoDup_concat_disjoint {X : Type} (below : list (list X)) :
  NoDup (concat below) ->
  forall i k Fi Fk x,
    nth_error below i = Some Fi -> nth_error below k = Some Fk -> i <> k ->
    In x Fi -> In x Fk -> False.
Proof.
  induction below as [| F0 below IH]; intros Hnd i k Fi Fk x Ei Ek Hik Hi Hk.
  - destruct i; discriminate.
  - cbn [concat] in Hnd.
    destruct i as [| i]; destruct k as [| k]; simpl in Ei, Ek;
      [congruence | | |].
    + injection Ei as <-.
      exact (NoDup_app_disjoint _ _ _ Hnd Hi (concat_at _ _ _ _ Ek Hk)).
    + injection Ek as <-.
      exact (NoDup_app_disjoint _ _ _ Hnd Hk (concat_at _ _ _ _ Ei Hi)).
    + eapply (IH (NoDup_app_remove_l _ _ Hnd) i k); eauto.
Qed.

Lemma walk_end (h h' : Shared.arrays) (s : Shared.slot) :
  Shared.footprint h [] s <> None -> forall idx,
  Shared.walk h' s idx = Shared.walk h s idx.
Proof.
  intros Hs idx. destruct s as [v | a |]; [| cbn in Hs; congruence |];
    destruct idx; reflexivity.
Qed.

(** An assignment to an array that the data does not reach changes neither
    what is read from the data nor its footprint. *)
Lemma assign_frame (h : Shared.arrays) (a : Shared.address)
    (ys : list Shared.slot) (sz : list Z) :
  forall s F,
    Shared.footprint h sz s = Some F -> ~ In a F ->
    Shared.footprint (Shared.assign h a ys) sz s = Some F /\
    forall idx, Shared.walk (Shared.assign h a ys) s idx = Shared.walk h s idx.
Proof.
  induction sz as [| n sz IH]; intros s F HF Ha.
  - split.
    + destruct s; cbn in *; congruence.
    + apply walk_end. congruence.
  - apply footprint_cons in HF as (b & xs & below & -> & El & En & Hall & ->).
    assert (Hab : a <> b) by (intros ->; apply Ha; left; reflexivity).
    assert (Hbelow : ~ In a (concat below))
      by (intros Hin; apply Ha; right; exact Hin).
    assert (Heach : forall k x Fx,
              nth_error xs k = Some x -> nth_error below k = Some Fx ->
              Shared.footprint (Shared.assign h a ys) sz x = Some Fx /\
              forall idx, Shared.walk (Shared.assign h a ys) x idx =
                          Shared.walk h x idx).
    { intros k x Fx Ex EF.
      destruct (Forall2_at _ _ _ Hall k x Ex) as [Fx' [EF' HFx]].
      assert (Fx' = Fx) by congruence. subst Fx'.
      apply IH; [exact HFx |].
      intros Hin. apply Hbelow. eapply concat_at; eassumption. }
    split.
    + apply footprint_cons. exists b, xs, below.
      split; [reflexivity |].
      split; [rewrite lookup_assign_other by exact Hab; exact El |].
      split; [exact En |]. split; [| reflexivity].
      apply Forall2_by_index; [eapply Forall2_length; exact Hall |].
      intros k x Fx Ex EF. apply (Heach k x Fx Ex EF).
    + intros [| i idx]; [reflexivity |]. cbn [Shared.walk].
      rewrite lookup_assign_other by exact Hab. rewrite El.
      destruct (slot_get_cases xs i) as [E | Hin].
      * rewrite E. destruct idx; reflexivity.
      * apply In_nth_error in Hin as [k Ek].
        destruct (Forall2_at _ _ _ Hall k _ Ek) as [Fx [EF _]].
        rewrite (proj2 (Heach k _ Fx Ek EF)). reflexivity.
Qed.

Lemma Forall2_update {X Y : Type} (R : X -> Y -> Prop) (xs : list X)
    (ys : list Y) (v : X) :
  Forall2 R xs ys ->
  forall n, (forall y, nth_error ys n = Some y -> R v y) ->
            Forall2 R (firstn n xs ++ v :: skipn (S n) xs) ys \/
            (length xs <= n)%nat.
Proof.
  induction 1 as [| x y xs ys Hxy Hall IH]; intros n Hv.
  - right. simpl. lia.
  - destruct n as [| n].
    + left. cbn [firstn skipn app]. constructor; [apply Hv; reflexivity |].
      exact Hall.
    + destruct (IH n) as [I | I].
      * intros y' Ey. apply Hv. exact Ey.
      * left. cbn [firstn skipn app]. constructor; assumption.
      * right. simpl. lia.
Qed.

(** Where [set] writes, and what the write does to the data that is read
    from an array whose data is regular and reaches no array twice. *)
Lemma assign_walk (h : Shared.arrays) (v : Scalar) (sz : list Z) :
  forall (a : Shared.address) (F : list Shared.address) (idx : list Z),
    Shared.footprint h sz (Shared.Array_slot a) = Some F ->
    NoDup F ->
    valid_index sz idx ->
    exists arr xs,
      Shared.retrieveTopArrayByIndex h a idx = Ok arr /\
      Shared.lookup h arr = Some xs /\
      In arr F /\
      let h' :=
        Shared.assign h arr
          (Shared.slot_set xs (last idx 0) (Shared.Scalar_slot v)) in
      Shared.walk h' (Shared.Array_slot a) idx = Ok v /\
      (forall j, valid_index sz j -> j <> idx ->
         Shared.walk h' (Shared.Array_slot a) j =
         Shared.walk h (Shared.Array_slot a) j) /\
      Shared.footprint h' sz (Shared.Array_slot a) = Some F.
Proof.
  induction sz as [| n sz IH]; intros a F idx HF Hnd Hv; [discriminate |].
  apply footprint_cons in HF as (b & xs & below & Eb & El & En & Hall & ->).
  injection Eb as <-.
  destruct idx as [| i idx]; [inversion Hv |].
  apply valid_index_cons in Hv as [Hi Hv].
  inversion Hnd as [| ? ? Ha Hbelow]; subst.
  pose proof (slot_get_nth_error xs i ltac:(lia)) as Exi.
  destruct (Forall2_at _ _ _ Hall _ _ Exi) as [Fi [EFi HFi]].
  destruct sz as [| m sz].
  - (* the last component *)
    inversion Hv; subst. clear IH.
    exists a, xs. cbn [Shared.retrieveTopArrayByIndex last].
    split; [reflexivity |]. split; [exact El |].
    split; [left; reflexivity |]. cbv zeta.
    set (xs' := Shared.slot_set xs i (Shared.Scalar_slot v)).
    assert (El' : Shared.lookup (Shared.assign h a xs') a = Some xs')
      by (eapply lookup_assign_same; exact El).
    assert (Hlen' : length xs' = length xs)
      by (apply slot_set_length; lia).
    split; [| split].
    + cbn [Shared.walk]. rewrite El', Hlen'.
      rewrite validateIndex_Ok by lia. cbn [bind].
      unfold xs'. rewrite slot_get_set_same by lia. reflexivity.
    + intros j Hj Hne. destruct j as [| k j]; [inversion Hj |].
      apply valid_index_cons in Hj as [Hk Hj]. inversion Hj; subst.
      assert (Hki : k <> i) by congruence.
      cbn [Shared.walk]. rewrite El', El, Hlen'.
      unfold xs'. rewrite slot_get_set_other by lia.
      destruct (Shared.slot_get xs k); reflexivity.
    + apply footprint_cons. exists a, xs', below.
      split; [reflexivity |]. split; [exact El' |].
      split; [lia |]. split; [| reflexivity].
      unfold xs'. rewrite slot_set_in_range by lia.
      destruct (Forall2_update _ _ _ (Shared.Scalar_slot v)
                  (Forall2_impl _ (fun x Fx (E : Shared.footprint h [] x = Some Fx) =>
                                     (E : Shared.footprint (Shared.assign h a xs') [] x = Some Fx))
                     Hall)
                  (Z.to_nat i)) as [I | I]; [| exact I | lia].
      intros y Ey. assert (y = Fi) by congruence. subst y.
      destruct (Shared.slot_get xs i); cbn in HFi |- *; congruence.
  - (* an outer component *)
    destruct idx as [| i' idx']; [inversion Hv |].
    apply footprint_cons in HFi as HFi'.
    destruct HFi' as (ai & xsi & belowi & Eai & _).
    destruct (IH ai Fi (i' :: idx') ltac:(rewrite <- Eai; exact HFi)
                (NoDup_concat_at _ Hbelow _ _ EFi) Hv)
      as (arr & ys & Er & Ela & Harr & Hw & Hothers & Hfoot).
    cbv zeta in Hw, Hothers, Hfoot.
    exists arr, ys.
    assert (Hin : In arr (concat below)) by (eapply concat_at; eassumption).
    assert (Hne : arr <> a) by (intros ->; exact (Ha Hin)).
    split; [| split; [exact Ela | split; [right; exact Hin |]]].
    { cbn [Shared.retrieveTopArrayByIndex]. rewrite El.
      rewrite validateIndex_Ok by lia. cbn [bind]. rewrite Eai. exact Er. }
    cbv zeta.
    change (last (i :: i' :: idx') 0) with (last (i' :: idx') 0).
    set (h' := Shared.assign h arr
                 (Shared.slot_set ys (last (i' :: idx') 0)
                    (Shared.Scalar_slot v))) in *.
    assert (El' : Shared.lookup h' a = Some xs)
      by (unfold h'; rewrite lookup_assign_other by exact Hne; exact El).
    split; [| split].
    + cbn [Shared.walk]. rewrite El'.
      rewrite validateIndex_Ok by lia. cbn [bind]. rewrite Eai. exact Hw.
    + intros j Hj Hjne. destruct j as [| k j]; [inversion Hj |].
      apply valid_index_cons in Hj as [Hk Hj].
      cbn [Shared.walk]. rewrite El', El.
      assert (Hwk : Shared.walk h' (Shared.slot_get xs k) j =
                    Shared.walk h (Shared.slot_get xs k) j);
        [| rewrite Hwk; reflexivity].
      destruct (Z.eq_dec k i) as [-> | Hki].
      * rewrite Eai. apply Hothers; [exact Hj | congruence].
      * pose proof (slot_get_nth_error xs k ltac:(lia)) as Exk.
        destruct (Forall2_at _ _ _ Hall _ _ Exk) as [Fk [EFk HFk]].
        apply (assign_frame h arr _ _ _ Fk HFk).
        intros Hink.
        apply (NoDup_concat_disjoint _ Hbelow (Z.to_nat i) (Z.to_nat k)
                 Fi Fk arr EFi EFk ltac:(lia) Harr Hink).
    + apply footprint_cons. exists a, xs, below.
      split; [reflexivity |]. split; [exact El' |].
      split; [reflexivity |]. split; [| reflexivity].
      apply Forall2_by_index; [eapply Forall2_length; exact Hall |].
      intros k x Fk Ex EFk.
      destruct (Nat.eq_dec k (Z.to_nat i)) as [-> | Hki].
      * assert (x = Shared.slot_get xs i) by congruence.
        assert (Fk = Fi) by congruence. subst x Fk.
        rewrite Eai. exact Hfoot.
      * destruct (Forall2_at _ _ _ Hall _ _ Ex) as [Fk' [EFk' HFk]].
        assert (Fk' = Fk) by congruence. subst Fk'.
        apply (assign_frame h arr _ _ _ Fk HFk).
        intros Hink.
        apply (NoDup_concat_disjoint _ Hbelow (Z.to_nat i) k
                 Fi Fk arr EFi EFk ltac:(lia) Harr Hink).
Qed.

(** C5, as the code has it.  On a tensor whose data is regular for its size
    and reaches no array twice ([footprint] gives a list without
    repetition), [set] at a valid index succeeds; after it, [get] at that
    index returns the value written, [get] at every other index returns
    what it returned before, and the data is regular and unshared as
    before. *)
Theorem set_then_get_unshared (h : Shared.arrays) (t : Shared.DenseMatrix)
    (idx : list Z) (v : Scalar) (F : list Shared.address) :
  Shared.footprint h (Shared._size t) (Shared.Array_slot (Shared._data t)) =
    Some F ->
  NoDup F ->
  valid_index (Shared._size t) idx ->
  exists h',
    Shared.set h t idx v = Ok h' /\
    Shared.get h' t idx = Ok v /\
    (forall j, j <> idx -> Shared.get h' t j = Shared.get h t j) /\
    Shared.footprint h' (Shared._size t) (Shared.Array_slot (Shared._data t)) =
      Some F.
Proof.
  intros HF Hnd Hv.
  destruct (assign_walk h v _ _ _ _ HF Hnd Hv)
    as (arr & xs & Er & El & _ & Hw & Hothers & Hfoot).
  cbv zeta in Hw, Hothers, Hfoot.
  eexists. split; [| split; [| split]].
  - unfold Shared.set. rewrite (valid_index_length _ _ Hv), Nat.ltb_irrefl.
    rewrite Er. cbn [bind].
    destruct idx as [| i idx]; [| rewrite El; reflexivity].
    assert (Es : Shared._size t = []) by (inversion Hv; congruence).
    rewrite Es in HF. discriminate.
  - unfold Shared.get. rewrite (valid_index_length _ _ Hv), Nat.eqb_refl.
    cbn [negb]. rewrite check_index_valid by exact Hv. exact Hw.
  - intros j Hj. unfold Shared.get.
    destruct (length j =? length (Shared._size t))%nat eqn:Elen;
      [| reflexivity].
    cbn [negb]. apply Nat.eqb_eq in Elen.
    destruct (check_index j (Shared._size t)) as [[] | e] eqn:Ec;
      [| reflexivity].
    cbn [bind]. apply Hothers; [| exact Hj].
    apply check_index_inv; assumption.
  - exact Hfoot.
Qed.

(** *** The value of the data

    Where the data is regular and reaches no array twice, the nested array
    as a value is a faithful view of the store: [get] and [set] on the value
    are [get] and [set] on the store. *)

Lemma footprint_In (h : Shared.arrays) (sz : list Z) (xs : list Shared.slot)
    (below : list (list Shared.address)) (x : Shared.slot) :
  Forall2 (fun x Fx => Shared.footprint h sz x = Some Fx) xs below ->
  In x xs ->
  exists Fx, Shared.footprint h sz x = Some Fx /\
             forall a, In a Fx -> In a (concat below).
Proof.
  intros Hall Hin. apply In_nth_error in Hin as [k Ek].
  destruct (Forall2_at _ _ _ Hall k x Ek) as [Fx [EF HF]].
  exists Fx. split; [exact HF |]. intros a Ha. eapply concat_at; eassumption.
Qed.

Lemma value_of_frame (h : Shared.arrays) (a : Shared.address)
    (ys : list Shared.slot) (sz : list Z) :
  forall s F,
    Shared.footprint h sz s = Some F -> ~ In a F ->
    Shared.value_of (Shared.assign h a ys) (length sz) s =
    Shared.value_of h (length sz) s.
Proof.
  induction sz as [| n sz IH]; intros s F HF Ha.
  - destruct s; reflexivity.
  - apply footprint_cons in HF as (b & xs & below & -> & El & En & Hall & ->).
    assert (Hab : a <> b) by (intros ->; apply Ha; left; reflexivity).
    cbn [length Shared.value_of].
    rewrite lookup_assign_other by exact Hab. rewrite El. f_equal.
    apply map_ext_in. intros x Hx.
    destruct (footprint_In _ _ _ _ _ Hall Hx) as [Fx [HFx Hsub]].
    apply (IH x Fx HFx). intros Hin. apply Ha. right. apply Hsub. exact Hin.
Qed.

Lemma walk_value_of (h : Shared.arrays) (sz : list Z) :
  forall s F idx,
    Shared.footprint h sz s = Some F ->
    walk (Shared.value_of h (length sz) s) idx = Shared.walk h s idx.
Proof.
  induction sz as [| n sz IH]; intros s F idx HF.
  - destruct s as [v | a |]; [| discriminate |]; destruct idx; reflexivity.
  - apply footprint_cons in HF as (b & xs & below & -> & El & En & Hall & ->).
    cbn [length Shared.value_of]. rewrite El.
    destruct idx as [| i idx]; [reflexivity |].
    rewrite walk_cons. cbn [Shared.walk]. rewrite El.
    unfold js_length. rewrite length_map.
    destruct (validateIndex i (Z.of_nat (length xs))) as [[] | e] eqn:Ei;
      [| reflexivity].
    cbn [bind]. apply validateIndex_inv in Ei.
    assert (Eg : js_get (map (Shared.value_of h (length sz)) xs) i =
                 Shared.value_of h (length sz) (Shared.slot_get xs i)).
    { unfold js_get, Shared.slot_get.
      destruct (i <? 0) eqn:E; [apply Z.ltb_lt in E; lia |].
      rewrite nth_indep
        with (d' := Shared.value_of h (length sz) Shared.Empty_slot)
        by (rewrite length_map; lia).
      apply map_nth. }
    rewrite Eg.
    pose proof (slot_get_nth_error xs i Ei) as Exi.
    destruct (Forall2_at _ _ _ Hall _ _ Exi) as [Fi [_ HFi]].
    apply (IH _ Fi idx HFi).
Qed.

Lemma map_update {X Y : Type} (f f' : X -> Y) (xs : list X) (d : X) :
  forall n,
    (n < length xs)%nat ->
    (forall k x, nth_error xs k = Some x -> k <> n -> f' x = f x) ->
    map f' xs =
    firstn n (map f xs) ++ f' (nth n xs d) :: skipn (S n) (map f xs).
Proof.
  induction xs as [| x xs IH]; intros n Hn Hf; simpl in Hn; [lia |].
  destruct n as [| n]; cbn [map firstn skipn nth app].
  - f_equal. apply map_ext_in. intros y Hy.
    apply In_nth_error in Hy as [k Ek]. apply (Hf (S k) y Ek). discriminate.
  - rewrite (Hf 0%nat x eq_refl) by discriminate. f_equal.
    apply IH; [lia |]. intros k y Ek Hk. apply (Hf (S k) y Ek). lia.
Qed.

Lemma assign_value (h : Shared.arrays) (v : Scalar) (sz : list Z) :
  forall (a : Shared.address) (F : list Shared.address) (idx : list Z)
         (arr : Shared.address) (ys : list Shared.slot),
    Shared.footprint h sz (Shared.Array_slot a) = Some F ->
    NoDup F ->
    valid_index sz idx ->
    Shared.retrieveTopArrayByIndex h a idx = Ok arr ->
    Shared.lookup h arr = Some ys ->
    store (Shared.value_of h (length sz) (Shared.Array_slot a)) idx v =
    Ok (Shared.value_of
          (Shared.assign h arr
             (Shared.slot_set ys (last idx 0) (Shared.Scalar_slot v)))
          (length sz) (Shared.Array_slot a)).
Proof.
  induction sz as [| n sz IH]; intros a F idx arr ys HF Hnd Hv Er Ela;
    [discriminate |].
  pose proof HF as HF0.
  apply footprint_cons in HF as (b & xs & below & Eb & El & En & Hall & ->).
  injection Eb as <-.
  destruct idx as [| i idx]; [inversion Hv |].
  apply valid_index_cons in Hv as [Hi Hv].
  inversion Hnd as [| ? ? Ha Hbelow]; subst.
  pose proof (slot_get_nth_error xs i ltac:(lia)) as Exi.
  destruct (Forall2_at _ _ _ Hall _ _ Exi) as [Fi [EFi HFi]].
  cbn [length Shared.value_of]. rewrite El.
  destruct sz as [| m sz].
  - (* the last component *)
    inversion Hv; subst. clear IH.
    cbn [Shared.retrieveTopArrayByIndex] in Er. injection Er as <-.
    assert (ys = xs) by congruence. subst ys.
    cbn [last store].
    rewrite (lookup_assign_same _ _ _ _ El). do 2 f_equal.
    rewrite js_set_in_range by (unfold js_length; rewrite length_map; lia).
    rewrite slot_set_in_range by lia.
    rewrite map_app, firstn_map, skipn_map. reflexivity.
  - (* an outer component *)
    destruct idx as [| i' idx']; [inversion Hv |].
    apply footprint_cons in HFi as HFi'.
    destruct HFi' as (ai & xsi & belowi & Eai & _).
    rewrite Eai in HFi.
    cbn [Shared.retrieveTopArrayByIndex] in Er. rewrite El in Er.
    rewrite validateIndex_Ok in Er by lia. cbn [bind] in Er.
    rewrite Eai in Er.
    change (Shared.retrieveTopArrayByIndex h ai (i' :: idx') = Ok arr) in Er.
    pose proof (NoDup_concat_at _ Hbelow _ _ EFi) as Hndi.
    destruct (assign_walk h v _ _ _ _ HFi Hndi Hv)
      as (arr' & ys' & Er' & _ & Harr & _).
    assert (arr' = arr) by congruence. subst arr'.
    assert (Hin : In arr (concat below)) by (eapply concat_at; eassumption).
    assert (Hne : arr <> a) by (intros ->; exact (Ha Hin)).
    rewrite store_cons. unfold js_length at 1. rewrite length_map.
    rewrite validateIndex_Ok by lia. cbn [bind].
    change (last (i :: i' :: idx') 0) with (last (i' :: idx') 0).
    set (h' := Shared.assign h arr
                 (Shared.slot_set ys (last (i' :: idx') 0)
                    (Shared.Scalar_slot v))).
    assert (Eg : js_get (map (Shared.value_of h (length (m :: sz))) xs) i =
                 Shared.value_of h (length (m :: sz)) (Shared.Array_slot ai)).
    { unfold js_get. rewrite <- Eai. unfold Shared.slot_get.
      destruct (i <? 0) eqn:E; [apply Z.ltb_lt in E; lia |].
      rewrite nth_indep
        with (d' := Shared.value_of h (length (m :: sz)) Shared.Empty_slot)
        by (rewrite length_map; lia).
      apply map_nth. }
    rewrite Eg.
    rewrite (IH ai Fi (i' :: idx') arr ys HFi Hndi Hv Er Ela). cbn [bind].
    fold h'. unfold h' at 2. rewrite lookup_assign_other by exact Hne.
    rewrite El. do 2 f_equal.
    rewrite js_set_in_range by (unfold js_length; rewrite length_map; lia).
    rewrite (map_update (Shared.value_of h (length (m :: sz)))
               (Shared.value_of h' (length (m :: sz))) xs Shared.Empty_slot
               (Z.to_nat i) ltac:(lia)).
    + f_equal. f_equal. rewrite <- Eai. unfold Shared.slot_get.
      destruct (i <? 0) eqn:E; [apply Z.ltb_lt in E; lia | reflexivity].
    + intros k x Ex Hk.
      destruct (Forall2_at _ _ _ Hall _ _ Ex) as [Fk [EFk HFk]].
      apply (value_of_frame h arr _ _ _ Fk HFk).
      intros Hink.
      apply (NoDup_concat_disjoint _ Hbelow (Z.to_nat i) k
               Fi Fk arr EFi EFk ltac:(lia) Harr Hink).
Qed.

(** [get] and [set] of a tensor whose data is the value of what the store
    holds. *)
Lemma store_as_value (h : Shared.arrays) (t : Shared.DenseMatrix)
    (m : DenseMatrix) (F : list Shared.address) :
  Shared.footprint h (Shared._size t) (Shared.Array_slot (Shared._data t)) =
    Some F ->
  _data m = Shared.value_of h (length (Shared._size t))
              (Shared.Array_slot (Shared._data t)) ->
  _size m = Shared._size t ->
  (forall idx, get m idx = Shared.get h t idx) /\
  (NoDup F ->
   forall idx v, valid_index (Shared._size t) idx ->
     exists h',
       Shared.set h t idx v = Ok h' /\
       set m idx v =
       Ok (with_data m
             (Shared.value_of h' (length (Shared._size t))
                (Shared.Array_slot (Shared._data t))))).
Proof.
  intros HF Hd Hs. split.
  - intros idx. unfold get, Shared.get. rewrite Hs, Hd.
    rewrite (walk_value_of h _ _ F idx HF). reflexivity.
  - intros Hnd idx v Hv.
    destruct (assign_walk h v _ _ _ _ HF Hnd Hv)
      as (arr & xs & Er & El & _).
    eexists. split.
    + unfold Shared.set. rewrite (valid_index_length _ _ Hv), Nat.ltb_irrefl.
      rewrite Er. cbn [bind].
      destruct idx as [| i idx]; [| rewrite El; reflexivity].
      assert (Es : Shared._size t = []) by (inversion Hv; congruence).
      rewrite Es in HF. discriminate.
    + unfold set. rewrite Hs, (valid_index_length _ _ Hv), Nat.ltb_irrefl.
      rewrite Hd.
      rewrite (assign_value h v _ _ F idx arr xs HF Hnd Hv Er El).
      reflexivity.
Qed.

End SharedFacts.

(** ** The statements at the examples *)

Section Examples.

#[local] Existing Instance number_types.
#[local] Existing Instance example_host.

Ltac example_well_formed :=
  split; [reflexivity | split; [discriminate | repeat constructor]].

Ltac example_index := repeat constructor; lia.

Lemma inhomogeneous_example : inhomogeneous (Arr [vec [1; 2]; vec [3]]).
Proof.
  exists 1%nat, 2, 1. simpl. split; [auto |]. split; [auto | lia].
Qed.

(** C2 does not hold of every irregular input: the nested array
    [[[1, 2], [3]]] has sibling arrays of lengths two and one, and the
    constructor accepts it. *)
Lemma constructor_accepts_irregular_array :
  ~ (forall x : MultidimArray,
        inhomogeneous x ->
        forall dt, is_ok (new_DenseMatrix (from_value x) dt) = false).
Proof.
  intros Hclaim.
  specialize (Hclaim (Arr [vec [1; 2]; vec [3]]) inhomogeneous_example None).
  discriminate Hclaim.
Qed.

Lemma constructor_needs_first_leaf_witness :
  (first_entry (Arr []) = Undefined /\
   new_DenseMatrix (from_value (Arr [])) None =
     Err (NativeTypeError "el[symbols.Arithmetics]")) /\
  (first_entry (Arr [Arr []; Arr []]) = Undefined /\
   new_DenseMatrix (from_value (Arr [Arr []; Arr []])) None =
     Err (NativeTypeError "el[symbols.Arithmetics]")) /\
  (new_DenseMatrix (from_value (vec [3; -4])) None = Ok example_vector /\
   (exists v, first_entry (_data example_vector) = Def v) /\
   Forall (fun n => 0 < n) (arraySize (_data example_vector))).
Proof.
  split; [| split].
  - split; [reflexivity |].
    exact (proj1 (constructor_needs_first_leaf (from_value (Arr [])) None)
             [] eq_refl eq_refl).
  - split; [reflexivity |].
    exact (proj1 (constructor_needs_first_leaf
                    (from_value (Arr [Arr []; Arr []])) None)
             [Arr []; Arr []] eq_refl eq_refl).
  - split; [reflexivity |].
    exact (proj2 (constructor_needs_first_leaf (from_value (vec [3; -4])) None)
             example_vector eq_refl).
Defined.

Lemma constructor_does_not_validate_witness :
  first_entry (Arr [vec [1; 2]; vec [3]]) = Def (Number (Int 1)) /\
  (exists m,
      new_DenseMatrix (from_value (Arr [vec [1; 2]; vec [3]])) None = Ok m /\
      _data m = Arr [vec [1; 2]; vec [3]] /\
      size m = arraySize (Arr [vec [1; 2]; vec [3]])) /\
  (inhomogeneous (Arr [vec [1; 2]; vec [3]]) ->
   exists actual expected relation,
     validate (Arr [vec [1; 2]; vec [3]]) (arraySize (Arr [vec [1; 2]; vec [3]])) =
     Err (DimensionError actual expected relation)).
Proof.
  split; [reflexivity |].
  apply (@constructor_does_not_validate number_types example_host
           [vec [1; 2]; vec [3]] None (@Number number_types (Int 1))).
  reflexivity.
Defined.

(** C5 does not hold of every tensor.  The constructor accepts the
    irregular array [[[1, 2], []]] with size [[2, 2]]; there [set] at
    [[1, 1]] lengthens the second row, and [get] at [[1, 0]], which threw an
    [IndexError], returns [undefined] afterwards.  And with [r = [1, 2]],
    the data of [new DenseMatrix([r, r])] holds [r] twice: [set] at
    [[0, 0]] writes into [r], and [get] at [[1, 0]] returns the value
    written instead of the 1 that it returned before. *)
Lemma set_changes_another_element :
  ((exists t,
      new_DenseMatrix (from_value (Arr [vec [1; 2]; Arr []])) None = Ok t /\
      size t = [2; 2]) /\
   Shared.value_of irregular_rows 2 (Shared.Array_slot 0%nat) =
     Arr [vec [1; 2]; Arr []] /\
   valid_index [2; 2] [1; 1] /\ valid_index [2; 2] [1; 0] /\
   Shared.get irregular_rows (stored 0%nat [2; 2]) [1; 0] =
     Err (IndexError 0 0) /\
   exists h',
     Shared.set irregular_rows (stored 0%nat [2; 2]) [1; 1]
       (Def (Number (Int 9))) = Ok h' /\
     Shared.get h' (stored 0%nat [2; 2]) [1; 0] = Ok Undefined) /\
  ((exists t,
      new_DenseMatrix (from_value (Arr [vec [1; 2]; vec [1; 2]])) None = Ok t /\
      size t = [2; 2]) /\
   Shared.value_of shared_rows 2 (Shared.Array_slot 0%nat) =
     Arr [vec [1; 2]; vec [1; 2]] /\
   valid_index [2; 2] [0; 0] /\ valid_index [2; 2] [1; 0] /\
   Shared.get shared_rows (stored 0%nat [2; 2]) [1; 0] =
     Ok (Def (Number (Int 1))) /\
   exists h',
     Shared.set shared_rows (stored 0%nat [2; 2]) [0; 0]
       (Def (Number (Int 9))) = Ok h' /\
     Shared.get h' (stored 0%nat [2; 2]) [1; 0] = Ok (Def (Number (Int 9)))).
Proof.
  split.
  - split; [eexists; split; reflexivity |]. split; [reflexivity |].
    split; [example_index |]. split; [example_index |].
    split; [reflexivity |]. eexists. split; reflexivity.
  - split; [eexists; split; reflexivity |]. split; [reflexivity |].
    split; [example_index |]. split; [example_index |].
    split; [reflexivity |]. eexists. split; reflexivity.
Qed.

Lemma set_then_get_unshared_witness :
  Shared.footprint separate_rows [2; 2] (Shared.Array_slot 0%nat) =
    Some [0; 1; 2]%nat /\
  NoDup [0; 1; 2]%nat /\
  valid_index [2; 2] [1; 0] /\
  exists h',
    Shared.set separate_rows (stored 0%nat [2; 2]) [1; 0]
      (Def (Number (Int 9))) = Ok h' /\
    Shared.get h' (stored 0%nat [2; 2]) [1; 0] = Ok (Def (Number (Int 9))) /\
    (forall j, j <> [1; 0] ->
       Shared.get h' (stored 0%nat [2; 2]) j =
       Shared.get separate_rows (stored 0%nat [2; 2]) j) /\
    Shared.footprint h' [2; 2] (Shared.Array_slot 0%nat) = Some [0; 1; 2]%nat.
Proof.
  assert (Hnd : NoDup [0; 1; 2]%nat).
  { repeat constructor; simpl; intuition discriminate. }
  split; [reflexivity |]. split; [exact Hnd |]. split; [example_index |].
  exact (set_then_get_unshared separate_rows (stored 0%nat [2; 2]) [1; 0]
           (Def (@Number number_types (Int 9))) [0; 1; 2]%nat
           eq_refl Hnd ltac:(example_index)).
Defined.

(** C10 does not hold of every tensor: an in-place [resize] of the tensor
    constructed from [[3, -4]] to the size [[0]] succeeds and leaves it with
    the data [[]] and the size [[0]]: a tensor without a scalar, whose
    leading fiber has length zero. *)
Lemma resize_leaves_an_empty_tensor :
  new_DenseMatrix (from_value (vec [3; -4])) None = Ok example_vector /\
  exists t,
    resize example_vector [0] Undefined false = (t, Ok t) /\
    _data t = Arr [] /\ size t = [0].
Proof.
  split; [reflexivity |]. eexists. split; [reflexivity |].
  split; reflexivity.
Qed.

(** C6 does not hold of every tensor of plain numbers of rank one: on the
    tensor that the in-place [resize] to [[0]] leaves, of rank one, with no
    leaf that is not a plain number and with data that [validate] accepts
    for its size, [fromJSON(t.toJSON())] throws when the constructor looks
    for the scalar arithmetic. *)
Lemma fromJSON_toJSON_throws :
  exists t,
    resize example_vector [0] Undefined false = (t, Ok t) /\
    length (size t) = 1%nat /\
    plain_numbers (_data t) = true /\
    validate (_data t) (size t) = Ok tt /\
    fromJSON (toJSON t) = Err (NativeTypeError "el[symbols.Arithmetics]").
Proof.
  eexists. split; [reflexivity |]. repeat split.
Qed.

(** C7 does not hold of every tensor whose arithmetic has the
    [DivisionRing] tag: on the tensor that the in-place [resize] to [[0]]
    leaves, [dotDiv] throws when the constructor of the result looks for
    the scalar arithmetic; and on [new DenseMatrix([1, , 3])], whose middle
    slot is empty, it returns a tensor whose middle slot is empty as well,
    so that [get] returns [undefined] there and not the quotient of what
    [get] returns on the receiver. *)
Lemma dotDiv_without_quotients :
  (exists t,
     resize example_vector [0] Undefined false = (t, Ok t) /\
     A.symbols_DivisionRing (scalarArithmetics t) = true /\
     dotDiv t (Def (Number (Int 2))) =
       Err (NativeTypeError "el[symbols.Arithmetics]")) /\
  (exists t c,
     new_DenseMatrix
       (from_value (Arr [Leaf (Def (Number (Int 1))); Hole;
                         Leaf (Def (Number (Int 3)))])) None = Ok t /\
     A.symbols_DivisionRing (scalarArithmetics t) = true /\
     dotDiv t (Def (Number (Int 2))) = Ok c /\
     get t [1] = Ok Undefined /\
     get c [1] = Ok Undefined /\
     get c [1] <>
       Ok (Def (A.div (scalarArithmetics t) Undefined (Def (Number (Int 2)))))).
Proof.
  split.
  - eexists. split; [reflexivity |]. split; reflexivity.
  - eexists. eexists. split; [reflexivity |]. split; [reflexivity |].
    split; [reflexivity |]. split; [reflexivity |].
    split; [reflexivity | discriminate].
Qed.

(** C4 does not hold of all tensors of rank two whose inner dimensions
    agree.  With the 2 x 0 tensor that an in-place [resize] to [[2, 0]]
    leaves as the operand of a 2 x 2 matrix, [mul] throws when the
    constructor of the product looks for the scalar arithmetic.  And the
    constructor accepts [[[1, 2], undefined]] with size [[2, 2]]; as the
    receiver, with the identity of size two as the operand, it makes [mul]
    throw when the second row is read. *)
Lemma mul_throws_natively :
  (exists b,
     resize example_matrix [2; 0] Undefined false = (b, Ok b) /\
     size b = [2; 0] /\
     length (size example_matrix) = 2%nat /\ length (size b) = 2%nat /\
     nth 0 (size b) 0 = nth 1 (size example_matrix) 0 /\
     mul example_matrix b = Err (NativeTypeError "el[symbols.Arithmetics]")) /\
  (exists a,
     new_DenseMatrix (from_value (Arr [vec [1; 2]; Leaf Undefined])) None =
       Ok a /\
     size a = [2; 2] /\
     length (size example_identity) = 2%nat /\
     nth 0 (size example_identity) 0 = nth 1 (size a) 0 /\
     mul a example_identity = Err (NativeTypeError "row[i]")).
Proof.
  split.
  - eexists. split; [reflexivity |]. repeat split.
  - eexists. split; [reflexivity |]. repeat split.
Qed.

Lemma fromJSON_toJSON_witness :
  isArray (_data example_matrix) = true /\
  plain_numbers (_data example_matrix) = true /\
  Forall (fun n => 0 < n) (arraySize (_data example_matrix)) /\
  exists t',
    fromJSON (toJSON example_matrix) = Ok t' /\
    size t' = size example_matrix /\
    _data t' = _data example_matrix /\
    forall idx, get t' idx = get example_matrix idx.
Proof.
  split; [reflexivity |]. split; [reflexivity |].
  split; [repeat constructor |].
  apply (fromJSON_toJSON example_matrix).
  - reflexivity.
  - reflexivity.
  - repeat constructor.
Defined.

Lemma dotDiv_capability_witness :
  (A.symbols_DivisionRing (scalarArithmetics example_ring_matrix) = false /\
   dotDiv example_ring_matrix (Def (Number (Int 2))) =
     Err (ArithmeticError "DivisionRing")) /\
  (A.symbols_DivisionRing (scalarArithmetics example_matrix) = true /\
   isArray (_data example_matrix) = true /\
   dense (_data example_matrix) = true /\
   Forall (fun n => 0 < n) (arraySize (_data example_matrix)) /\
   size example_matrix = arraySize (_data example_matrix) /\
   get example_matrix [1; 0] = Ok (Def (Number (Int (-3)))) /\
   exists c,
     dotDiv example_matrix (Def (Number (Int 2))) = Ok c /\
     size c = arraySize (_data example_matrix) /\
     get c [1; 0] =
       Ok (Def (A.div (scalarArithmetics example_matrix)
                  (Def (Number (Int (-3)))) (Def (Number (Int 2)))))).
Proof.
  split.
  - split; [reflexivity |].
    exact (proj1 (proj1 (dotDiv_capability example_ring_matrix
                           (Def (@Number number_types (Int 2)))) eq_refl)).
  - split; [reflexivity |]. split; [reflexivity |].
    split; [reflexivity |]. split; [repeat constructor |].
    split; [reflexivity |]. split; [reflexivity |].
    destruct (proj2 (dotDiv_capability example_matrix
                       (Def (@Number number_types (Int 2))))
                eq_refl eq_refl eq_refl ltac:(repeat constructor))
      as [c [Ec [Hsize [_ Hget]]]].
    exists c. split; [exact Ec |]. split; [exact Hsize |].
    exact (Hget eq_refl [1; 0] _ eq_refl).
Defined.

Lemma mul_product_witness :
  well_formed example_matrix /\ well_formed example_identity /\
  well_formed example_row /\
  (nth 0 (size example_row) 0 <> nth 1 (size example_matrix) 0 /\
   exists actual expected relation,
     mul example_matrix example_row =
     Err (DimensionError actual expected relation)) /\
  (length (size example_matrix) = 2%nat /\
   length (size example_identity) = 2%nat /\
   nth 0 (size example_identity) 0 = nth 1 (size example_matrix) 0 /\
   exists c,
     mul example_matrix example_identity = Ok c /\
     size c = [2; 2] /\
     forall i j, 0 <= i < 2 -> 0 <= j < 2 ->
       get c [i; j] =
       Ok (Def (dot (scalarArithmetics example_matrix)
                  example_matrix example_identity i j 2))).
Proof.
  split; [example_well_formed |]. split; [example_well_formed |].
  split; [example_well_formed |]. split.
  - split; [simpl; lia |].
    apply (proj1 (mul_product example_matrix example_row
                    ltac:(example_well_formed) ltac:(example_well_formed))).
    right. right. simpl. lia.
  - split; [reflexivity |]. split; [reflexivity |]. split; [reflexivity |].
    apply (proj2 (mul_product example_matrix example_identity
                    ltac:(example_well_formed) ltac:(example_well_formed)));
      reflexivity.
Defined.

Lemma vectorNorm_inf_max_witness :
  length (size example_vector) = 1%nat /\
  (p_inf = p_inf \/ p_inf = p_number POSITIVE_INFINITY) /\
  A.symbols_Real (scalarArithmetics example_vector) = true /\
  norm example_vector (p_kind p_inf) = Ok (Number (Int 4)) /\
  forall x, In x (values example_vector) ->
    A.gt (scalarArithmetics example_vector)
      (A.norm (scalarArithmetics example_vector) x)
      (Def (Number (Int 4))) = false.
Proof.
  split; [reflexivity |]. split; [left; reflexivity |].
  split; [reflexivity |].
  destruct (proj2 (vectorNorm_inf_max example_vector p_inf eq_refl
                     (or_introl eq_refl)) eq_refl)
    as [r [E [Hr [_ [_ Hmax]]]]].
  assert (Er : r = Number (Int 4)) by (rewrite Hr; reflexivity).
  rewrite <- Er. split; [exact E |].
  apply Hmax.
  - apply number_gt_irreflexive.
  - apply number_gt_transitive.
Defined.

Lemma vectorNorm_neg_inf_is_zero_witness :
  scalarArithmetics example_vector =
    Number_Arithmetics
      (fun _ _ => Number NaN) (fun _ _ => Number NaN) (fun _ => Number NaN) /\
  length (size example_vector) = 1%nat /\
  norm example_vector (p_kind p_neg_inf) = Ok (Number (Int 0)).
Proof.
  split; [reflexivity |]. split; [reflexivity |].
  apply (vectorNorm_neg_inf_is_zero
           (fun _ _ => @Number number_types NaN)
           (fun _ _ => @Number number_types NaN)
           (fun _ => @Number number_types NaN) (fun _ => EmptyString)
           example_vector eq_refl eq_refl).
Defined.

End Examples.

(** * Further properties of the array utilities and of the class *)

Section ArrayFacts.

Context `{Host}.

(** ** validate, arraySize *)

(** X1.  [validate(array, size)] returns exactly when [array] has the shape
    [size]: every array at depth [i] has length [size[i]] and the scalars
    sit at depth [size.length]; and on an array, whatever it throws is a
    [DimensionError]. *)
Theorem validate_accepts_exactly_the_shape (x : MultidimArray) (sz : list Z) :
  (validate x sz = Ok tt <-> has_shape sz x = true) /\
  (isArray x = true ->
   forall e, validate x sz = Err e ->
             exists actual expected relation,
               e = DimensionError actual expected relation).
Proof.
  split; [apply validate_has_shape |].
  intros Harr e Ev. destruct sz as [| n sz].
  - destruct x as [s | xs |]; [discriminate | | discriminate].
    simpl in Ev. injection Ev as <-. eauto.
  - unfold validate in Ev. eapply _validate_error; eassumption.
Qed.

Lemma arraySize_prefix (sz : list Z) :
  forall x, has_shape sz x = true -> exists k, arraySize x = firstn k sz.
Proof.
  induction sz as [| n sz IH]; intros x Hs.
  - destruct x;
      [exists 0%nat; reflexivity | discriminate | exists 0%nat; reflexivity].
  - destruct x as [s | xs |]; [discriminate | | discriminate].
    cbn [has_shape] in Hs. apply andb_true_iff in Hs as [Hn Hall].
    apply Z.eqb_eq in Hn. cbn [arraySize]. rewrite Hn.
    destruct xs as [| x0 xs].
    + exists 1%nat. reflexivity.
    + cbn [forallb] in Hall. apply andb_true_iff in Hall as [Hx0 _].
      destruct (IH x0 Hx0) as [k Ek]. exists (S k). simpl. rewrite Ek.
      reflexivity.
Qed.

(** X2.  On data that [validate] accepts for [size], [arraySize] returns a
    prefix of [size], and all of [size] when no entry of it is zero (below
    an empty array there is nothing left to measure). *)
Theorem arraySize_of_valid_data (x : MultidimArray) (sz : list Z) :
  validate x sz = Ok tt ->
  (exists k, arraySize x = firstn k sz) /\
  (Forall (fun n => 0 < n) sz -> arraySize x = sz).
Proof.
  intros Hv. apply validate_has_shape in Hv. split.
  - apply arraySize_prefix. exact Hv.
  - intros Hpos. apply arraySize_has_shape; assumption.
Qed.

(** ** get *)

Lemma check_index_error (index sz : list Z) (e : error) :
  check_index index sz = Err e ->
  exists i n, e = IndexError i n /\ In i index /\ In n sz /\ ~ 0 <= i < n.
Proof.
  revert sz. induction index as [| i index IH]; intros [| n sz] Hc;
    try discriminate.
  simpl in Hc.
  destruct (validateIndex i n) as [[] | e'] eqn:Ei; cbn [bind] in Hc.
  - destruct (IH sz Hc) as [i' [n' [-> [Hi [Hn Hout]]]]].
    exists i', n'. repeat split; simpl; auto.
  - injection Hc as <-. unfold validateIndex in Ei.
    destruct ((i <? 0) || (i >=? n)) eqn:Eb; [| discriminate].
    injection Ei as <-. exists i, n. repeat split; simpl; auto.
    intros [Hlo Hhi]. apply orb_true_iff in Eb as [Eb | Eb].
    + apply Z.ltb_lt in Eb. lia.
    + rewrite Z.geb_le in Eb. lia.
Qed.

(** On a well-formed tensor, [get] returns at every valid index. *)
Lemma get_at_valid_index (m : DenseMatrix) (index : list Z) :
  well_formed m ->
  valid_index (size m) index -> exists s, get m index = Ok s.
Proof.
  intros [Hval _] Hv. apply validate_has_shape in Hval.
  rewrite get_valid by exact Hv. eapply walk_valid; eassumption.
Qed.

(** X3.  On a well-formed tensor, [get] returns a value exactly at the
    valid indices.  An index of another length than the rank is answered by
    a [DimensionError], an index with a component outside its dimension by
    an [IndexError] for such a component; the [InternalError]s of [get] are
    never thrown. *)
Theorem get_succeeds_at_valid_indices (m : DenseMatrix) (index : list Z) :
  well_formed m ->
  ((exists s, get m index = Ok s) <-> valid_index (size m) index) /\
  (length index <> length (size m) ->
     get m index =
     Err (DimensionError (Z.of_nat (length index))
            (Some (Z.of_nat (length (size m)))) "!=")) /\
  (length index = length (size m) -> ~ valid_index (size m) index ->
     exists i n, get m index = Err (IndexError i n) /\
                 In i index /\ In n (size m) /\ ~ 0 <= i < n) /\
  (forall message, get m index <> Err (InternalError message)).
Proof.
  intros [Hval [Hne Hpos]]. apply validate_has_shape in Hval. unfold size.
  assert (Hwrong : length index <> length (_size m) ->
            get m index =
            Err (DimensionError (Z.of_nat (length index))
                   (Some (Z.of_nat (length (_size m)))) "!=")).
  { intros Hlen. unfold get. apply Nat.eqb_neq in Hlen. rewrite Hlen.
    reflexivity. }
  assert (Hbad : length index = length (_size m) ->
            ~ valid_index (_size m) index ->
            exists i n, get m index = Err (IndexError i n) /\
                        In i index /\ In n (_size m) /\ ~ 0 <= i < n).
  { intros Hlen Hnv. unfold get. rewrite Hlen, Nat.eqb_refl. cbn [negb].
    destruct (check_index index (_size m)) as [[] | e] eqn:Ec.
    - exfalso. apply Hnv. apply check_index_inv; assumption.
    - destruct (check_index_error _ _ _ Ec) as [i [n [-> Hin]]].
      exists i, n. split; [reflexivity | exact Hin]. }
  assert (Hdec : valid_index (_size m) index \/ ~ valid_index (_size m) index).
  { destruct (Nat.eq_dec (length index) (length (_size m))) as [Hlen | Hlen].
    - destruct (check_index index (_size m)) as [[] | e] eqn:Ec.
      + left. apply check_index_inv; assumption.
      + right. intros Hv. rewrite check_index_valid in Ec by exact Hv.
        discriminate.
    - right. intros Hv. apply Hlen. apply valid_index_length. exact Hv. }
  split; [| split; [exact Hwrong | split; [exact Hbad |]]].
  - split.
    + intros [s Hs]. destruct Hdec as [Hv | Hnv]; [exact Hv |].
      destruct (Nat.eq_dec (length index) (length (_size m))) as [Hlen | Hlen].
      * destruct (Hbad Hlen Hnv) as [i [n [E _]]]. congruence.
      * rewrite (Hwrong Hlen) in Hs. discriminate.
    + intros Hv. rewrite get_valid by exact Hv.
      eapply walk_valid; eassumption.
  - intros message E. destruct Hdec as [Hv | Hnv].
    + rewrite get_valid in E by exact Hv.
      destruct (walk_valid _ _ _ Hval Hv) as [s Hs]. congruence.
    + destruct (Nat.eq_dec (length index) (length (_size m))) as [Hlen | Hlen].
      * destruct (Hbad Hlen Hnv) as [i [n [E' _]]]. congruence.
      * rewrite (Hwrong Hlen) in E. discriminate.
Qed.

(** ** set, map, fromJSON *)

(** [set] at a valid index of a well-formed tensor leaves it
    well-formed, with the size and the scalar arithmetic it had (the
    arithmetic is not looked up again, whatever is written). *)
Lemma set_keeps_well_formed (t : DenseMatrix) (idx : list Z) (v : Scalar) :
  well_formed t ->
  valid_index (size t) idx ->
  exists t',
    set t idx v = Ok t' /\
    well_formed t' /\
    size t' = size t /\
    scalarArithmetics t' = scalarArithmetics t.
Proof.
  intros [Hval [Hne Hpos]] Hv. unfold size in *.
  apply validate_has_shape in Hval.
  destruct (store_walk (_size t) Hne (_data t) idx v Hval Hv)
    as [d' [Est [Hsh _]]].
  exists (with_data t d'). split.
  - unfold set. rewrite (valid_index_length _ _ Hv), Nat.ltb_irrefl.
    rewrite Est. reflexivity.
  - split; [| split; reflexivity].
    split; [| split; assumption].
    apply validate_has_shape. exact Hsh.
Qed.

Lemma dense_map_recurse (cb : Scalar -> list Z -> Scalar)
    (x : MultidimArray) :
  forall index, dense (map_recurse cb x index) = dense x.
Proof.
  induction x as [s | xs IH |] using MultidimArray_nested_ind; intros index;
    [reflexivity | | reflexivity].
  cbn [map_recurse dense]. unfold js_map. apply forallb_js_map_from.
  eapply Forall_impl; [| exact IH]. intros y Hy i. apply Hy.
Qed.

(** What [map] returns on a well-formed tensor whose first slot is not
    empty. *)
Lemma DenseMatrix_map_result (a : DenseMatrix) (g : Scalar -> list Z -> Value) :
  well_formed a ->
  first_is_hole (_data a) = false ->
  exists S,
    DenseMatrix_map a (fun s i => Def (g s i)) =
    Ok {| _data := map_recurse (fun s i => Def (g s i)) (_data a) [];
          _size := _size a; _datatype := None; scalarArithmetics := S |}.
Proof.
  intros Hwf Hfirst. destruct (well_formed_data a Hwf) as [xs Hd].
  destruct Hwf as [Hval [Hne Hpos]]. apply validate_has_shape in Hval.
  set (cb := fun s i => Def (g s i)).
  destruct (first_entry_map_recurse g _ (_data a) [] Hval Hpos Hfirst)
    as [v Hv].
  fold cb in Hv.
  assert (Harr : exists ys, map_recurse cb (_data a) [] = Arr ys)
    by (rewrite Hd; simpl; eauto).
  destruct Harr as [ys Hys].
  unfold DenseMatrix_map. rewrite Hys in *.
  destruct (new_DenseMatrix_from_array ys v None Hv) as [S ES].
  exists S. rewrite ES. f_equal. f_equal.
  apply arraySize_has_shape; [| exact Hpos].
  rewrite <- Hys, has_shape_map_recurse. exact Hval.
Qed.

(** X4.  [map] with a callback that returns scalars, on a well-formed
    tensor without empty slots: the result is a well-formed tensor of the
    same size, again without empty slots, and its element at every valid
    index is what the callback returns for the element of the receiver
    there and that very index. *)
Theorem map_keeps_the_shape (a : DenseMatrix) (g : Scalar -> list Z -> Value) :
  well_formed a ->
  dense (_data a) = true ->
  exists c,
    DenseMatrix_map a (fun s i => Def (g s i)) = Ok c /\
    well_formed c /\
    dense (_data c) = true /\
    size c = size a /\
    forall idx, valid_index (size a) idx ->
                get c idx = Ok (Def (g (element a idx) idx)).
Proof.
  intros Hwf Hdense.
  destruct (DenseMatrix_map_result a g Hwf (dense_first_is_hole _ Hdense))
    as [S ES].
  rewrite ES. eexists. split; [reflexivity |].
  destruct Hwf as [Hval [Hne Hpos]].
  pose proof Hval as Hshape. apply validate_has_shape in Hshape.
  unfold size. cbn [_size _data].
  split; [| split; [| split; [reflexivity |]]].
  - split; [| split; assumption]. cbn [_data _size].
    apply validate_has_shape. rewrite has_shape_map_recurse. exact Hshape.
  - rewrite dense_map_recurse. exact Hdense.
  - intros idx Hidx.
    destruct (walk_valid _ _ _ Hshape Hidx) as [s Hw].
    unfold element. rewrite (get_valid a idx Hidx), Hw.
    unfold get. cbn [_size _data].
    rewrite (valid_index_length _ _ Hidx), Nat.eqb_refl. cbn [negb].
    rewrite check_index_valid by exact Hidx. cbn [bind].
    apply (walk_map_recurse (fun s i => Def (g s i)) idx (_data a) [] s
             Hdense Hw).
Qed.

Lemma first_entry_clone_Def (x : MultidimArray) :
  (exists v, first_entry (clone x) = Def v) <->
  (exists v, first_entry x = Def v).
Proof.
  rewrite first_entry_clone.
  destruct (first_entry x) as [| [n | o]]; simpl; split; intros [v E];
    try discriminate; eauto.
Qed.

(** X5.  [fromJSON] returns a tensor exactly when the tag is
    ['DenseMatrix'], [data] is an array, and the first-entry chain of
    [data] ends in a scalar.  The tensor holds a clone of [data] and reports
    [size] as it was given: it is not compared with [data]. *)
Theorem fromJSON_accepts (json : SerializedDenseMatrix) :
  ((exists t, fromJSON json = Ok t) <->
   mathjs json = "DenseMatrix"%string /\ isArray (data json) = true /\
   exists v, first_entry (data json) = Def v) /\
  (forall t, fromJSON json = Ok t ->
             _data t = clone (data json) /\ size t = json_size json).
Proof.
  assert (Hok : forall t, fromJSON json = Ok t ->
            isSerializedDenseMatrix json = true /\
            (exists v, first_entry (data json) = Def v) /\
            _data t = clone (data json) /\ size t = json_size json).
  { intros t E. unfold fromJSON in E.
    destruct (isSerializedDenseMatrix json) eqn:Es; [| discriminate].
    cbn [negb] in E. apply new_DenseMatrix_Ok in E as [Hfirst [Hd Hs]].
    split; [reflexivity |]. split; [| split; assumption].
    rewrite Hd in Hfirst. apply first_entry_clone_Def. exact Hfirst. }
  split.
  - split.
    + intros [t E]. destruct (Hok t E) as [Hs [Hfirst _]].
      unfold isSerializedDenseMatrix in Hs.
      apply andb_true_iff in Hs as [Htag Harr].
      apply String.eqb_eq in Htag. auto.
    + intros [Htag [Harr Hfirst]].
      assert (Hs : isSerializedDenseMatrix json = true).
      { unfold isSerializedDenseMatrix. rewrite Htag, Harr. reflexivity. }
      unfold fromJSON, new_DenseMatrix. rewrite Hs. cbn [negb bind].
      apply first_entry_clone_Def in Hfirst as [v Hv].
      destruct (data json) as [s | xs |]; [discriminate | | discriminate].
      cbn [clone] in *.
      destruct (find_scalar_arithmetic_Def _ v Hv) as [S ->].
      eexists. reflexivity.
  - intros t E. apply Hok. exact E.
Qed.

(** ** resize *)

Lemma resized_cons (xs : list MultidimArray) (newLen : Z) (rest : list Z)
    (dv : Scalar) :
  resized xs (newLen :: rest) dv =
  let minLen := Z.min (js_length xs) newLen in
  match rest with
  | _ :: _ =>
      map (fun elem =>
             match elem with
             | Arr c => Arr (resized c rest dv)
             | Leaf _ | Hole => Arr (resized [read elem] rest dv)
             end)
          (firstn (Z.to_nat minLen) xs)
      ++ repeat (Arr (resized [] rest dv)) (Z.to_nat (newLen - minLen))
  | [] =>
      map (fun elem =>
             match elem with
             | Arr _ => Leaf (first_entry elem)
             | Leaf _ | Hole => elem
             end)
          (firstn (Z.to_nat minLen) xs)
      ++ repeat (Leaf dv) (Z.to_nat (newLen - minLen))
  end.
Proof. destruct rest; reflexivity. Qed.

(** The list that [_resize] builds at one level: the first [k] slots of
    [xs] transformed by [F], then [r] copies of [y]. *)
Lemma kept_then_new_length (F : MultidimArray -> MultidimArray)
    (xs : list MultidimArray) (y : MultidimArray) (n : Z) :
  0 <= n ->
  js_length
    (map F (firstn (Z.to_nat (Z.min (js_length xs) n)) xs)
     ++ repeat y (Z.to_nat (n - Z.min (js_length xs) n))) = n.
Proof.
  intros Hn. unfold js_length.
  rewrite length_app, length_map, length_firstn, repeat_length. lia.
Qed.

Lemma kept_then_new_get (F : MultidimArray -> MultidimArray)
    (xs : list MultidimArray) (y : MultidimArray) (n i : Z) :
  0 <= i < n ->
  js_get
    (map F (firstn (Z.to_nat (Z.min (js_length xs) n)) xs)
     ++ repeat y (Z.to_nat (n - Z.min (js_length xs) n))) i =
  if i <? js_length xs then F (js_get xs i) else y.
Proof.
  intros Hi. unfold js_get, js_length.
  destruct (i <? 0) eqn:E0; [apply Z.ltb_lt in E0; lia |].
  destruct (i <? Z.of_nat (length xs)) eqn:E.
  - apply Z.ltb_lt in E.
    rewrite app_nth1 by (rewrite length_map, length_firstn; lia).
    rewrite nth_indep with (d' := F (Leaf Undefined))
      by (rewrite length_map, length_firstn; lia).
    rewrite map_nth. f_equal. rewrite nth_firstn.
    destruct (Nat.ltb_spec (Z.to_nat i)
                (Z.to_nat (Z.min (Z.of_nat (length xs)) n))); [reflexivity | lia].
  - apply Z.ltb_ge in E.
    rewrite app_nth2 by (rewrite length_map, length_firstn; lia).
    rewrite length_map, length_firstn.
    apply nth_repeat_lt. lia.
Qed.



(** A loop whose body does not throw. *)
Lemma loop_slots_map (body : MultidimArray -> MultidimArray * option error)
    (F : MultidimArray -> MultidimArray) (todo : list MultidimArray) :
  (forall x, In x todo -> body x = (F x, None)) ->
  loop_slots body todo = (map F todo, None).
Proof.
  induction todo as [| x todo IH]; intros Hbody; [reflexivity |].
  cbn [loop_slots map]. rewrite (Hbody x (or_introl eq_refl)).
  rewrite IH by (intros y Hy; apply Hbody; right; exact Hy). reflexivity.
Qed.


Lemma map_repeat_const {X Y : Type} (y : Y) (x : X) (k : nat) :
  map (fun _ => y) (repeat x k) = repeat y k.
Proof.
  induction k as [| k IH]; [reflexivity |]. cbn [repeat map]. rewrite IH.
  reflexivity.
Qed.

Lemma length_accepted (xs : list MultidimArray) (n : Z) :
  0 <= n <= max_array_length -> length_refused xs n = false.
Proof.
  intros Hn. unfold length_refused.
  destruct (n <? 0) eqn:E1; [apply Z.ltb_lt in E1; lia |].
  destruct (max_array_length <? n) eqn:E2; [apply Z.ltb_lt in E2; lia |].
  reflexivity.
Qed.

(** When every length asked for is one an array can have, [_resize] runs
    to its end and leaves [resized]. *)
Lemma _resize_resized (sz : list Z) :
  Forall (fun n => 0 <= n <= max_array_length) sz ->
  forall xs dv, _resize xs sz dv = (resized xs sz dv, None).
Proof.
  induction sz as [| n rest IH]; intros Hb xs dv; [reflexivity |].
  inversion Hb as [| ? ? Hn Hb']; subst.
  cbn [_resize]. rewrite length_accepted by exact Hn.
  rewrite resized_cons. cbv zeta.
  destruct rest as [| m rest']; [reflexivity |].
  set (rest := m :: rest') in *.
  erewrite loop_slots_map
    with (F := fun elem =>
                 match elem with
                 | Arr c => Arr (resized c rest dv)
                 | Leaf _ | Hole => Arr (resized [read elem] rest dv)
                 end);
    [| intros [s | c |] _; rewrite IH by exact Hb'; reflexivity].
  erewrite loop_slots_map with (F := fun _ => Arr (resized [] rest dv));
    [| intros x _; rewrite IH by exact Hb'; reflexivity].
  rewrite map_repeat_const. reflexivity.
Qed.


Lemma existsb_negative (sz : list Z) :
  existsb (fun value => value <? 0) sz = false <-> Forall (fun n => 0 <= n) sz.
Proof.
  induction sz as [| n sz IH]; simpl.
  - split; [constructor | reflexivity].
  - rewrite orb_false_iff, IH, Z.ltb_ge. split.
    + intros [Hn Hs]. constructor; assumption.
    + intros Hall. inversion Hall; subst. auto.
Qed.

Lemma array_lengths_nonnegative (sz : list Z) :
  Forall (fun n => 0 <= n <= max_array_length) sz ->
  Forall (fun n => 0 <= n) sz.
Proof.
  intros Hb. eapply Forall_impl; [| exact Hb]. intros n Hn.
  cbv beta in Hn. lia.
Qed.


Lemma loop_slots_id (body : MultidimArray -> MultidimArray * option error)
    (todo : list MultidimArray) :
  (forall x, In x todo -> body x = (x, None)) ->
  loop_slots body todo = (todo, None).
Proof.
  intros Hbody. rewrite (loop_slots_map body (fun x => x)) by exact Hbody.
  rewrite map_id. reflexivity.
Qed.

(** Resizing to the shape the data has changes nothing. *)
Lemma _resize_same_shape (sz : list Z) :
  sz <> [] ->
  forall xs dv, has_shape sz (Arr xs) = true -> _resize xs sz dv = (xs, None).
Proof.
  induction sz as [| n sz IH]; intros Hne xs dv Hs; [congruence |].
  cbn [has_shape] in Hs. apply andb_true_iff in Hs as [Hn Hall].
  apply Z.eqb_eq in Hn. cbn [_resize].
  assert (Hacc : length_refused xs n = false).
  { unfold length_refused. rewrite Hn, Z.eqb_refl. apply andb_false_r. }
  rewrite Hacc, Hn, Z.min_id, Z.sub_diag. cbn [Z.to_nat repeat].
  replace (Z.to_nat n) with (length xs) by (unfold js_length in Hn; lia).
  rewrite firstn_all. rewrite forallb_forall in Hall.
  destruct sz as [| m sz].
  - rewrite app_nil_r. f_equal.
    rewrite <- (map_id xs) at 2. apply map_ext_in. intros x Hx.
    specialize (Hall x Hx).
    destruct x as [s | c |]; [reflexivity | discriminate | reflexivity].
  - rewrite loop_slots_id.
    + cbn [loop_slots]. rewrite app_nil_r. reflexivity.
    + intros x Hx. specialize (Hall x Hx).
      destruct x as [s | c |]; [discriminate | | discriminate].
      rewrite (IH ltac:(discriminate) c dv Hall). reflexivity.
Qed.

(** X7.  An in-place [resize] of a well-formed tensor to the size it has
    returns the tensor as it is: data, size and everything else. *)
Theorem resize_to_own_size (t : DenseMatrix) (defaultValue : Scalar) :
  well_formed t ->
  resize t (size t) defaultValue false = (t, Ok t).
Proof.
  intros Hwf. destruct (well_formed_data t Hwf) as [xs Hd].
  destruct Hwf as [Hval [Hne Hpos]]. apply validate_has_shape in Hval.
  destruct t as [d s dt S]. cbn [_data _size] in *. subst d.
  unfold resize, resize_assign, size, array_resize, with_size, with_data.
  cbn [_data _size _datatype scalarArithmetics].
  destruct s as [| n sz]; [congruence |]. cbn [length Nat.eqb].
  assert (Hnn : Forall (fun n => 0 <= n) (n :: sz)).
  { eapply Forall_impl; [| exact Hpos]. intros; cbv beta in *; lia. }
  apply existsb_negative in Hnn. rewrite Hnn.
  rewrite (_resize_same_shape (n :: sz) ltac:(discriminate) xs _ Hval).
  reflexivity.
Qed.

(** Where [_resize] puts what: on data of shape [sz] and for a new size
    [sz'] of the same length, the slot at an index of the new shape holds
    the old value when the index is one of the old shape too, and the
    default value otherwise. *)
Lemma resized_walk (sz' : list Z) :
  sz' <> [] -> Forall (fun n => 0 <= n) sz' ->
  forall (sz : list Z) (xs : list MultidimArray) (dv : Scalar) (idx : list Z),
    length sz = length sz' ->
    has_shape sz (Arr xs) = true ->
    valid_index sz' idx ->
    (valid_index sz idx ->
       walk (Arr (resized xs sz' dv)) idx = walk (Arr xs) idx) /\
    (~ valid_index sz idx -> walk (Arr (resized xs sz' dv)) idx = Ok dv).
Proof.
  induction sz' as [| n' rest' IH]; intros Hne Hpos sz xs dv idx Hlen Hs Hv;
    [congruence |].
  inversion Hpos as [| ? ? Hn' Hpos']; subst.
  destruct sz as [| n rest]; [discriminate |].
  destruct idx as [| i idx']; [inversion Hv |].
  apply valid_index_cons in Hv as [Hi Hv'].
  cbn [has_shape] in Hs. apply andb_true_iff in Hs as [Hn Hall].
  apply Z.eqb_eq in Hn.
  rewrite walk_cons, resized_cons. cbv zeta.
  destruct rest' as [| m' rest''].
  - (* the last dimension *)
    destruct rest as [| ? ?]; [| discriminate].
    inversion Hv'; subst.
    rewrite kept_then_new_length, validateIndex_Ok by assumption. cbn [bind].
    rewrite kept_then_new_get by exact Hi.
    destruct (i <? js_length xs) eqn:Ei.
    + apply Z.ltb_lt in Ei.
      pose proof (has_shape_js_get [] xs i Hall ltac:(lia)) as Hleaf.
      split.
      * intros _. rewrite walk_cons, validateIndex_Ok by lia. cbn [bind].
        destruct (js_get xs i) as [s | c |];
          [reflexivity | discriminate | reflexivity].
      * intros Hnv. exfalso. apply Hnv. apply valid_index_cons.
        split; [lia | constructor].
    + apply Z.ltb_ge in Ei. split.
      * intros Hv0. apply valid_index_cons in Hv0 as [Hi0 _]. lia.
      * intros _. reflexivity.
  - (* an outer dimension *)
    destruct rest as [| m rest0]; [discriminate |].
    rewrite kept_then_new_length, validateIndex_Ok by assumption. cbn [bind].
    rewrite kept_then_new_get by exact Hi.
    destruct (i <? js_length xs) eqn:Ei.
    + apply Z.ltb_lt in Ei.
      pose proof (has_shape_js_get (m :: rest0) xs i Hall ltac:(lia)) as Hc.
      destruct (js_get xs i) as [s | c |] eqn:Eg; [discriminate | | discriminate].
      destruct (IH ltac:(discriminate) Hpos' (m :: rest0) c dv idx'
                  ltac:(simpl in *; lia) Hc Hv') as [IH1 IH2].
      split.
      * intros Hv0. apply valid_index_cons in Hv0 as [_ Hv0].
        rewrite walk_cons, validateIndex_Ok by lia. cbn [bind].
        rewrite Eg. apply IH1. exact Hv0.
      * intros Hnv. apply IH2. intros Hv0. apply Hnv.
        apply valid_index_cons. split; [lia | exact Hv0].
    + apply Z.ltb_ge in Ei.
      destruct (IH ltac:(discriminate) Hpos' (0 :: rest0) [] dv idx'
                  ltac:(simpl in *; lia) eq_refl Hv') as [_ IH2].
      split.
      * intros Hv0. apply valid_index_cons in Hv0 as [Hi0 _]. lia.
      * intros _. apply IH2. intros Hv0.
        destruct idx' as [| i' idx'']; [inversion Hv0 |].
        apply valid_index_cons in Hv0 as [Hi0 _]. lia.
Qed.

(** X8.  An in-place [resize] of a well-formed tensor to a size of the
    same rank whose entries are lengths an array can have (0 to 2^32 - 1)
    succeeds and sets the size; after it, [get] at an index that was valid
    before returns what it returned before, and at every other index of the
    new size it returns the default value ([0] when the default value passed
    is [undefined]). *)
Theorem resize_keeps_common_elements (t : DenseMatrix) (sz : list Z)
    (defaultValue : Scalar) :
  well_formed t ->
  length sz = length (size t) ->
  Forall (fun n => 0 <= n <= max_array_length) sz ->
  exists t',
    resize t sz defaultValue false = (t', Ok t') /\
    size t' = sz /\
    forall idx, valid_index sz idx ->
      (valid_index (size t) idx -> get t' idx = get t idx) /\
      (~ valid_index (size t) idx ->
         get t' idx =
         Ok match defaultValue with
            | Undefined => Def (Number number_0)
            | _ => defaultValue
            end).
Proof.
  intros Hwf Hlen Hb. destruct (well_formed_data t Hwf) as [xs Hd].
  destruct Hwf as [Hval [Hne _]]. apply validate_has_shape in Hval.
  pose proof (array_lengths_nonnegative _ Hb) as Hpos.
  unfold size in *.
  assert (Hsz : sz <> []) by (destruct sz, (_size t); simpl in *; congruence).
  unfold resize, resize_assign, array_resize.
  cbn [with_size _data _size]. rewrite Hd.
  destruct sz as [| n sz0] eqn:Esz; [congruence |]. rewrite <- Esz in *.
  replace (length sz =? 0)%nat with false by (rewrite Esz; reflexivity).
  pose proof Hpos as Hnn. apply existsb_negative in Hnn. rewrite Hnn.
  rewrite _resize_resized by exact Hb.
  eexists. split; [reflexivity |]. cbn [with_data _size]. split; [reflexivity |].
  intros idx Hidx. unfold get at 1 3. cbn [_size _data].
  rewrite (valid_index_length _ _ Hidx), Nat.eqb_refl. cbn [negb].
  rewrite check_index_valid by exact Hidx. cbn [bind].
  rewrite Hd in Hval.
  destruct (resized_walk sz Hsz Hpos (_size t) xs
              match defaultValue with
              | Undefined => Def (Number number_0)
              | _ => defaultValue
              end idx (eq_sym Hlen) Hval Hidx) as [H1 H2].
  split.
  - intros Hv. rewrite (get_valid t idx Hv), Hd. apply H1. exact Hv.
  - intros Hnv. apply H2. exact Hnv.
Qed.

Lemma length_too_long (xs : list MultidimArray) (n : Z) :
  js_length xs <= max_array_length -> max_array_length < n ->
  length_refused xs n = true.
Proof.
  intros Hlen Hn. unfold length_refused.
  destruct (n <? 0) eqn:E1; [apply Z.ltb_lt in E1; unfold js_length in Hlen; lia |].
  destruct (max_array_length <? n) eqn:E2; [| apply Z.ltb_ge in E2; lia].
  destruct (n =? js_length xs) eqn:E3; [apply Z.eqb_eq in E3; lia |].
  reflexivity.
Qed.

(** X26.  The [resize] of [utils/array] with a length that no array can
    have (above 2^32 - 1).  As the first entry of the size list it makes
    the call throw a [RangeError] with the array untouched.  As the second
    entry of two, behind a first entry that is fine, it makes the call
    throw the [RangeError] when the first element is resized: by then the
    outer array has its new length (the slots added are empty) and its
    first element, if it was no array, has been wrapped into one. *)
Theorem resize_refuses_oversized_length (x0 : MultidimArray)
    (xs : list MultidimArray) (n m : Z) (rest : list Z)
    (defaultValue : Scalar) :
  js_length (x0 :: xs) <= max_array_length ->
  max_array_length < m ->
  (Forall (fun k => 0 <= k) rest ->
   array_resize (Arr (x0 :: xs)) (m :: rest) defaultValue =
   (Arr (x0 :: xs), Err (RangeError "array.length = newLen"))) /\
  (0 < n <= max_array_length ->
   let inner := match x0 with Arr c => c | Leaf _ | Hole => [read x0] end in
   let minLen := Z.min (js_length (x0 :: xs)) n in
   js_length inner <= max_array_length ->
   array_resize (Arr (x0 :: xs)) [n; m] defaultValue =
   (Arr (Arr inner :: firstn (Z.to_nat minLen - 1) xs
         ++ repeat Hole (Z.to_nat (n - minLen))),
    Err (RangeError "array.length = newLen"))).
Proof.
  intros Hlen Hm. split.
  - intros Hrest. unfold array_resize. cbn [length Nat.eqb].
    assert (Hnn : Forall (fun k => 0 <= k) (m :: rest))
      by (constructor; [unfold max_array_length in Hm; lia | exact Hrest]).
    rewrite (proj2 (existsb_negative _) Hnn).
    cbn [_resize]. rewrite length_too_long by assumption. reflexivity.
  - intros Hn inner minLen Hinner. unfold array_resize. cbn [length Nat.eqb].
    assert (Hnn : Forall (fun k => 0 <= k) [n; m])
      by (repeat constructor; unfold max_array_length in *; lia).
    rewrite (proj2 (existsb_negative _) Hnn).
    cbn [_resize]. rewrite length_accepted by lia. fold minLen.
    assert (Hmin : 1 <= minLen)
      by (unfold minLen, js_length; cbn [length]; lia).
    destruct (Z.to_nat minLen) as [| k] eqn:Ek; [lia |].
    cbn [firstn loop_slots Nat.sub]. rewrite Nat.sub_0_r.
    unfold inner in *.
    destruct x0 as [s | c |]; cbn [read] in *;
      rewrite length_too_long by assumption; reflexivity.
Qed.

(** ** Iteration and flatten *)

Lemma In_js_map_from {X Y : Type} (f : X -> Z -> Y) (l : list X) (k : Z) (y : Y) :
  In y (js_map_from f l k) <->
  exists n x, nth_error l n = Some x /\ y = f x (k + Z.of_nat n).
Proof.
  revert k. induction l as [| x0 l IH]; intros k; cbn [js_map_from In].
  - split; [intros [] | intros [[| n] [x [E _]]]; discriminate].
  - rewrite IH. split.
    + intros [<- | [n [x [E ->]]]].
      * exists 0%nat, x0. split; [reflexivity | f_equal; lia].
      * exists (S n), x. split; [exact E | f_equal; lia].
    + intros [[| n] [x [E ->]]].
      * injection E as <-. left. f_equal. lia.
      * right. exists n, x. split; [exact E | f_equal; lia].
Qed.

Lemma nth_error_js_get (xs : list MultidimArray) (n : nat) (x : MultidimArray) :
  nth_error xs n = Some x -> js_get xs (Z.of_nat n) = x /\ (n < length xs)%nat.
Proof.
  intros E. split.
  - unfold js_get. destruct (Z.of_nat n <? 0) eqn:E0; [apply Z.ltb_lt in E0; lia |].
    rewrite Nat2Z.id. apply nth_error_nth. exact E.
  - apply nth_error_Some. congruence.
Qed.

Lemma js_get_nth_error (xs : list MultidimArray) (i : Z) :
  0 <= i < js_length xs -> nth_error xs (Z.to_nat i) = Some (js_get xs i).
Proof.
  unfold js_get, js_length. intros Hi.
  destruct (i <? 0) eqn:E0; [apply Z.ltb_lt in E0; lia |].
  apply nth_error_nth'. lia.
Qed.

(** What the iteration yields below the index [prefix]. *)
Lemma iterate_In (sz : list Z) :
  forall (d : MultidimArray) (prefix : list Z) (s : Scalar) (idx : list Z),
    has_shape sz d = true ->
    (In (s, idx) (iterate d prefix) <->
     exists rest, idx = prefix ++ rest /\ valid_index sz rest /\
                  walk d rest = Ok s).
Proof.
  induction sz as [| n sz IH]; intros d prefix s idx Hs.
  - destruct d as [s0 | xs |]; [| discriminate |]; cbn [iterate In]; split.
    + intros [E | []]. injection E as <- <-.
      exists []. rewrite app_nil_r. repeat split. constructor.
    + intros [rest [-> [Hv Hw]]]. inversion Hv; subst.
      simpl in Hw. injection Hw as <-. rewrite app_nil_r. left. reflexivity.
    + intros [E | []]. injection E as <- <-.
      exists []. rewrite app_nil_r. repeat split. constructor.
    + intros [rest [-> [Hv Hw]]]. inversion Hv; subst.
      simpl in Hw. injection Hw as <-. rewrite app_nil_r. left. reflexivity.
  - destruct d as [s0 | xs |]; [discriminate | | discriminate].
    cbn [has_shape] in Hs. apply andb_true_iff in Hs as [Hn Hall].
    apply Z.eqb_eq in Hn. rewrite forallb_forall in Hall.
    cbn [iterate]. rewrite in_concat. unfold js_map. split.
    + intros [l [Hl Hin]]. apply In_js_map_from in Hl as [k [child [Ek ->]]].
      destruct (nth_error_js_get xs k child Ek) as [Eg Hk].
      apply IH in Hin; [| apply Hall; eapply nth_error_In; eassumption].
      destruct Hin as [rest [-> [Hv Hw]]].
      exists (Z.of_nat k :: rest). rewrite <- app_assoc. split; [reflexivity |].
      split.
      * apply valid_index_cons. split; [unfold js_length in Hn; lia | exact Hv].
      * rewrite walk_cons, validateIndex_Ok by (unfold js_length; lia).
        cbn [bind]. rewrite Eg. exact Hw.
    + intros [rest [-> [Hv Hw]]].
      destruct rest as [| i rest]; [inversion Hv |].
      apply valid_index_cons in Hv as [Hi Hv].
      rewrite walk_cons, validateIndex_Ok in Hw by lia. cbn [bind] in Hw.
      exists (iterate (js_get xs i) (prefix ++ [i])). split.
      * apply In_js_map_from. exists (Z.to_nat i), (js_get xs i).
        split; [apply js_get_nth_error; lia | f_equal; f_equal; f_equal; lia].
      * apply IH; [apply Hall, js_get_In; lia |].
        exists rest. rewrite <- app_assoc. auto.
Qed.

(** X9.  The iteration over a well-formed tensor yields the pair of a value
    and an index exactly when the index is valid and [get] returns that
    value there. *)
Theorem iterator_yields_the_elements (m : DenseMatrix) (s : Scalar)
    (idx : list Z) :
  well_formed m ->
  (In (s, idx) (iterator m) <->
   valid_index (size m) idx /\ get m idx = Ok s).
Proof.
  intros [Hval _]. apply validate_has_shape in Hval. unfold iterator, size.
  rewrite (iterate_In (_size m) (_data m) [] s idx Hval). split.
  - intros [rest [-> [Hv Hw]]]. cbn [app]. split; [exact Hv |].
    rewrite get_valid by exact Hv. exact Hw.
  - intros [Hv Hg]. exists idx. split; [reflexivity |]. split; [exact Hv |].
    rewrite get_valid in Hg by exact Hv. exact Hg.
Qed.

Lemma concat_js_map_from_fst (xs : list MultidimArray) :
  forall (F : MultidimArray -> Z -> list (Scalar * list Z)) (k : Z),
    Forall (fun x => forall i, map fst (F x i) = leaves x) xs ->
    map fst (concat (js_map_from F xs k)) = flat_map leaves xs.
Proof.
  intros F k Hall. revert k.
  induction Hall as [| x xs Hx _ IH]; intros k; [reflexivity |].
  cbn [js_map_from concat flat_map]. rewrite map_app, Hx, IH. reflexivity.
Qed.

(** The values that the iteration yields are what reading the slots
    gives. *)
Lemma iterate_values (x : MultidimArray) :
  forall prefix, map fst (iterate x prefix) = leaves x.
Proof.
  induction x as [s | xs IH |] using MultidimArray_nested_ind; intros prefix.
  - reflexivity.
  - cbn [iterate leaves]. unfold js_map.
    apply concat_js_map_from_fst.
    eapply Forall_impl; [| exact IH]. intros y Hy i. apply Hy.
  - reflexivity.
Qed.

Lemma product_cons (n : Z) (sz : list Z) : product (n :: sz) = n * product sz.
Proof.
  unfold product. cbn [fold_left].
  assert (G : forall l a, fold_left (fun prev curr => prev * curr) l a =
                          a * fold_left (fun prev curr => prev * curr) l 1).
  { induction l as [| x l IHl]; intros a; cbn [fold_left]; [lia |].
    rewrite IHl, (IHl (1 * x)). lia. }
  rewrite G. lia.
Qed.

Lemma flat_map_length_uniform (xs : list MultidimArray) (L : Z) :
  Forall (fun x => Z.of_nat (length (leaves x)) = L) xs ->
  Z.of_nat (length (flat_map leaves xs)) = js_length xs * L.
Proof.
  intros Hall. unfold js_length.
  induction Hall as [| x xs Hx _ IH]; [reflexivity |].
  cbn [flat_map length]. rewrite length_app. lia.
Qed.

Lemma leaves_length (sz : list Z) :
  forall x, has_shape sz x = true ->
            Z.of_nat (length (leaves x)) = product sz.
Proof.
  induction sz as [| n sz IH]; intros x Hs.
  - destruct x; [reflexivity | discriminate | reflexivity].
  - destruct x as [s | xs |]; [discriminate | | discriminate].
    cbn [has_shape] in Hs. apply andb_true_iff in Hs as [Hn Hall].
    apply Z.eqb_eq in Hn. rewrite forallb_forall in Hall.
    cbn [leaves]. rewrite product_cons, <- Hn.
    apply flat_map_length_uniform. apply Forall_forall.
    intros y Hy. apply IH, Hall, Hy.
Qed.


(** X10.  The iteration over a tensor yields as many values as the product
    of the size says, when the data is valid for the size; and [flatten] of
    the data of a tensor without empty slots is the sequence of the values
    in the order in which the iteration yields them.  ([flatten] passes
    over an empty slot, which the iteration yields as [undefined].) *)
Theorem flatten_is_the_iteration_order (m : DenseMatrix) (xs : list MultidimArray) :
  _data m = Arr xs ->
  (dense (_data m) = true ->
   flatten (_data m) = Arr (map Leaf (values m))) /\
  (validate (_data m) (size m) = Ok tt ->
   Z.of_nat (length (values m)) = product (size m)).
Proof.
  intros Hd. unfold values, iterator.
  rewrite (iterate_values (_data m) []). split.
  - intros Hdense. rewrite <- flatten_callback_dense by exact Hdense.
    rewrite Hd. reflexivity.
  - intros Hv. apply validate_has_shape in Hv.
    apply leaves_length. exact Hv.
Qed.

(** ** rows, columns *)

Lemma new_DenseMatrix_constructed (xs : list MultidimArray) (v : Value) :
  first_entry (Arr xs) = Def v ->
  new_DenseMatrix (from_value (Arr xs)) None = Ok (constructed xs).
Proof.
  intros E. unfold new_DenseMatrix, constructed.
  rewrite preprocess_id. cbn [bind].
  destruct (find_scalar_arithmetic_Def xs v E) as [S ->]. reflexivity.
Qed.

Lemma defined_leaves_js_get (xs : list MultidimArray) (i : Z) :
  forallb defined_leaves xs = true -> 0 <= i < js_length xs ->
  defined_leaves (js_get xs i) = true.
Proof.
  intros Hall Hi. rewrite forallb_forall in Hall. apply Hall, js_get_In, Hi.
Qed.

(** The row [i] of a matrix of shape [A x B] with defined leaves. *)
Lemma matrix_row (A B : Z) (a : list MultidimArray) (i : Z) :
  has_shape [A; B] (Arr a) = true -> defined_leaves (Arr a) = true ->
  0 <= i < A ->
  exists r, js_get a i = Arr r /\ js_length r = B /\
            forall j, 0 <= j < B -> exists v, js_get r j = Leaf (Def v).
Proof.
  intros Hs Hd Hi.
  destruct (has_shape_row A B a i Hs Hi) as [r [Er [Hlen Hr]]].
  assert (HA : js_length a = A).
  { cbn [has_shape] in Hs. apply andb_true_iff in Hs as [HA _].
    apply Z.eqb_eq in HA. exact HA. }
  cbn [defined_leaves] in Hd.
  pose proof (defined_leaves_js_get a i Hd ltac:(lia)) as Hdr.
  rewrite Er in Hdr. cbn [defined_leaves] in Hdr.
  exists r. split; [exact Er |]. split; [exact Hlen |].
  intros j Hj.
  pose proof (has_shape_js_get [] r j Hr ltac:(lia)) as Hleaf.
  pose proof (defined_leaves_js_get r j Hdr ltac:(lia)) as Hdef.
  destruct (js_get r j) as [[| v] | ? |]; try discriminate. eauto.
Qed.

(** X11.  [rows()] of a well-formed matrix of [A x B] scalars returns [A]
    tensors; the [i]-th has size [[1, B]] and holds row [i]: its element at
    [[0, j]] is the element of the matrix at [[i, j]]. *)
Theorem rows_hold_the_rows (M : DenseMatrix) (A B : Z) :
  well_formed M -> size M = [A; B] -> defined_leaves (_data M) = true ->
  exists rs,
    rows M = Ok rs /\ Z.of_nat (length rs) = A /\
    forall i, 0 <= i < A ->
      exists r, nth_error rs (Z.to_nat i) = Some r /\
                size r = [1; B] /\
                forall j, 0 <= j < B -> get r [0; j] = get M [i; j].
Proof.
  intros Hwf Hsize Hdef. unfold size in *.
  destruct (well_formed_rank2 M Hwf ltac:(rewrite Hsize; reflexivity))
    as (A' & B' & a & Hs & Hd & Hh & HA & HB & Hla & _).
  rewrite Hsize in Hs. injection Hs as <- <-. rewrite Hd in Hdef.
  assert (Hrow : forall row, In row a ->
            new_DenseMatrix (from_value (Arr [read row])) None =
            Ok (constructed [row])).
  { intros row Hin. apply In_nth_error in Hin as [k Hk].
    destruct (nth_error_js_get a k row Hk) as [Eg Hlt].
    destruct (matrix_row A B a (Z.of_nat k) Hh Hdef
                ltac:(unfold js_length in Hla; lia)) as [r [Er [Hlen Hleaf]]].
    destruct (Hleaf 0 ltac:(lia)) as [v Hv].
    rewrite <- Eg, Er. cbn [read].
    apply new_DenseMatrix_constructed with (v := v).
    transitivity (first_entry (js_get r 0));
      [destruct r; reflexivity | rewrite Hv; reflexivity]. }
  exists (map (fun row => constructed [row]) a).
  split; [| split].
  - unfold rows, size. rewrite Hsize, Hd. cbn [length Nat.eqb negb].
    apply for_each_map. exact Hrow.
  - rewrite length_map. exact Hla.
  - intros i Hi.
    destruct (matrix_row A B a i Hh Hdef Hi) as [r [Er [Hlen Hleaf]]].
    exists (constructed [js_get a i]). split; [| split].
    + rewrite nth_error_map, js_get_nth_error by lia. reflexivity.
    + unfold size, constructed. cbn [_size arraySize]. rewrite Er.
      cbn [arraySize]. rewrite Hlen.
      destruct r as [| r0 r]; [unfold js_length in Hlen; simpl in Hlen; lia |].
      destruct (Hleaf 0 ltac:(lia)) as [v Hv].
      unfold js_get in Hv. simpl in Hv. rewrite Hv. reflexivity.
    + intros j Hj.
      assert (Hv1 : valid_index (_size (constructed [js_get a i])) [0; j]).
      { unfold constructed. cbn [_size arraySize]. rewrite Er.
        cbn [arraySize]. rewrite Hlen.
        destruct r as [| r0 r]; [unfold js_length in Hlen; simpl in Hlen; lia |].
        destruct (Hleaf 0 ltac:(lia)) as [v Hv].
        unfold js_get in Hv. simpl in Hv. rewrite Hv.
        repeat constructor; unfold js_length; simpl; lia. }
      rewrite (get_valid _ _ Hv1).
      rewrite (get_valid M [i; j]) by (rewrite Hsize; repeat constructor; lia).
      rewrite Hd. cbn [constructed _data].
      rewrite !walk_cons. rewrite Hla.
      rewrite !validateIndex_Ok by (unfold js_length; simpl; lia).
      cbn [bind]. reflexivity.
Qed.

(** X12.  [columns()] of a well-formed matrix of [A x B] scalars returns
    [B] tensors; the [j]-th has size [[A, 1]] and holds column [j]: its
    element at [[i, 0]] is the element of the matrix at [[i, j]]. *)
Theorem columns_hold_the_columns (M : DenseMatrix) (A B : Z) :
  well_formed M -> size M = [A; B] -> defined_leaves (_data M) = true ->
  exists cs,
    columns M = Ok cs /\ Z.of_nat (length cs) = B /\
    forall j, 0 <= j < B ->
      exists c, nth_error cs (Z.to_nat j) = Some c /\
                size c = [A; 1] /\
                forall i, 0 <= i < A -> get c [i; 0] = get M [i; j].
Proof.
  intros Hwf Hsize Hdef. unfold size in *.
  destruct (well_formed_rank2 M Hwf ltac:(rewrite Hsize; reflexivity))
    as (A' & B' & a & Hs & Hd & Hh & HA & HB & Hla & _).
  rewrite Hsize in Hs. injection Hs as <- <-. rewrite Hd in Hdef.
  set (cell := fun (j : Z) (row : MultidimArray) =>
                 Arr [match row with
                      | Arr r => js_get r j
                      | Leaf _ | Hole => Leaf Undefined
                      end]).
  assert (Hcol : forall j, 0 <= j < B ->
            for_each (fun row =>
                        match row with
                        | Hole => Ok Hole
                        | _ => x <- entry_get row j ;; Ok (Arr [read x])
                        end) a =
            Ok (map (cell j) a)).
  { intros j Hj. apply for_each_map. intros row Hin.
    apply In_nth_error in Hin as [k Hk].
    destruct (nth_error_js_get a k row Hk) as [Eg Hlt].
    destruct (matrix_row A B a (Z.of_nat k) Hh Hdef
                ltac:(unfold js_length in Hla; lia)) as [r [Er [_ Hleaf]]].
    destruct (Hleaf j Hj) as [v Hv].
    rewrite <- Eg, Er. unfold cell. cbn [entry_get bind]. rewrite Hv.
    reflexivity. }
  assert (Hcell : forall j i, 0 <= j < B -> 0 <= i < A ->
            exists v, js_get (map (cell j) a) i = Arr [Leaf (Def v)] /\
                      walk (Arr a) [i; j] = Ok (Def v)).
  { intros j i Hj Hi.
    destruct (matrix_row A B a i Hh Hdef Hi) as [r [Er [Hlen Hleaf]]].
    destruct (Hleaf j Hj) as [v Hv]. exists v. split.
    - unfold js_get in *. destruct (i <? 0) eqn:E0; [apply Z.ltb_lt in E0; lia |].
      rewrite nth_indep with (d' := cell j (Leaf Undefined))
        by (rewrite length_map; unfold js_length in Hla; lia).
      rewrite map_nth, Er. unfold cell.
      destruct (j <? 0) eqn:E1; [apply Z.ltb_lt in E1; lia |].
      rewrite Hv. reflexivity.
    - rewrite walk_cons, Hla, validateIndex_Ok by lia. cbn [bind].
      rewrite Er, walk_cons, Hlen, validateIndex_Ok by lia. cbn [bind].
      rewrite Hv. reflexivity. }
  assert (Hlen_col : forall j, js_length (map (cell j) a) = A).
  { intros j. unfold js_length in *. rewrite length_map. exact Hla. }
  assert (Hsz : forall j, 0 <= j < B ->
            arraySize (Arr (map (cell j) a)) = [A; 1]).
  { intros j Hj. destruct (Hcell j 0 Hj ltac:(lia)) as [v [Hv _]].
    cbn [arraySize]. rewrite Hlen_col.
    destruct (map (cell j) a) as [| c0 cs] eqn:Ec.
    - pose proof (Hlen_col j) as Hl. rewrite Ec in Hl.
      unfold js_length in Hl. simpl in Hl. lia.
    - unfold js_get in Hv. simpl in Hv. rewrite Hv. reflexivity. }
  exists (map (fun j => constructed (map (cell j) a)) (upto B)).
  split; [| split].
  - unfold columns, size. rewrite Hsize, Hd. cbn [length Nat.eqb negb nth].
    apply for_each_map. intros j Hj. apply upto_In in Hj.
    rewrite (Hcol j Hj). cbn [bind].
    destruct (Hcell j 0 Hj ltac:(lia)) as [v [Hv _]].
    apply new_DenseMatrix_constructed with (v := v).
    rewrite <- first_entry_js_get, Hv. reflexivity.
  - rewrite length_map. apply upto_length. lia.
  - intros j Hj. exists (constructed (map (cell j) a)). split; [| split].
    + rewrite nth_error_map. unfold upto. rewrite nth_error_map.
      rewrite nth_error_nth' with (d := 0%nat) by (rewrite length_seq; lia).
      rewrite seq_nth by lia. cbn [option_map].
      replace (Z.of_nat (0 + Z.to_nat j)) with j by lia. reflexivity.
    + unfold size, constructed. cbn [_size]. apply Hsz, Hj.
    + intros i Hi.
      assert (Hv1 : valid_index (_size (constructed (map (cell j) a))) [i; 0]).
      { unfold constructed. cbn [_size]. rewrite (Hsz j Hj).
        repeat constructor; lia. }
      rewrite (get_valid _ _ Hv1).
      rewrite (get_valid M [i; j]) by (rewrite Hsize; repeat constructor; lia).
      rewrite Hd. cbn [constructed _data].
      destruct (Hcell j i Hj Hi) as [v [Hv Hw]]. rewrite Hw.
      rewrite walk_cons, Hlen_col, validateIndex_Ok by lia. cbn [bind].
      rewrite Hv. reflexivity.
Qed.

(** ** The operations built on map *)

Lemma js_map_from_throwing_Ok {X Y : Type} (f : X -> Z -> result Y)
    (g : X -> Z -> Y) (l : list X) :
  forall k,
    (forall n x, nth_error l n = Some x ->
                 f x (k + Z.of_nat n) = Ok (g x (k + Z.of_nat n))) ->
    js_map_from_throwing f l k = Ok (js_map_from g l k).
Proof.
  induction l as [| x l IH]; intros k Hf; [reflexivity |].
  cbn [js_map_from_throwing js_map_from].
  pose proof (Hf 0%nat x eq_refl) as E0. rewrite Z.add_0_r in E0.
  rewrite E0. cbn [bind]. rewrite IH; [reflexivity |].
  intros n y Hn. specialize (Hf (S n) y Hn).
  replace (k + 1 + Z.of_nat n) with (k + Z.of_nat (S n)) by lia. exact Hf.
Qed.

(** A callback that returns at every slot behaves under [map] like the
    function it computes. *)
Lemma map_recurse_throwing_Ok (cb : Scalar -> list Z -> result Scalar)
    (g : Scalar -> list Z -> Scalar) (sz : list Z) :
  forall (d : MultidimArray) (prefix : list Z),
    has_shape sz d = true ->
    (forall rest s, valid_index sz rest -> walk d rest = Ok s ->
                    cb s (prefix ++ rest) = Ok (g s (prefix ++ rest))) ->
    map_recurse_throwing cb d prefix = Ok (map_recurse g d prefix).
Proof.
  induction sz as [| n sz IH]; intros d prefix Hs Hcb.
  - destruct d as [s | xs |]; [| discriminate | reflexivity].
    cbn [map_recurse_throwing map_recurse].
    specialize (Hcb [] s ltac:(constructor) eq_refl).
    rewrite app_nil_r in Hcb. rewrite Hcb. reflexivity.
  - destruct d as [s | xs |]; [discriminate | | discriminate].
    cbn [has_shape] in Hs. apply andb_true_iff in Hs as [Hn Hall].
    apply Z.eqb_eq in Hn. rewrite forallb_forall in Hall.
    cbn [map_recurse_throwing map_recurse]. unfold js_map.
    rewrite js_map_from_throwing_Ok
      with (g := fun child i => map_recurse g child (prefix ++ [i]));
      [reflexivity |].
    intros k child Hk. cbn [Z.add].
    destruct (nth_error_js_get xs k child Hk) as [Eg Hlt].
    apply IH; [apply Hall; eapply nth_error_In; eassumption |].
    intros rest s Hv Hw. rewrite <- !app_assoc. cbn [app].
    apply Hcb.
    + apply valid_index_cons. split; [unfold js_length in Hn; lia | exact Hv].
    + rewrite walk_cons, validateIndex_Ok by (unfold js_length; lia).
      cbn [bind]. rewrite Eg. exact Hw.
Qed.

(** A callback that throws the same error at every slot makes [map] throw
    it, as soon as the first slot is there and is not empty. *)
Lemma map_recurse_throwing_Err (cb : Scalar -> list Z -> result Scalar)
    (e : error) (sz : list Z) :
  Forall (fun n => 0 < n) sz ->
  forall (d : MultidimArray) (prefix : list Z),
    has_shape sz d = true ->
    first_is_hole d = false ->
    (forall s rest, length rest = length sz -> cb s (prefix ++ rest) = Err e) ->
    map_recurse_throwing cb d prefix = Err e.
Proof.
  induction sz as [| n sz IH]; intros Hpos d prefix Hs Hfirst Hcb.
  - destruct d as [s | xs |]; [| discriminate | discriminate].
    cbn [map_recurse_throwing].
    specialize (Hcb s [] eq_refl). rewrite app_nil_r in Hcb.
    rewrite Hcb. reflexivity.
  - destruct d as [s | xs |]; [discriminate | | discriminate].
    cbn [has_shape] in Hs. apply andb_true_iff in Hs as [Hn Hall].
    apply Z.eqb_eq in Hn. inversion Hpos as [| ? ? Hn0 Hpos']; subst.
    destruct xs as [| x0 xs]; [unfold js_length in Hn0; simpl in Hn0; lia |].
    cbn [forallb] in Hall. apply andb_true_iff in Hall as [Hx0 _].
    cbn [first_is_hole] in Hfirst.
    cbn [map_recurse_throwing js_map_from_throwing].
    rewrite (IH Hpos' x0 (prefix ++ [0]) Hx0 Hfirst); [reflexivity |].
    intros s rest Hlen. rewrite <- app_assoc. apply Hcb. simpl. congruence.
Qed.

Lemma valid_index_le (sa sb idx : list Z) :
  Forall2 Z.le sa sb -> valid_index sa idx -> valid_index sb idx.
Proof.
  intros Hle. revert idx.
  induction Hle as [| a b sa sb Hab _ IH]; intros idx Hv.
  - inversion Hv. constructor.
  - destruct idx as [| i idx]; [inversion Hv |].
    apply valid_index_cons in Hv as [Hi Hv]. apply valid_index_cons.
    split; [lia | apply IH; exact Hv].
Qed.

(** [map] with a callback that combines each element with the element of
    [m] at the same index. *)
Lemma map_with_operand (this m : DenseMatrix) (op : Scalar -> Scalar -> Value) :
  well_formed this -> well_formed m -> dense (_data this) = true ->
  (Forall2 Z.le (size this) (size m) ->
     exists c,
       DenseMatrix_map_throwing this
         (fun x index => y <- get m index ;; Ok (Def (op x y))) = Ok c /\
       size c = size this /\
       forall idx, valid_index (size this) idx ->
         get c idx = Ok (Def (op (element this idx) (element m idx)))) /\
  (length (size this) <> length (size m) ->
     DenseMatrix_map_throwing this
       (fun x index => y <- get m index ;; Ok (Def (op x y))) =
     Err (DimensionError (Z.of_nat (length (size this)))
            (Some (Z.of_nat (length (size m)))) "!=")).
Proof.
  intros Hwf Hwfm Hdense. pose proof Hwf as [Hval [Hne Hpos]].
  apply validate_has_shape in Hval. unfold size. split.
  - intros Hle.
    set (g := fun (s : Scalar) (idx : list Z) => op s (element m idx)).
    assert (E : map_recurse_throwing
                  (fun x index => y <- get m index ;; Ok (Def (op x y)))
                  (_data this) [] =
                Ok (map_recurse (fun s i => Def (g s i)) (_data this) [])).
    { apply map_recurse_throwing_Ok with (sz := _size this); [exact Hval |].
      intros rest s Hv _. cbn [app].
      pose proof (valid_index_le _ _ _ Hle Hv) as Hvm.
      destruct (get_at_valid_index m rest Hwfm Hvm) as [y Hy].
      unfold g, element. rewrite Hy. reflexivity. }
    unfold DenseMatrix_map_throwing. rewrite E. cbn [bind].
    destruct (DenseMatrix_map_well_formed this g Hwf Hdense)
      as [c [Ec [Hsz Hget]]].
    unfold DenseMatrix_map in Ec. exists c. split; [exact Ec |].
    split; [exact Hsz |]. intros idx Hidx.
    destruct (Hget idx Hidx) as [s [Hs Hc]]. rewrite Hc.
    assert (Es : element this idx = s) by (unfold element; rewrite Hs; reflexivity).
    rewrite Es. reflexivity.
  - intros Hlen. unfold DenseMatrix_map_throwing.
    rewrite map_recurse_throwing_Err
      with (sz := _size this)
           (e := DimensionError (Z.of_nat (length (_size this)))
                   (Some (Z.of_nat (length (_size m)))) "!=");
      [reflexivity | exact Hpos | exact Hval
       | apply dense_first_is_hole; exact Hdense |].
    intros s rest Hrest. cbn [app]. unfold get.
    rewrite Hrest. apply Nat.eqb_neq in Hlen. rewrite Hlen. reflexivity.
Qed.

(** X13.  [add] and [sub] do not compare the shapes of receiver and
    operand.  With well-formed tensors and no empty slot in the receiver,
    when every dimension of the operand is at least as long as that of the
    receiver, the result has the size of the receiver and combines the
    elements at equal indices (what the operand holds beyond is ignored);
    when the ranks differ, the call throws the [DimensionError] of the
    operand's [get]. *)
Theorem add_and_sub_elementwise (this m : DenseMatrix) :
  well_formed this -> well_formed m -> dense (_data this) = true ->
  (Forall2 Z.le (size this) (size m) ->
     (exists c,
        add this m = Ok c /\ size c = size this /\
        forall idx, valid_index (size this) idx ->
          get c idx =
          Ok (Def (A.add (scalarArithmetics this)
                     (element this idx) (element m idx)))) /\
     (exists c,
        sub this m = Ok c /\ size c = size this /\
        forall idx, valid_index (size this) idx ->
          get c idx =
          Ok (Def (A.sub (scalarArithmetics this)
                     (element this idx) (element m idx))))) /\
  (length (size this) <> length (size m) ->
     add this m =
       Err (DimensionError (Z.of_nat (length (size this)))
              (Some (Z.of_nat (length (size m)))) "!=") /\
     sub this m =
       Err (DimensionError (Z.of_nat (length (size this)))
              (Some (Z.of_nat (length (size m)))) "!=")).
Proof.
  intros Hwf Hwfm Hdense.
  destruct (map_with_operand this m (A.add (scalarArithmetics this))
              Hwf Hwfm Hdense) as [Ha1 Ha2].
  destruct (map_with_operand this m (A.sub (scalarArithmetics this))
              Hwf Hwfm Hdense) as [Hs1 Hs2].
  split.
  - intros Hle. split; [apply Ha1 | apply Hs1]; exact Hle.
  - intros Hlen. split; [apply Ha2 | apply Hs2]; exact Hlen.
Qed.

(** X14.  On a well-formed tensor without empty slots, [scale(s)]
    multiplies with [s] on the left and [dotMul(a, b)] with [b] on the
    right; [neg], [dotAdd] and [dotSub] apply [neg], [add] and [sub] of the
    scalar arithmetic of the tensor in the same way.  All five keep the
    size. *)
Theorem pointwise_operations (a : DenseMatrix) (b : Scalar) :
  well_formed a ->
  dense (_data a) = true ->
  let S := scalarArithmetics a in
  let pointwise (r : result DenseMatrix) (f : Scalar -> Value) :=
    exists c,
      r = Ok c /\ size c = size a /\
      forall idx, valid_index (size a) idx ->
                  get c idx = Ok (Def (f (element a idx))) in
  pointwise (scale a b) (fun x => A.mul S b x) /\
  pointwise (dotMul a b) (fun x => A.mul S x b) /\
  pointwise (neg a) (fun x => A.neg S x) /\
  pointwise (dotAdd a b) (fun x => A.add S x b) /\
  pointwise (dotSub a b) (fun x => A.sub S x b).
Proof.
  intros Hwf Hdense S pointwise.
  assert (Hmap : forall f : Scalar -> Value,
            pointwise (DenseMatrix_map a (fun x _ => Def (f x))) f).
  { intros f.
    destruct (DenseMatrix_map_well_formed a (fun x _ => f x) Hwf Hdense)
      as [c [Ec [Hsz Hget]]].
    exists c. split; [exact Ec |]. split; [exact Hsz |].
    intros idx Hidx. destruct (Hget idx Hidx) as [s [Hs Hc]].
    unfold element. rewrite Hs. exact Hc. }
  repeat split; apply Hmap.
Qed.

(** ** reshape *)







Lemma indexOf_from_none (sizes : list Z) (item : Z) :
  ~ In item sizes -> forall k, indexOf_from sizes item k = None.
Proof.
  induction sizes as [| x sizes IH]; intros Hnot k; [destruct k; reflexivity |].
  assert (Hx : x <> item) by (intros ->; apply Hnot; left; reflexivity).
  assert (Hrest : ~ In item sizes) by (intros Hin; apply Hnot; right; exact Hin).
  destruct k as [| k]; cbn [indexOf_from].
  - apply Z.eqb_neq in Hx. rewrite Hx, (IH Hrest). reflexivity.
  - rewrite (IH Hrest). reflexivity.
Qed.

Lemma processSizesWildcard_none (sizes : list Z) (currentLength : Z) :
  ~ In (-1) sizes -> processSizesWildcard sizes currentLength = Ok sizes.
Proof.
  intros Hnot. unfold processSizesWildcard.
  rewrite (indexOf_from_none sizes (-1) Hnot 0%nat). reflexivity.
Qed.

Lemma positive_no_wildcard (sizes : list Z) :
  Forall (fun n => 0 < n) sizes -> ~ In (-1) sizes.
Proof.
  intros Hpos Hin. rewrite Forall_forall in Hpos. specialize (Hpos _ Hin). lia.
Qed.



Lemma product_app (a b : list Z) : product (a ++ b) = product a * product b.
Proof.
  induction a as [| x a IH]; cbn [app].
  - change (product []) with 1. lia.
  - rewrite !product_cons, IH. lia.
Qed.

Lemma product_positive (l : list Z) :
  Forall (fun n => 0 < n) l -> 0 < product l.
Proof.
  intros Hpos. induction Hpos as [| x l Hx _ IH]; [reflexivity |].
  rewrite product_cons. nia.
Qed.

Lemma indexOf_from_first (pre post : list Z) (item : Z) :
  ~ In item pre ->
  indexOf_from (pre ++ item :: post) item 0 = Some (length pre).
Proof.
  induction pre as [| x pre IH]; intros Hnot; cbn [app indexOf_from length].
  - rewrite Z.eqb_refl. reflexivity.
  - assert (Hx : x <> item) by (intros ->; apply Hnot; left; reflexivity).
    apply Z.eqb_neq in Hx. rewrite Hx, IH; [reflexivity |].
    intros Hin. apply Hnot. right. exact Hin.
Qed.

Lemma indexOf_from_after (pre post : list Z) (x item : Z) :
  indexOf_from (pre ++ x :: post) item (length pre + 1) =
  option_map (fun k => (length pre + 1 + k)%nat) (indexOf_from post item 0).
Proof.
  induction pre as [| y pre IH]; cbn [app length Nat.add indexOf_from].
  - destruct (indexOf_from post item 0); reflexivity.
  - rewrite IH. destruct (indexOf_from post item 0); reflexivity.
Qed.

Lemma indexOf_from_found (l : list Z) (item : Z) :
  In item l -> exists k, indexOf_from l item 0 = Some k.
Proof.
  induction l as [| x l IH]; intros Hin; [contradiction |].
  cbn [indexOf_from]. destruct (x =? item) eqn:E; [eauto |].
  destruct Hin as [-> | Hin]; [rewrite Z.eqb_refl in E; discriminate |].
  destruct (IH Hin) as [k ->]. cbn. eauto.
Qed.

Lemma replace_at_middle {X : Type} (pre post : list X) (x v : X) :
  replace_at (pre ++ x :: post) (length pre) v = pre ++ v :: post.
Proof.
  induction pre as [| y pre IH]; cbn [app length replace_at]; [reflexivity |].
  rewrite IH. reflexivity.
Qed.

(** X16.  The wildcard [-1] in the sizes of [reshape] stands for the one
    length that makes the product fit: when the other sizes are positive
    and their product times [q] is the number of scalars, it is replaced by
    [q], and [reshape] does what it does for the sizes with [q] in its
    place.  A second wildcard is answered by an error. *)
Theorem reshape_resolves_the_wildcard (xs : list MultidimArray)
    (pre post : list Z) (q : Z) :
  Forall (fun n => 0 < n) pre -> Forall (fun n => 0 < n) post -> 0 <= q ->
  q * product (pre ++ post) = Z.of_nat (length (flat_map flatten_callback xs)) ->
  processSizesWildcard (pre ++ -1 :: post)
    (Z.of_nat (length (flat_map flatten_callback xs))) =
    Ok (pre ++ q :: post) /\
  reshape (Arr xs) (pre ++ -1 :: post) = reshape (Arr xs) (pre ++ q :: post) /\
  forall more currentLength,
    processSizesWildcard (pre ++ -1 :: post ++ -1 :: more) currentLength =
    Err (PlainError "More than one wildcard in sizes").
Proof.
  intros Hpre Hpost Hq Hprod.
  set (N := Z.of_nat (length (flat_map flatten_callback xs))) in *.
  assert (Hnpre : ~ In (-1) pre) by (apply positive_no_wildcard; exact Hpre).
  assert (Hnpost : ~ In (-1) post) by (apply positive_no_wildcard; exact Hpost).
  assert (HP : 0 < product (pre ++ post)).
  { apply product_positive. apply Forall_app. split; assumption. }
  assert (Hnew : product (pre ++ -1 :: post) = - product (pre ++ post)).
  { rewrite !product_app, product_cons. lia. }
  assert (E1 : processSizesWildcard (pre ++ -1 :: post) N = Ok (pre ++ q :: post)).
  { unfold processSizesWildcard.
    rewrite (indexOf_from_first pre post (-1) Hnpre).
    rewrite indexOf_from_after, (indexOf_from_none post (-1) Hnpost 0%nat).
    cbn [option_map]. rewrite Hnew.
    replace (- product (pre ++ post) =? 0) with false
      by (symmetry; apply Z.eqb_neq; lia).
    cbn [negb andb].
    replace (Z.rem N (- product (pre ++ post))) with 0
      by (rewrite <- Hprod, Z.rem_opp_r, Z.rem_mul by lia; reflexivity).
    cbn [Z.eqb]. rewrite replace_at_middle. do 2 f_equal.
    rewrite <- Hprod, Z.quot_opp_opp, Z.quot_mul by lia. reflexivity. }
  split; [exact E1 |]. split.
  - assert (E2 : processSizesWildcard (pre ++ q :: post) N = Ok (pre ++ q :: post)).
    { apply processSizesWildcard_none. intros Hin.
      apply in_app_or in Hin as [Hin | [Hin | Hin]];
        [apply Hnpre, Hin | lia | apply Hnpost, Hin]. }
    assert (HN : js_length (map Leaf (flat_map flatten_callback xs)) = N)
      by (unfold js_length; rewrite length_map; reflexivity).
    assert (Hlen : forall x, (length (pre ++ x :: post) =? 0)%nat = false)
      by (intros x; destruct pre; reflexivity).
    unfold reshape. cbv zeta. rewrite HN, E1, E2, !Hlen. reflexivity.
  - intros more currentLength. unfold processSizesWildcard.
    rewrite (indexOf_from_first pre (post ++ -1 :: more) (-1) Hnpre).
    rewrite indexOf_from_after.
    destruct (indexOf_from_found (post ++ -1 :: more) (-1)
                ltac:(apply in_or_app; right; left; reflexivity)) as [k ->].
    reflexivity.
Qed.













(** ** squeeze, unsqueeze *)

Lemma repeat_snoc {X : Type} (x : X) (n : nat) :
  repeat x n ++ [x] = x :: repeat x n.
Proof.
  induction n as [| n IH]; [reflexivity |].
  cbn [repeat app]. rewrite IH. reflexivity.
Qed.

Lemma has_shape_read (sz : list Z) (x : MultidimArray) :
  has_shape sz x = true -> has_shape sz (read x) = true.
Proof.
  destruct x; [auto | auto |]. destruct sz; [reflexivity | discriminate].
Qed.

Lemma leaves_read (x : MultidimArray) : leaves (read x) = leaves x.
Proof. destruct x; reflexivity. Qed.

Lemma wrap_shape (n : nat) :
  forall (sz : list Z) (x : MultidimArray),
    has_shape sz x = true ->
    has_shape (repeat 1 n ++ sz) (wrap n x) = true /\
    leaves (wrap n x) = leaves x.
Proof.
  induction n as [| n IH]; intros sz x Hs; [auto |].
  cbn [wrap].
  destruct (IH (1 :: sz) (Arr [x])) as [I1 I2].
  { cbn [has_shape forallb]. rewrite Hs. reflexivity. }
  split.
  - replace (repeat 1 (S n) ++ sz) with (repeat 1 n ++ 1 :: sz); [exact I1 |].
    cbn [repeat]. rewrite <- repeat_snoc, <- app_assoc. reflexivity.
  - rewrite I2. cbn [leaves flat_map]. apply app_nil_r.
Qed.

Lemma _unsqueeze_shape (dims : Z) (sz : list Z) :
  forall (x : MultidimArray) (dim : Z),
    has_shape sz x = true ->
    has_shape (sz ++ repeat 1 (Z.to_nat (dims - dim - Z.of_nat (length sz))))
      (_unsqueeze x dims dim) = true /\
    leaves (_unsqueeze x dims dim) = leaves x.
Proof.
  induction sz as [| n sz IH]; intros x dim Hs.
  - assert (E : _unsqueeze x dims dim = wrap (Z.to_nat (dims - dim)) (read x))
      by (destruct x; [reflexivity | discriminate | reflexivity]).
    rewrite E. cbn [app length]. rewrite Z.sub_0_r.
    destruct (wrap_shape (Z.to_nat (dims - dim)) [] (read x)
                (has_shape_read _ _ Hs)) as [W1 W2].
    rewrite app_nil_r in W1. rewrite leaves_read in W2. auto.
  - destruct x as [s | xs |]; [discriminate | | discriminate].
    cbn [has_shape] in Hs. apply andb_true_iff in Hs as [Hn Hall].
    rewrite forallb_forall in Hall.
    cbn [_unsqueeze app has_shape leaves].
    unfold js_length in *. rewrite length_map, Hn. cbn [andb].
    replace (dims - dim - Z.of_nat (length (n :: sz)))
      with (dims - (dim + 1) - Z.of_nat (length sz))
      by (cbn [length]; lia).
    split.
    + apply forallb_forall. intros y Hy.
      apply in_map_iff in Hy as [x [<- Hx]].
      apply IH, Hall, Hx.
    + clear Hn. induction xs as [| x xs IHxs]; [reflexivity |].
      cbn [map flat_map].
      rewrite (proj2 (IH x (dim + 1) (Hall x (or_introl eq_refl)))).
      rewrite IHxs; [reflexivity |].
      intros y Hy. apply Hall. right. exact Hy.
Qed.

(** X19.  [unsqueeze] keeps the size list in step with the array: for an
    array of shape [size], the array returned has the shape that the call
    leaves in the size list, which is [size] with [outer] ones in front and
    ones appended up to [dims] entries; the scalars and their order are
    unchanged. *)
Theorem unsqueeze_keeps_size_in_step (x : MultidimArray) (sz : list Z)
    (dims outer : Z) :
  has_shape sz x = true ->
  validate (fst (unsqueeze x dims outer (Some sz)))
           (snd (unsqueeze x dims outer (Some sz))) = Ok tt /\
  snd (unsqueeze x dims outer (Some sz)) =
    repeat 1 (Z.to_nat outer) ++ sz ++
    repeat 1 (Z.to_nat dims - (Z.to_nat outer + length sz)) /\
  leaves (fst (unsqueeze x dims outer (Some sz))) = leaves x.
Proof.
  intros Hs. unfold unsqueeze. cbn [fst snd].
  destruct (wrap_shape (Z.to_nat outer) sz (read x) (has_shape_read _ _ Hs))
    as [W1 W2].
  destruct (_unsqueeze_shape dims _ (wrap (Z.to_nat outer) (read x)) 0 W1)
    as [U1 U2].
  split; [| split].
  - apply validate_has_shape.
    replace (Z.to_nat dims - length (repeat 1%Z (Z.to_nat outer) ++ sz))%nat
      with (Z.to_nat (dims - 0 -
                      Z.of_nat (length (repeat 1 (Z.to_nat outer) ++ sz))))
      by lia.
    exact U1.
  - rewrite length_app, repeat_length, <- app_assoc. reflexivity.
  - rewrite U2, W2. apply leaves_read.
Qed.

Lemma squeeze_outer_shape (x : MultidimArray) :
  forall sz, has_shape sz x = true ->
    has_shape (snd (squeeze_outer x sz)) (fst (squeeze_outer x sz)) = true /\
    leaves (fst (squeeze_outer x sz)) = leaves x /\
    (exists j, sz = repeat 1 j ++ snd (squeeze_outer x sz)) /\
    hd 0 (snd (squeeze_outer x sz)) <> 1.
Proof.
  induction x as [s | xs IH |] using MultidimArray_nested_ind; intros sz Hs.
  - destruct sz; [| discriminate]. cbn. repeat split.
    + exists 0%nat. reflexivity.
    + lia.
  - destruct sz as [| n sz]; [discriminate |].
    pose proof Hs as Hs'. cbn [has_shape] in Hs'.
    apply andb_true_iff in Hs' as [Hn Hall]. apply Z.eqb_eq in Hn.
    destruct xs as [| x0 [| x1 xs]].
    + cbn [squeeze_outer fst snd]. split; [exact Hs |].
      split; [reflexivity |]. split; [exists 0%nat; reflexivity |].
      cbn [hd]. unfold js_length in Hn. cbn [length] in Hn. lia.
    + cbn [forallb] in Hall. apply andb_true_iff in Hall as [Hx0 _].
      inversion IH as [| ? ? IH0 _]; subst.
      destruct (IH0 sz Hx0) as [I1 [I2 [[j Hj] I4]]].
      assert (E : squeeze_outer (Arr [x0]) (js_length [x0] :: sz) =
                  match x0 with
                  | Hole => (Leaf Undefined, sz)
                  | _ => squeeze_outer x0 sz
                  end) by (destruct x0; reflexivity).
      rewrite E. destruct x0 as [s0 | ys |].
      * split; [exact I1 |]. split; [| split; [| exact I4]].
        -- rewrite I2. cbn [leaves flat_map]. symmetry. apply app_nil_r.
        -- exists (S j). unfold js_length. cbn [length repeat app Z.of_nat].
           rewrite <- Hj. reflexivity.
      * split; [exact I1 |]. split; [| split; [| exact I4]].
        -- rewrite I2. cbn [leaves flat_map]. symmetry. apply app_nil_r.
        -- exists (S j). unfold js_length. cbn [length repeat app Z.of_nat].
           rewrite <- Hj. reflexivity.
      * destruct sz; [| discriminate]. cbn [fst snd]. repeat split.
        -- exists 1%nat. reflexivity.
        -- cbn [hd]. lia.
    + assert (E : forall s, squeeze_outer (Arr (x0 :: x1 :: xs)) s =
                            (Arr (x0 :: x1 :: xs), s))
        by (intros; destruct x0; reflexivity).
      rewrite E. cbn [fst snd]. split; [exact Hs |].
      split; [reflexivity |]. split; [exists 0%nat; reflexivity |].
      cbn [hd]. unfold js_length in Hn. cbn [length] in Hn. lia.
  - destruct sz; [| discriminate]. cbn. repeat split.
    + exists 0%nat. reflexivity.
    + lia.
Qed.

Lemma squeeze_dims_spec (s : list Z) :
  forall d, (d <= length s)%nat ->
    (forall j, (d <= j < length s)%nat -> nth j s 0 = 1) ->
    (squeeze_dims s d <= d)%nat /\
    (forall j, (squeeze_dims s d <= j < length s)%nat -> nth j s 0 = 1) /\
    (squeeze_dims s d = 0%nat \/ nth (squeeze_dims s d - 1) s 0 <> 1).
Proof.
  induction d as [| d IH]; intros Hd Hones.
  - cbn. repeat split; auto.
  - cbn [squeeze_dims]. destruct (nth d s 0 =? 1) eqn:E.
    + apply Z.eqb_eq in E.
      destruct (IH ltac:(lia)) as [I1 [I2 I3]].
      { intros j Hj. destruct (Nat.eq_dec j d) as [-> | Hne]; [exact E |].
        apply Hones. lia. }
      repeat split; [lia | exact I2 | exact I3].
    + apply Z.eqb_neq in E. repeat split; [lia | exact Hones |].
      right. cbn [Nat.sub]. rewrite Nat.sub_0_r. exact E.
Qed.

Lemma trailing_ones (s : list Z) (d : nat) :
  (d <= length s)%nat ->
  (forall j, (d <= j < length s)%nat -> nth j s 0 = 1) ->
  s = firstn d s ++ repeat 1 (length s - d).
Proof.
  intros Hd Hones. rewrite <- (firstn_skipn d s) at 1. f_equal.
  apply nth_ext with (d := 0) (d' := 0).
  - rewrite length_skipn, repeat_length. reflexivity.
  - intros k Hk. rewrite length_skipn in Hk.
    rewrite nth_skipn, nth_repeat_lt by lia. apply Hones. lia.
Qed.

Lemma last_firstn (s : list Z) :
  forall d, (0 < d <= length s)%nat ->
            last (firstn d s) 0 = nth (d - 1) s 0.
Proof.
  induction s as [| a s IH]; intros d Hd; cbn [length] in Hd; [lia |].
  destruct d as [| [| d]]; [lia | destruct s; reflexivity |].
  destruct s as [| b s]; [cbn [length] in Hd; lia |].
  specialize (IH (S d) ltac:(cbn [length] in *; lia)).
  cbn [Nat.sub] in *. rewrite Nat.sub_0_r in IH.
  change (firstn (S (S d)) (a :: b :: s)) with (a :: b :: firstn d s).
  change (firstn (S d) (b :: s)) with (b :: firstn d s) in IH.
  change (last (a :: b :: firstn d s) 0) with (last (b :: firstn d s) 0).
  rewrite IH. reflexivity.
Qed.

Lemma ones_shape (k : nat) :
  forall x, has_shape (repeat 1 k) x = true ->
            leaves x = [first_entry x].
Proof.
  induction k as [| k IH]; intros x Hs.
  - destruct x; [reflexivity | discriminate | reflexivity].
  - destruct x as [s | xs |]; [discriminate | | discriminate].
    cbn [repeat has_shape] in Hs. apply andb_true_iff in Hs as [Hn Hall].
    apply Z.eqb_eq in Hn.
    destruct xs as [| x0 [| x1 xs]];
      try (unfold js_length in Hn; simpl in Hn; lia).
    cbn [forallb] in Hall. apply andb_true_iff in Hall as [Hx0 _].
    cbn [leaves flat_map first_entry].
    rewrite app_nil_r. apply IH. exact Hx0.
Qed.

Lemma _squeeze_shape (k : nat) (keep : list Z) :
  forall x, has_shape (keep ++ repeat 1 k) x = true ->
    exists x', _squeeze x (length keep) = Ok x' /\
               has_shape keep x' = true /\
               leaves x' = leaves x.
Proof.
  induction keep as [| n keep IH]; intros x Hs.
  - cbn [length app] in *. eexists.
    split; [destruct x; reflexivity |].
    split; [reflexivity |]. cbn [leaves].
    symmetry. apply (ones_shape k). exact Hs.
  - destruct x as [s | xs |]; [discriminate | | discriminate].
    cbn [app has_shape] in Hs. apply andb_true_iff in Hs as [Hn Hall].
    cbn [length _squeeze].
    assert (Hfe : exists ys,
              for_each (fun x => _squeeze x (length keep)) xs = Ok ys /\
              length ys = length xs /\
              forallb (has_shape keep) ys = true /\
              flat_map leaves ys = flat_map leaves xs).
    { clear Hn. induction xs as [| x0 xs IHxs].
      - exists []. repeat split.
      - cbn [forallb] in Hall. apply andb_true_iff in Hall as [Hx0 Hall].
        destruct (IH x0 Hx0) as [y0 [E0 [S0 F0]]].
        destruct (IHxs Hall) as [ys [E [L [S F]]]].
        exists (y0 :: ys). cbn [for_each]. rewrite E0. cbn [bind].
        rewrite E. cbn [bind]. split; [reflexivity |].
        split; [simpl; congruence |]. split.
        + cbn [forallb]. rewrite S0, S. reflexivity.
        + cbn [flat_map]. rewrite F0, F. reflexivity. }
    destruct Hfe as [ys [E [L [S F]]]].
    rewrite E. cbn [bind]. eexists. split; [reflexivity |]. split.
    + cbn [has_shape]. unfold js_length in *. rewrite L, Hn. exact S.
    + cbn [leaves]. exact F.
Qed.

(** X20.  [squeeze] keeps the size list in step with the array: for an
    array of shape [size], the array returned has the shape that the call
    leaves in the size list, which is [size] without the ones at its front
    and at its end (ones in between stay); the scalars and their order are
    unchanged. *)
Theorem squeeze_keeps_size_in_step (x : MultidimArray) (sz : list Z) :
  has_shape sz x = true ->
  exists x' s',
    squeeze x (Some sz) = Ok (x', s') /\
    validate x' s' = Ok tt /\
    leaves x' = leaves x /\
    (exists j k, sz = repeat 1 j ++ s' ++ repeat 1 k) /\
    hd 0 s' <> 1 /\ last s' 0 <> 1.
Proof.
  intros Hs. unfold squeeze.
  destruct (squeeze_outer_shape x sz Hs) as [O1 [O2 [[j Hj] O4]]].
  destruct (squeeze_outer x sz) as [x1 s1]. cbn [fst snd] in *.
  destruct (squeeze_dims_spec s1 (length s1) (Nat.le_refl _)
              ltac:(intros; lia)) as [D1 [D2 D3]].
  set (dims := squeeze_dims s1 (length s1)) in *.
  pose proof (trailing_ones s1 dims D1 D2) as Hsplit.
  assert (Hlast : last (firstn dims s1) 0 <> 1).
  { destruct D3 as [D3 | D3].
    - rewrite D3. cbn. lia.
    - destruct (Nat.eq_dec dims 0) as [E | E]; [rewrite E; cbn; lia |].
      rewrite <- (last_firstn s1 dims) in D3 by lia. exact D3. }
  destruct (dims <? length s1)%nat eqn:Elt.
  - rewrite Hsplit in O1.
    destruct (_squeeze_shape _ _ x1 O1) as [x' [E [S F]]].
    rewrite length_firstn, Nat.min_l in E by exact D1.
    rewrite E. cbn [bind]. exists x', (firstn dims s1).
    split; [reflexivity |]. split; [apply validate_has_shape; exact S |].
    split; [congruence |]. split; [| split; [| exact Hlast]].
    + exists j, (length s1 - dims)%nat. rewrite <- Hsplit. exact Hj.
    + apply Nat.ltb_lt in Elt. destruct dims as [| d]; [cbn; lia |].
      destruct s1; [simpl in Elt; lia | exact O4].
  - apply Nat.ltb_ge in Elt. assert (Ed : dims = length s1) by lia.
    rewrite Ed, firstn_all in Hlast.
    exists x1, s1. split; [reflexivity |].
    split; [apply validate_has_shape; exact O1 |].
    split; [exact O2 |]. split; [| split; assumption].
    exists j, 0%nat. rewrite app_nil_r. exact Hj.
Qed.

Lemma squeeze_outer_wrap (n : nat) :
  forall (x : MultidimArray) (s : list Z),
    x <> Hole ->
    squeeze_outer (wrap n x) (repeat 1 n ++ s) = squeeze_outer x s.
Proof.
  induction n as [| n IH]; intros x s Hx; [reflexivity |].
  cbn [wrap].
  replace (repeat 1 (S n) ++ s) with (repeat 1 n ++ 1 :: s)
    by (cbn [repeat]; rewrite <- repeat_snoc, <- app_assoc; reflexivity).
  rewrite IH by discriminate.
  destruct x; [reflexivity | reflexivity | congruence].
Qed.

Lemma squeeze_outer_stops (x : MultidimArray) (sz s : list Z) :
  has_shape sz x = true -> hd 0 sz <> 1 -> squeeze_outer x s = (x, s).
Proof.
  intros Hs Hhd. destruct x as [v | xs |]; [reflexivity | | reflexivity].
  destruct sz as [| n sz]; [discriminate |].
  cbn [has_shape] in Hs. apply andb_true_iff in Hs as [Hn _].
  apply Z.eqb_eq in Hn. cbn [hd] in Hhd.
  destruct xs as [| x0 [| x1 xs]]; try reflexivity; [| destruct x0; reflexivity].
  unfold js_length in Hn. cbn [length] in Hn. lia.
Qed.

Lemma _unsqueeze_wrap (dims : Z) (n : nat) :
  forall (x : MultidimArray) (dim : Z),
    _unsqueeze (wrap n x) dims dim =
    wrap n (_unsqueeze x dims (dim + Z.of_nat n)).
Proof.
  induction n as [| n IH]; intros x dim.
  - cbn [wrap Z.of_nat]. rewrite Z.add_0_r. reflexivity.
  - cbn [wrap]. rewrite IH. cbn [_unsqueeze map].
    replace (dim + Z.of_nat n + 1) with (dim + Z.of_nat (S n)) by lia.
    reflexivity.
Qed.

Lemma first_entry_wrap (n : nat) :
  forall x, first_entry (wrap n x) = first_entry x.
Proof.
  induction n as [| n IH]; intros x; [reflexivity |].
  cbn [wrap]. rewrite IH. reflexivity.
Qed.

Lemma for_each_map_Ok {X Y W : Type} (f : Y -> result W) (g : X -> Y)
    (h : X -> W) (l : list X) :
  (forall x, In x l -> f (g x) = Ok (h x)) ->
  for_each f (map g l) = Ok (map h l).
Proof.
  induction l as [| x l IH]; intros Hf; [reflexivity |].
  cbn [map for_each]. rewrite (Hf x (or_introl eq_refl)). cbn [bind].
  rewrite IH by (intros y Hy; apply Hf; right; exact Hy). reflexivity.
Qed.

Lemma _unsqueeze_not_Hole (x : MultidimArray) (dims dim : Z) :
  _unsqueeze x dims dim <> Hole.
Proof.
  assert (W : forall n y, y <> Hole -> wrap n y <> Hole).
  { induction n as [| n IH]; intros y Hy; [exact Hy |].
    cbn [wrap]. apply IH. discriminate. }
  destruct x; cbn [_unsqueeze read]; try discriminate; apply W; discriminate.
Qed.

(** [_squeeze] takes off what [_unsqueeze] put around the scalars; the
    slots that were empty now hold [undefined]. *)
Lemma _squeeze_unsqueeze (dims : Z) (sz : list Z) :
  forall (x : MultidimArray) (dim : Z),
    has_shape sz x = true ->
    _squeeze (_unsqueeze x dims dim) (length sz) = Ok (filled x).
Proof.
  induction sz as [| n sz IH]; intros x dim Hs.
  - assert (E : _unsqueeze x dims dim = wrap (Z.to_nat (dims - dim)) (read x))
      by (destruct x; [reflexivity | discriminate | reflexivity]).
    rewrite E. cbn [length].
    assert (E0 : forall y, _squeeze y 0 = Ok (Leaf (first_entry y)))
      by (intros y; destruct y; reflexivity).
    rewrite E0, first_entry_wrap.
    destruct x; [reflexivity | discriminate | reflexivity].
  - destruct x as [s | xs |]; [discriminate | | discriminate].
    cbn [has_shape] in Hs. apply andb_true_iff in Hs as [_ Hall].
    rewrite forallb_forall in Hall.
    cbn [_unsqueeze length _squeeze filled].
    rewrite for_each_map_Ok with (h := filled); [reflexivity |].
    intros y Hy. apply IH, Hall, Hy.
Qed.

Lemma _unsqueeze_deep_enough (dims : Z) (sz : list Z) :
  forall (x : MultidimArray) (dim : Z),
    has_shape sz x = true ->
    dims <= dim + Z.of_nat (length sz) ->
    _unsqueeze x dims dim = filled x.
Proof.
  induction sz as [| n sz IH]; intros x dim Hs Hd.
  - cbn [length] in Hd.
    destruct x as [s | xs |]; [| discriminate |]; cbn [_unsqueeze];
      replace (Z.to_nat (dims - dim)) with 0%nat by lia; reflexivity.
  - destruct x as [s | xs |]; [discriminate | | discriminate].
    cbn [has_shape] in Hs. apply andb_true_iff in Hs as [_ Hall].
    rewrite forallb_forall in Hall. cbn [_unsqueeze filled]. f_equal.
    apply map_ext_in.
    intros y Hy. apply IH; [apply Hall, Hy |]. cbn [length] in Hd. lia.
Qed.

Lemma has_shape_filled (sz : list Z) :
  forall x, has_shape sz x = true -> has_shape sz (filled x) = true.
Proof.
  induction sz as [| n sz IH]; intros x Hs.
  - destruct x; [reflexivity | discriminate | reflexivity].
  - destruct x as [s | xs |]; [discriminate | | discriminate].
    cbn [has_shape filled] in *. apply andb_true_iff in Hs as [Hn Hall].
    unfold js_length in *. rewrite length_map, Hn. cbn [andb].
    rewrite forallb_forall in Hall. apply forallb_forall. intros y Hy.
    apply in_map_iff in Hy as [x [<- Hx]]. apply IH, Hall, Hx.
Qed.

Lemma squeeze_dims_padding (sz : list Z) (k : nat) :
  last sz 0 <> 1 ->
  squeeze_dims (sz ++ repeat 1 k) (length sz + k) = length sz.
Proof.
  intros Hlast. induction k as [| k IH].
  - rewrite Nat.add_0_r. cbn [repeat]. rewrite app_nil_r.
    destruct (length sz) as [| d] eqn:El; [reflexivity |].
    cbn [squeeze_dims].
    assert (E : nth d sz 0 = last sz 0).
    { rewrite <- (firstn_all sz) at 2. rewrite El.
      rewrite last_firstn by lia. cbn [Nat.sub]. rewrite Nat.sub_0_r.
      reflexivity. }
    rewrite E. destruct (last sz 0 =? 1) eqn:E1; [| reflexivity].
    apply Z.eqb_eq in E1. contradiction.
  - replace (length sz + S k)%nat with (S (length sz + k)) by lia.
    cbn [squeeze_dims].
    rewrite app_nth2 by lia.
    rewrite nth_repeat_lt by lia. cbn [Z.eqb Pos.eqb].
    assert (Egrow : forall d, (d <= length sz + k)%nat ->
                      squeeze_dims (sz ++ repeat 1 (S k)) d =
                      squeeze_dims (sz ++ repeat 1 k) d).
    { induction d as [| d IHd]; intros Hd; [reflexivity |].
      cbn [squeeze_dims]. rewrite IHd by lia.
      assert (En : nth d (sz ++ repeat 1 (S k)) 0 =
                   nth d (sz ++ repeat 1 k) 0).
      { destruct (Nat.lt_ge_cases d (length sz)) as [Hlt | Hge].
        - rewrite !app_nth1 by exact Hlt. reflexivity.
        - rewrite !app_nth2 by exact Hge.
          rewrite !nth_repeat_lt by lia. reflexivity. }
      rewrite En. reflexivity. }
    rewrite Egrow by lia. exact IH.
Qed.

(** X21.  [squeeze] undoes [unsqueeze]: for an array of shape [size] whose
    first and last entry are not 1, squeezing what [unsqueeze] returned,
    with the size list as [unsqueeze] left it, gives back [size] and the
    array, whatever [dims] and [outer] were; a slot of the array that was
    empty holds [undefined] afterwards ([filled]; an array without empty
    slots is its own [filled], lemma [filled_dense]). *)
Theorem squeeze_undoes_unsqueeze (x : MultidimArray) (sz : list Z)
    (dims outer : Z) :
  has_shape sz x = true ->
  hd 0 sz <> 1 -> last sz 0 <> 1 ->
  squeeze (fst (unsqueeze x dims outer (Some sz)))
          (Some (snd (unsqueeze x dims outer (Some sz)))) = Ok (filled x, sz).
Proof.
  intros Hs Hhd Hlast. unfold unsqueeze. cbn [fst snd].
  set (o := Z.to_nat outer).
  rewrite _unsqueeze_wrap, Z.add_0_l.
  set (k := (Z.to_nat dims - length (repeat 1%Z o ++ sz))%nat).
  unfold squeeze.
  rewrite <- app_assoc, squeeze_outer_wrap by apply _unsqueeze_not_Hole.
  pose proof (has_shape_read _ _ Hs) as Hs'.
  destruct (_unsqueeze_shape dims sz (read x) (Z.of_nat o) Hs') as [Hshape _].
  assert (Ek : Z.to_nat (dims - Z.of_nat o - Z.of_nat (length sz)) = k).
  { unfold k. rewrite length_app, repeat_length. lia. }
  rewrite Ek in Hshape.
  assert (Efill : filled (read x) = filled x) by (destruct x; reflexivity).
  destruct sz as [| n sz'].
  - assert (E : _unsqueeze (read x) dims (Z.of_nat o) = wrap k (read x)).
    { replace k with (Z.to_nat (dims - Z.of_nat o))
        by (rewrite <- Ek; cbn [length]; lia).
      destruct x; [reflexivity | discriminate | reflexivity]. }
    rewrite E. cbn [app].
    rewrite <- (app_nil_r (repeat 1 k)), squeeze_outer_wrap
      by (destruct x; discriminate).
    destruct x; [reflexivity | discriminate | reflexivity].
  - rewrite (squeeze_outer_stops _ ((n :: sz') ++ repeat 1 k) _ Hshape Hhd).
    rewrite length_app, repeat_length, squeeze_dims_padding by exact Hlast.
    destruct (length (n :: sz') <? length (n :: sz') + k)%nat eqn:Elt.
    + rewrite (_squeeze_unsqueeze dims _ (read x) _ Hs'). cbn [bind].
      rewrite firstn_app, firstn_all, Nat.sub_diag. cbn [firstn].
      rewrite app_nil_r, Efill. reflexivity.
    + apply Nat.ltb_ge in Elt. assert (k = 0)%nat as -> by lia.
      cbn [repeat]. rewrite app_nil_r.
      rewrite (_unsqueeze_deep_enough dims _ (read x) _ Hs') by lia.
      rewrite Efill. reflexivity.
Qed.

(** ** datatype *)

Lemma getArrayDataType_uniform (t : string) (x : MultidimArray) :
  forall sz, has_shape sz x = true -> sz <> [] -> Forall (fun n => 0 < n) sz ->
    Forall (fun s => typeOf s = t) (leaves x) ->
    getArrayDataType x = Some t.
Proof.
  induction x as [s | xs IH |] using MultidimArray_nested_ind;
    intros sz Hs Hne Hpos Hty;
    [destruct sz; [congruence | discriminate] |
     | destruct sz; [congruence | discriminate]].
  - destruct sz as [| n sz]; [discriminate |].
    cbn [has_shape] in Hs. apply andb_true_iff in Hs as [Hn Hall].
    apply Z.eqb_eq in Hn. inversion Hpos as [| ? ? Hn0 Hpos']; subst.
    rewrite Forall_forall in IH, Hty. rewrite forallb_forall in Hall.
    cbn [leaves] in Hty.
    cbn [getArrayDataType].
    match goal with
    | |- ?f xs true 0 None = _ =>
        assert (Hloop : forall l first len type,
                   incl l xs ->
                   (sz = [] \/ first = true \/ len = hd 0 sz) ->
                   (type = Some t \/ (type = None /\ l <> [])) ->
                   f l first len type = Some t)
    end.
    { induction l as [| item l IHl]; intros first len type Hin Hlen Htype.
      - destruct Htype as [-> | [_ Hc]]; [reflexivity | congruence].
      - assert (Hitem : In item xs) by (apply Hin; left; reflexivity).
        assert (Hl : incl l xs) by (intros y Hy; apply Hin; right; exact Hy).
        pose proof (Hall item Hitem) as Hshape.
        destruct item as [s | ys |].
        + destruct sz; [| discriminate].
          assert (Hs : typeOf s = t).
          { apply Hty. apply in_flat_map. exists (Leaf s).
            split; [exact Hitem | left; reflexivity]. }
          cbn [isArray andb]. rewrite Hs.
          destruct Htype as [-> | [-> _]].
          * rewrite String.eqb_refl. apply IHl; auto.
          * apply IHl; auto.
        + destruct sz as [| m sz']; [discriminate |].
          pose proof Hshape as Hshape'. cbn [has_shape] in Hshape'.
          apply andb_true_iff in Hshape' as [Hm _]. apply Z.eqb_eq in Hm.
          assert (Hit : getArrayDataType (Arr ys) = Some t).
          { apply (IH (Arr ys) Hitem (m :: sz') Hshape);
              [discriminate | exact Hpos' |].
            apply Forall_forall. intros s Hs. apply Hty.
            apply in_flat_map. exists (Arr ys). split; assumption. }
          cbn [isArray andb hd] in *. rewrite Hit, Hm.
          assert (Elen : (if first && true then m else len) = m).
          { destruct Hlen as [Hc | [-> | ->]];
              [discriminate | reflexivity | destruct first; reflexivity]. }
          rewrite Elen, Z.eqb_refl. cbn [negb].
          destruct Htype as [-> | [-> _]].
          * rewrite String.eqb_refl. apply IHl; auto.
          * apply IHl; auto.
        + destruct sz; [| discriminate].
          assert (Hs : typeOf Undefined = t).
          { apply Hty. apply in_flat_map. exists Hole.
            split; [exact Hitem | left; reflexivity]. }
          cbn [isArray andb]. subst t.
          destruct Htype as [-> | [-> _]].
          * rewrite String.eqb_refl. apply IHl; auto.
          * apply IHl; auto. }
    apply Hloop; [apply incl_refl | right; left; reflexivity |].
    right. split; [reflexivity |].
    destruct xs; [unfold js_length in Hn0; simpl in Hn0; lia | discriminate].
Qed.

(** X22.  The [datatype] getter, on a well-formed tensor without a stored
    tag whose scalars all have the type name [t], returns [t] and stores it.
    The stored tag is then what the getter returns from then on: [set] does
    not clear it, so after a scalar of another type has been written the
    getter still returns [t].  (The scalars are what reading the slots
    gives: an empty slot counts as [undefined].) *)
Theorem datatype_of_uniform_tensor (m : DenseMatrix) (t : string) :
  well_formed m ->
  _datatype m = None ->
  Forall (fun s => typeOf s = t) (leaves (_data m)) ->
  snd (get_datatype m) = Some t /\
  _datatype (fst (get_datatype m)) = Some t /\
  _data (fst (get_datatype m)) = _data m /\
  forall index v m',
    set (fst (get_datatype m)) index v = Ok m' ->
    snd (get_datatype m') = Some t.
Proof.
  intros [Hval [Hne Hpos]] Hdt Hty.
  apply validate_has_shape in Hval.
  pose proof (getArrayDataType_uniform t (_data m) (_size m) Hval Hne Hpos Hty)
    as Hget.
  unfold get_datatype. rewrite Hdt, Hget. cbn [fst snd _datatype _data].
  repeat split.
  intros index v m' Hset. unfold set in Hset.
  cbn [_size _data] in Hset.
  destruct (length index <? length (_size m))%nat; [discriminate |].
  destruct (store (_data m) index v) as [d | e]; [| discriminate].
  cbn [bind] in Hset. injection Hset as <-. reflexivity.
Qed.

(** ** identify, generalize *)

(** X23.  [generalize] undoes [identify]; the identifier [identify] gives
    to the first element is 0, and to every later element one more than
    its predecessor's if the two elements are equal by [===], else 0. *)
Theorem generalize_identify {X : Type} (strict_eq : X -> X -> bool)
    (a : list X) :
  generalize (identify strict_eq a) = a /\
  (forall x, hd_error a = Some x ->
             hd_error (identify strict_eq a) = Some (x, 0)) /\
  (forall i x c y,
      nth_error (identify strict_eq a) i = Some (x, c) ->
      nth_error a (S i) = Some y ->
      nth_error (identify strict_eq a) (S i) =
        Some (y, if strict_eq y x then c + 1 else 0)).
Proof.
  destruct a as [| a0 rest].
  - split; [reflexivity |]. split; [discriminate |].
    intros [| i] x c y Hc; discriminate.
  - unfold identify, generalize.
    match goal with
    | |- context [?f rest a0 0] =>
        assert (Hloop : forall l previous count,
                   map (fun ai => fst ai) (f l previous count) = l /\
                   forall i x c y,
                     nth_error ((previous, count) :: f l previous count) i
                       = Some (x, c) ->
                     nth_error l i = Some y ->
                     nth_error (f l previous count) i =
                       Some (y, if strict_eq y x then c + 1 else 0))
    end.
    { induction l as [| ai l IHl]; intros previous count.
      - split; [reflexivity |]. intros [| i] x c y _ Hy; discriminate.
      - destruct (IHl ai (if strict_eq ai previous then count + 1 else 0))
          as [I1 I2].
        split; [cbn [map fst]; rewrite I1; reflexivity |].
        intros [| i] x c y Hx Hy.
        + cbn [nth_error] in *. injection Hx as <- <-. injection Hy as <-.
          reflexivity.
        + cbn [nth_error] in Hx, Hy |- *. apply I2; assumption. }
    destruct (Hloop rest a0 0) as [L1 L2].
    split; [cbn [map fst]; rewrite L1; reflexivity |].
    split; [intros x Hx; injection Hx as <-; reflexivity |].
    intros i x c y Hx Hy. cbn [nth_error] in Hy |- *.
    apply L2; assumption.
Qed.

(** ** map after map *)

Lemma js_map_from_js_map_from {X Y W : Type} (f : X -> Z -> Y)
    (g : Y -> Z -> W) (l : list X) :
  forall i, js_map_from g (js_map_from f l i) i =
            js_map_from (fun x j => g (f x j) j) l i.
Proof.
  induction l as [| x l IH]; intros i; [reflexivity |].
  cbn [js_map_from]. rewrite IH. reflexivity.
Qed.

Lemma js_map_from_ext_in {X Y : Type} (f g : X -> Z -> Y) (l : list X) :
  (forall x j, In x l -> f x j = g x j) ->
  forall i, js_map_from f l i = js_map_from g l i.
Proof.
  induction l as [| x l IH]; intros Hfg i; [reflexivity |].
  cbn [js_map_from]. rewrite (Hfg x i (or_introl eq_refl)).
  rewrite IH by (intros y j Hy; apply Hfg; right; exact Hy). reflexivity.
Qed.

Lemma map_recurse_map_recurse (f g : Scalar -> list Z -> Scalar)
    (x : MultidimArray) :
  forall index,
    map_recurse g (map_recurse f x index) index =
    map_recurse (fun s i => g (f s i) i) x index.
Proof.
  induction x as [s | xs IH |] using MultidimArray_nested_ind; intros index;
    [reflexivity | | reflexivity].
  cbn [map_recurse]. unfold js_map. rewrite js_map_from_js_map_from.
  f_equal. apply js_map_from_ext_in.
  intros y j Hy. rewrite Forall_forall in IH. apply IH, Hy.
Qed.

(** X24.  [map] after [map] is one [map] with the callbacks composed: on a
    well-formed tensor whose first slot is not empty, with callbacks that
    return scalars, [a.map(f)] returns a tensor, and mapping it with [g]
    does what mapping [a] with
    [(value, index) => g(f(value, index), index)] does. *)
Theorem map_after_map (a : DenseMatrix) (f g : Scalar -> list Z -> Value) :
  well_formed a ->
  first_is_hole (_data a) = false ->
  exists b,
    DenseMatrix_map a (fun s i => Def (f s i)) = Ok b /\
    DenseMatrix_map b (fun s i => Def (g s i)) =
    DenseMatrix_map a (fun s i => Def (g (Def (f s i)) i)).
Proof.
  intros Hwf Hfirst.
  destruct (DenseMatrix_map_result a f Hwf Hfirst) as [S E].
  eexists. split; [exact E |].
  unfold DenseMatrix_map. cbn [_data].
  rewrite map_recurse_map_recurse. reflexivity.
Qed.

(** ** forEach *)

Lemma forEach_recurse_iterate {St : Type}
    (callback : St -> Scalar -> list Z -> St) (x : MultidimArray) :
  dense x = true ->
  forall index st,
    forEach_recurse callback x index st =
    fold_left (fun st p => callback st (fst p) (snd p)) (iterate x index) st.
Proof.
  induction x as [s | xs IH |] using MultidimArray_nested_ind;
    intros Hdense index st; [reflexivity | | discriminate].
  cbn [forEach_recurse iterate]. unfold js_map. cbn [dense] in Hdense.
  generalize 0 at 1 2. revert st.
  induction xs as [| x xs IHxs]; intros st i; [reflexivity |].
  inversion IH as [| ? ? IHx IHrest]; subst.
  cbn [forallb] in Hdense. apply andb_true_iff in Hdense as [Hx Hxs].
  cbn [js_map_from concat]. rewrite fold_left_app, <- IHx by exact Hx.
  apply IHxs; assumption.
Qed.

(** X25.  On a tensor without empty slots, [forEach] calls the callback
    with the pairs of value and index that the iteration yields, in the
    same order: what the calls leave is what running the callback over the
    iterated pairs, first to last, leaves.  ([forEach] passes over an empty
    slot, which the iteration yields as [undefined].) *)
Theorem forEach_follows_the_iteration {St : Type} (m : DenseMatrix)
    (callback : St -> Scalar -> list Z -> St) (st : St) :
  dense (_data m) = true ->
  DenseMatrix_forEach m callback st =
  fold_left (fun st p => callback st (fst p) (snd p)) (iterator m) st.
Proof.
  intros Hdense. apply forEach_recurse_iterate. exact Hdense.
Qed.

End ArrayFacts.

(** * The further properties at the example tensors *)

Section MoreExamples.

#[local] Existing Instance number_types.
#[local] Existing Instance example_host.

Ltac example_well_formed :=
  split; [reflexivity | split; [discriminate | repeat constructor]].

Ltac array_lengths :=
  repeat (constructor; [cbv beta; unfold max_array_length; lia |]);
  constructor.

Lemma validate_accepts_exactly_the_shape_witness :
  has_shape [2; 2] (mat [[1; -2]; [-3; 4]]) = true /\
  validate (mat [[1; -2]; [-3; 4]]) [2; 2] = Ok tt /\
  isArray (Arr [vec [1; 2]; vec [3]]) = true /\
  exists actual expected relation,
    validate (Arr [vec [1; 2]; vec [3]]) [2; 2] =
    Err (DimensionError actual expected relation).
Proof.
  split; [reflexivity |]. split; [| split; [reflexivity |]].
  - exact (proj2 (proj1 (validate_accepts_exactly_the_shape
                           (mat [[1; -2]; [-3; 4]]) [2; 2])) eq_refl).
  - destruct (proj2 (validate_accepts_exactly_the_shape
                       (Arr [vec [1; 2]; vec [3]]) [2; 2])
                eq_refl (DimensionError 1 (Some 2) "!=") eq_refl)
      as [actual [expected [relation E]]].
    exists actual, expected, relation. rewrite <- E. reflexivity.
Defined.

Lemma fromJSON_accepts_witness :
  (mathjs (toJSON example_matrix) = "DenseMatrix"%string /\
   isArray (data (toJSON example_matrix)) = true /\
   exists v, first_entry (data (toJSON example_matrix)) = Def v) /\
  exists t, fromJSON (toJSON example_matrix) = Ok t.
Proof.
  assert (Hin : mathjs (toJSON example_matrix) = "DenseMatrix"%string /\
                isArray (data (toJSON example_matrix)) = true /\
                exists v, first_entry (data (toJSON example_matrix)) = Def v).
  { split; [reflexivity |]. split; [reflexivity |].
    exists (@Number number_types (Int 1)). reflexivity. }
  split; [exact Hin |].
  exact (proj2 (proj1 (fromJSON_accepts (toJSON example_matrix))) Hin).
Defined.


Lemma resize_refuses_oversized_length_witness :
  js_length [vec [1]; vec [2]] <= max_array_length /\
  max_array_length < 4294967296 /\
  array_resize (Arr [vec [1]; vec [2]]) [4294967296] Undefined =
    (Arr [vec [1]; vec [2]], Err (RangeError "array.length = newLen")) /\
  array_resize (Arr [vec [1]; vec [2]]) [3; 4294967296] Undefined =
    (Arr [vec [1]; vec [2]; Hole], Err (RangeError "array.length = newLen")).
Proof.
  assert (Hlen : js_length [vec [1]; vec [2]] <= max_array_length)
    by (unfold js_length, max_array_length; simpl; lia).
  assert (Hm : max_array_length < 4294967296)
    by (unfold max_array_length; lia).
  split; [exact Hlen |]. split; [exact Hm |].
  destruct (resize_refuses_oversized_length (vec [1]) [vec [2]]
              3 4294967296 [] (@Undefined number_types) Hlen Hm)
    as [H1 H2].
  split; [exact (H1 (Forall_nil _)) |].
  apply H2.
  - unfold max_array_length. lia.
  - unfold js_length, max_array_length. simpl. lia.
Defined.

Lemma generalize_identify_witness :
  generalize (identify Z.eqb [4; 4; 7]) = [4; 4; 7] /\
  (nth_error (identify Z.eqb [4; 4; 7]) 0 = Some (4, 0) /\
   nth_error [4; 4; 7] 1 = Some 4 /\
   nth_error (identify Z.eqb [4; 4; 7]) 1 = Some (4, 1)).
Proof.
  split; [exact (proj1 (generalize_identify Z.eqb [4; 4; 7])) |].
  split; [reflexivity |]. split; [reflexivity |].
  exact (proj2 (proj2 (generalize_identify Z.eqb [4; 4; 7]))
           0%nat 4 0 4 eq_refl eq_refl).
Defined.

Lemma arraySize_of_valid_data_witness :
  validate (mat [[1; -2]; [-3; 4]]) [2; 2] = Ok tt /\
  ((exists k, arraySize (mat [[1; -2]; [-3; 4]]) = firstn k [2; 2]) /\
   (Forall (fun n => 0 < n) [2; 2] -> arraySize (mat [[1; -2]; [-3; 4]]) = [2; 2])).
Proof.
  split; [reflexivity |].
  exact (arraySize_of_valid_data ((mat [[1; -2]; [-3; 4]])) ([2; 2])
           ltac:(reflexivity)).
Defined.

Lemma get_succeeds_at_valid_indices_witness :
  well_formed example_matrix /\
  (((exists s, get example_matrix [1; 0] = Ok s) <-> valid_index (size example_matrix) [1; 0]) /\
   (length [1; 0] <> length (size example_matrix) ->
      get example_matrix [1; 0] =
      Err (DimensionError (Z.of_nat (length [1; 0]))
             (Some (Z.of_nat (length (size example_matrix)))) "!=")) /\
   (length [1; 0] = length (size example_matrix) -> ~ valid_index (size example_matrix) [1; 0] ->
      exists i n, get example_matrix [1; 0] = Err (IndexError i n) /\
                  In i [1; 0] /\ In n (size example_matrix) /\ ~ 0 <= i < n) /\
   (forall message, get example_matrix [1; 0] <> Err (InternalError message))).
Proof.
  split; [example_well_formed |].
  exact (get_succeeds_at_valid_indices (example_matrix) ([1; 0])
           ltac:(example_well_formed)).
Defined.

Lemma map_keeps_the_shape_witness :
  well_formed example_matrix /\
  dense (_data example_matrix) = true /\
  (exists c,
   DenseMatrix_map example_matrix (fun s _ =>
      Def (A.neg (scalarArithmetics example_matrix) s)) = Ok c /\
   well_formed c /\
   dense (_data c) = true /\
   size c = size example_matrix /\
   forall idx, valid_index (size example_matrix) idx ->
               get c idx =
               Ok (Def (A.neg (scalarArithmetics example_matrix)
                          (element example_matrix idx)))).
Proof.
  split; [example_well_formed |].
  split; [reflexivity |].
  exact (map_keeps_the_shape example_matrix
           (fun s _ => A.neg (scalarArithmetics example_matrix) s)
           ltac:(example_well_formed)
           ltac:(reflexivity)).
Defined.

Lemma iterator_yields_the_elements_witness :
  well_formed example_matrix /\
  ((In ((Def (Number (Int 4))), [1; 1]) (iterator example_matrix) <->
    valid_index (size example_matrix) [1; 1] /\
    get example_matrix [1; 1] = Ok (Def (Number (Int 4))))).
Proof.
  split; [example_well_formed |].
  exact (iterator_yields_the_elements (example_matrix) (Def (@Number number_types (Int 4))) ([1; 1])
           ltac:(example_well_formed)).
Defined.

Lemma rows_hold_the_rows_witness :
  well_formed example_matrix /\
  size example_matrix = [2; 2] /\
  defined_leaves (_data example_matrix) = true /\
  (exists rs,
   rows example_matrix = Ok rs /\ Z.of_nat (length rs) = 2 /\
   forall i, 0 <= i < 2 ->
     exists r, nth_error rs (Z.to_nat i) = Some r /\
               size r = [1; 2] /\
               forall j, 0 <= j < 2 -> get r [0; j] = get example_matrix [i; j]).
Proof.
  split; [example_well_formed |].
  split; [reflexivity |].
  split; [reflexivity |].
  exact (rows_hold_the_rows (example_matrix) (2) (2)
           ltac:(example_well_formed)
           ltac:(reflexivity)
           ltac:(reflexivity)).
Defined.

Lemma columns_hold_the_columns_witness :
  well_formed example_matrix /\
  size example_matrix = [2; 2] /\
  defined_leaves (_data example_matrix) = true /\
  (exists cs,
   columns example_matrix = Ok cs /\ Z.of_nat (length cs) = 2 /\
   forall j, 0 <= j < 2 ->
     exists c, nth_error cs (Z.to_nat j) = Some c /\
               size c = [2; 1] /\
               forall i, 0 <= i < 2 -> get c [i; 0] = get example_matrix [i; j]).
Proof.
  split; [example_well_formed |].
  split; [reflexivity |].
  split; [reflexivity |].
  exact (columns_hold_the_columns (example_matrix) (2) (2)
           ltac:(example_well_formed)
           ltac:(reflexivity)
           ltac:(reflexivity)).
Defined.

Lemma resize_keeps_common_elements_witness :
  well_formed example_matrix /\
  length [3; 1] = length (size example_matrix) /\
  Forall (fun n => 0 <= n <= max_array_length) [3; 1] /\
  (exists t',
   resize example_matrix [3; 1] (Def (Number (Int 7))) false = (t', Ok t') /\
   size t' = [3; 1] /\
   forall idx, valid_index [3; 1] idx ->
     (valid_index (size example_matrix) idx -> get t' idx = get example_matrix idx) /\
     (~ valid_index (size example_matrix) idx ->
        get t' idx =
        Ok match (Def (Number (Int 7))) with
           | Undefined => Def (Number number_0)
           | _ => (Def (Number (Int 7)))
           end)).
Proof.
  split; [example_well_formed |].
  split; [reflexivity |].
  split; [array_lengths |].
  exact (resize_keeps_common_elements (example_matrix) ([3; 1]) (Def (@Number number_types (Int 7)))
           ltac:(example_well_formed)
           ltac:(reflexivity)
           ltac:(array_lengths)).
Defined.

Lemma resize_to_own_size_witness :
  well_formed example_matrix /\
  resize example_matrix (size example_matrix) Undefined false =
    (example_matrix, Ok example_matrix).
Proof.
  split; [example_well_formed |].
  exact (resize_to_own_size (example_matrix) (@Undefined number_types)
           ltac:(example_well_formed)).
Defined.

Lemma flatten_is_the_iteration_order_witness :
  _data example_matrix = Arr [vec [1; -2]; vec [-3; 4]] /\
  dense (_data example_matrix) = true /\
  validate (_data example_matrix) (size example_matrix) = Ok tt /\
  flatten (_data example_matrix) = Arr (map Leaf (values example_matrix)) /\
  Z.of_nat (length (values example_matrix)) = product (size example_matrix).
Proof.
  split; [reflexivity |].
  split; [reflexivity |].
  split; [reflexivity |].
  destruct (flatten_is_the_iteration_order (example_matrix)
              ([vec [1; -2]; vec [-3; 4]]) ltac:(reflexivity)) as [F L].
  split; [exact (F eq_refl) | exact (L eq_refl)].
Defined.

Lemma add_and_sub_elementwise_witness :
  well_formed example_matrix /\
  well_formed example_identity /\
  dense (_data example_matrix) = true /\
  ((Forall2 Z.le (size example_matrix) (size example_identity) ->
      (exists c,
         add example_matrix example_identity = Ok c /\ size c = size example_matrix /\
         forall idx, valid_index (size example_matrix) idx ->
           get c idx =
           Ok (Def (A.add (scalarArithmetics example_matrix)
                      (element example_matrix idx) (element example_identity idx)))) /\
      (exists c,
         sub example_matrix example_identity = Ok c /\ size c = size example_matrix /\
         forall idx, valid_index (size example_matrix) idx ->
           get c idx =
           Ok (Def (A.sub (scalarArithmetics example_matrix)
                      (element example_matrix idx) (element example_identity idx))))) /\
   (length (size example_matrix) <> length (size example_identity) ->
      add example_matrix example_identity =
        Err (DimensionError (Z.of_nat (length (size example_matrix)))
               (Some (Z.of_nat (length (size example_identity)))) "!=") /\
      sub example_matrix example_identity =
        Err (DimensionError (Z.of_nat (length (size example_matrix)))
               (Some (Z.of_nat (length (size example_identity)))) "!="))).
Proof.
  split; [example_well_formed |].
  split; [example_well_formed |].
  split; [reflexivity |].
  exact (add_and_sub_elementwise (example_matrix) (example_identity)
           ltac:(example_well_formed)
           ltac:(example_well_formed)
           ltac:(reflexivity)).
Defined.

Lemma pointwise_operations_witness :
  well_formed example_matrix /\
  dense (_data example_matrix) = true /\
  (let S := scalarArithmetics example_matrix in
   let pointwise (r : result DenseMatrix) (f : Scalar -> Value) :=
     exists c,
       r = Ok c /\ size c = size example_matrix /\
       forall idx, valid_index (size example_matrix) idx ->
                   get c idx = Ok (Def (f (element example_matrix idx))) in
   pointwise (scale example_matrix (Def (Number (Int 2))))
     (fun x => A.mul S (Def (Number (Int 2))) x) /\
   pointwise (dotMul example_matrix (Def (Number (Int 2))))
     (fun x => A.mul S x (Def (Number (Int 2)))) /\
   pointwise (neg example_matrix) (fun x => A.neg S x) /\
   pointwise (dotAdd example_matrix (Def (Number (Int 2))))
     (fun x => A.add S x (Def (Number (Int 2)))) /\
   pointwise (dotSub example_matrix (Def (Number (Int 2))))
     (fun x => A.sub S x (Def (Number (Int 2))))).
Proof.
  split; [example_well_formed |].
  split; [reflexivity |].
  exact (pointwise_operations (example_matrix) (Def (@Number number_types (Int 2)))
           ltac:(example_well_formed)
           ltac:(reflexivity)).
Defined.


Lemma reshape_resolves_the_wildcard_witness :
  Forall (fun n => 0 < n) [3] /\
  Forall (fun n => 0 < n) [] /\
  0 <= 2 /\
  2 * product ([3] ++ []) =
    Z.of_nat (length (flat_map flatten_callback [vec [1; 2; 3]; vec [4; 5; 6]])) /\
  (processSizesWildcard ([3] ++ -1 :: [])
     (Z.of_nat (length (flat_map flatten_callback [vec [1; 2; 3]; vec [4; 5; 6]]))) =
     Ok ([3] ++ 2 :: []) /\
   reshape (Arr [vec [1; 2; 3]; vec [4; 5; 6]]) ([3] ++ -1 :: []) =
   reshape (Arr [vec [1; 2; 3]; vec [4; 5; 6]]) ([3] ++ 2 :: []) /\
   forall more currentLength,
     processSizesWildcard ([3] ++ -1 :: [] ++ -1 :: more) currentLength =
     Err (PlainError "More than one wildcard in sizes")).
Proof.
  split; [repeat constructor; lia |].
  split; [constructor |].
  split; [lia |].
  split; [reflexivity |].
  exact (reshape_resolves_the_wildcard ([vec [1; 2; 3]; vec [4; 5; 6]]) ([3]) ([]) (2)
           ltac:(repeat constructor; lia)
           ltac:(constructor)
           ltac:(lia)
           ltac:(reflexivity)).
Defined.


Lemma unsqueeze_keeps_size_in_step_witness :
  has_shape [2] (vec [3; -4]) = true /\
  (validate (fst (unsqueeze (vec [3; -4]) 3 1 (Some [2])))
            (snd (unsqueeze (vec [3; -4]) 3 1 (Some [2]))) = Ok tt /\
   snd (unsqueeze (vec [3; -4]) 3 1 (Some [2])) =
     repeat 1 (Z.to_nat 1) ++ [2] ++
     repeat 1 (Z.to_nat 3 - (Z.to_nat 1 + length [2])) /\
   leaves (fst (unsqueeze (vec [3; -4]) 3 1 (Some [2]))) =
     leaves (vec [3; -4])).
Proof.
  split; [reflexivity |].
  exact (unsqueeze_keeps_size_in_step ((vec [3; -4])) ([2]) (3) (1)
           ltac:(reflexivity)).
Defined.

Lemma squeeze_keeps_size_in_step_witness :
  has_shape [1; 2; 1] (Arr [mat [[1]; [2]]]) = true /\
  (exists x' s',
   squeeze (Arr [mat [[1]; [2]]]) (Some [1; 2; 1]) = Ok (x', s') /\
   validate x' s' = Ok tt /\
   leaves x' = leaves (Arr [mat [[1]; [2]]]) /\
   (exists j k, [1; 2; 1] = repeat 1 j ++ s' ++ repeat 1 k) /\
   hd 0 s' <> 1 /\ last s' 0 <> 1).
Proof.
  split; [reflexivity |].
  exact (squeeze_keeps_size_in_step ((Arr [mat [[1]; [2]]])) ([1; 2; 1])
           ltac:(reflexivity)).
Defined.

Lemma datatype_of_uniform_tensor_witness :
  well_formed example_matrix /\
  _datatype example_matrix = None /\
  Forall (fun s => typeOf s = "number"%string) (leaves (_data example_matrix)) /\
  (snd (get_datatype example_matrix) = Some "number"%string /\
   _datatype (fst (get_datatype example_matrix)) = Some "number"%string /\
   _data (fst (get_datatype example_matrix)) = _data example_matrix /\
   forall index v m',
     set (fst (get_datatype example_matrix)) index v = Ok m' ->
     snd (get_datatype m') = Some "number"%string).
Proof.
  split; [example_well_formed |].
  split; [reflexivity |].
  split; [repeat constructor |].
  exact (datatype_of_uniform_tensor (example_matrix) ("number"%string)
           ltac:(example_well_formed)
           ltac:(reflexivity)
           ltac:(repeat constructor)).
Defined.

Lemma squeeze_undoes_unsqueeze_witness :
  has_shape [2; 2] (mat [[1; -2]; [-3; 4]]) = true /\
  hd 0 [2; 2] <> 1 /\
  last [2; 2] 0 <> 1 /\
  (squeeze (fst (unsqueeze (mat [[1; -2]; [-3; 4]]) 4 1 (Some [2; 2])))
     (Some (snd (unsqueeze (mat [[1; -2]; [-3; 4]]) 4 1 (Some [2; 2])))) =
   Ok (mat [[1; -2]; [-3; 4]], [2; 2])).
Proof.
  split; [reflexivity |].
  split; [cbn; lia |].
  split; [cbn; lia |].
  exact (squeeze_undoes_unsqueeze ((mat [[1; -2]; [-3; 4]])) ([2; 2]) (4) (1)
           ltac:(reflexivity)
           ltac:(cbn; lia)
           ltac:(cbn; lia)).
Defined.

Lemma map_after_map_witness :
  well_formed example_matrix /\
  first_is_hole (_data example_matrix) = false /\
  (exists b,
   DenseMatrix_map example_matrix
     (fun s _ => Def (A.neg (scalarArithmetics example_matrix) s)) = Ok b /\
   DenseMatrix_map b
     (fun s _ => Def (A.add (scalarArithmetics example_matrix) s s)) =
   DenseMatrix_map example_matrix
     (fun s _ =>
        Def (A.add (scalarArithmetics example_matrix)
               (Def (A.neg (scalarArithmetics example_matrix) s))
               (Def (A.neg (scalarArithmetics example_matrix) s))))).
Proof.
  split; [example_well_formed |].
  split; [reflexivity |].
  exact (map_after_map example_matrix
           (fun s _ => A.neg (scalarArithmetics example_matrix) s)
           (fun s _ => A.add (scalarArithmetics example_matrix) s s)
           ltac:(example_well_formed)
           ltac:(reflexivity)).
Defined.

Lemma forEach_follows_the_iteration_witness :
  dense (_data example_matrix) = true /\
  DenseMatrix_forEach example_matrix
    (fun (st : list Scalar) s (_ : list Z) => s :: st) [] =
  fold_left (fun st p => (fun (st : list Scalar) s (_ : list Z) => s :: st)
                           st (fst p) (snd p))
    (iterator example_matrix) [].
Proof.
  split; [reflexivity |].
  exact (forEach_follows_the_iteration example_matrix
           (fun (st : list Scalar) s (_ : list Z) => s :: st) []
           ltac:(reflexivity)).
Defined.

End MoreExamples.
